(** * Text2SQL-Agent: the retry-and-correct SQL loop, the tool registry,
      the schema catalog and the retriever documents.

    A shallow embedding of [agent.py], [src/schema.py] and
    [src/retriever.py].  Python [str] values are [string]s whose characters
    are code points below 256; Python [int] values are [Z]; the language
    model, the database and the retriever are collaborators, given as
    records of functions that thread an explicit world state. *)

From Stdlib Require Import ZArith List String Ascii Bool Lia DecimalString.
From Stdlib Require Import Sorted.
From Stdlib Require OrderedTypeEx.
Import ListNotations.
Open Scope string_scope.

(** ** Python string primitives used by the sources *)

Module PyStr.

(** [str.isspace] on one character, for code points below 256:
    TAB..CR, FS..US, SPACE, NEL and NBSP.  The same set is what [\s]
    matches in a [str] pattern. *)
Definition isspace (c : ascii) : bool :=
  let n := N_of_ascii c in
  ((9 <=? n) && (n <=? 13) || (28 <=? n) && (n <=? 32)
   || (n =? 133) || (n =? 160))%N.

Fixpoint lstrip (s : string) : string :=
  match s with
  | EmptyString => EmptyString
  | String c s' => if isspace c then lstrip s' else s
  end.

Fixpoint rstrip (s : string) : string :=
  match s with
  | EmptyString => EmptyString
  | String c s' =>
      match rstrip s' with
      | EmptyString => if isspace c then EmptyString else String c EmptyString
      | r => String c r
      end
  end.

(** [s.strip()] *)
Definition strip (s : string) : string := rstrip (lstrip s).

(** [s.startswith(p)] *)
Fixpoint startswith (p s : string) : bool :=
  match p, s with
  | EmptyString, _ => true
  | String a p', String b s' => Ascii.eqb a b && startswith p' s'
  | String _ _, EmptyString => false
  end.

(** The left-to-right, non-overlapping scan of [s.replace(old, new)] for a
    non-empty [old]: [skip] counts the characters of a matched occurrence
    that are still to be passed over. *)
Fixpoint replace_scan (old new : string) (skip : nat) (s : string) : string :=
  match s with
  | EmptyString => EmptyString
  | String c s' =>
      match skip with
      | S k => replace_scan old new k s'
      | O =>
          if startswith old s
          then new ++ replace_scan old new (String.length old - 1) s'
          else String c (replace_scan old new 0 s')
      end
  end.

(** With an empty [old], Python puts [new] before every character and at
    the end. *)
Fixpoint intersperse_all (new s : string) : string :=
  match s with
  | EmptyString => new
  | String c s' => new ++ String c (intersperse_all new s')
  end.

(** [s.replace(old, new)] *)
Definition replace (old new s : string) : string :=
  match old with
  | EmptyString => intersperse_all new s
  | String _ _ => replace_scan old new 0 s
  end.

(** [sep.join(l)] *)
Fixpoint join (sep : string) (l : list string) : string :=
  match l with
  | [] => EmptyString
  | [x] => x
  | x :: rest => x ++ sep ++ join sep rest
  end.

(** [str(n)] for an [int] *)
Definition str_of_int (n : Z) : string :=
  NilZero.string_of_int (Z.to_int n).

(** [x in l] for a list of strings *)
Definition mem (x : string) (l : list string) : bool :=
  existsb (String.eqb x) l.

(** [x in s] *)
Definition Contains (x s : string) : Prop :=
  exists a b, s = a ++ x ++ b.

Fixpoint infixb (x s : string) : bool :=
  startswith x s ||
  match s with
  | EmptyString => false
  | String _ s' => infixb x s'
  end.

End PyStr.

(** ** The statement extraction of [safe_sql_query] *)

Module Extract.
Import PyStr.

Definition nl : string := String (ascii_of_nat 10) EmptyString.
Definition query_marker : string := "SQLQuery:".
Definition result_marker : string := nl ++ "SQLResult:".
Definition fence : string := "```".
Definition fence_sql : string := "```sql".

(** The pattern is [SQLQuery:\s*(.*?)(?=\nSQLResult:)] under [re.DOTALL];
    the three functions follow the backtracking matcher piece by piece. *)

(** [(.*?)(?=\nSQLResult:)]: the lazy group grows one character at a time
    (any character, [DOTALL]) until the look-ahead holds. *)
Fixpoint lazy_group (s : string) : option string :=
  if startswith result_marker s then Some EmptyString
  else match s with
       | EmptyString => None
       | String c s' => option_map (String c) (lazy_group s')
       end.

(** [\s*] followed by the group: greedy, so one more blank is tried first
    and given back when the rest of the pattern fails. *)
Fixpoint blanks_then_group (s : string) : option string :=
  match s with
  | EmptyString => lazy_group s
  | String c s' =>
      if isspace c
      then match blanks_then_group s' with
           | Some g => Some g
           | None => lazy_group s
           end
      else lazy_group s
  end.

Fixpoint drop (n : nat) (s : string) : string :=
  match n, s with
  | O, _ => s
  | S k, String _ s' => drop k s'
  | S _, EmptyString => EmptyString
  end.

(** The whole pattern anchored at the start of [s]; the result is
    [match.group(1)]. *)
Definition match_here (s : string) : option string :=
  if startswith query_marker s
  then blanks_then_group (drop (String.length query_marker) s)
  else None.

(** [re.search]: the leftmost start position at which the pattern matches. *)
Fixpoint re_search (s : string) : option string :=
  match match_here s with
  | Some g => Some g
  | None =>
      match s with
      | EmptyString => None
      | String _ s' => re_search s'
      end
  end.

(** [.strip().replace("```sql", "").replace("```", "").strip()] *)
Definition clean (s : string) : string :=
  strip (replace fence EmptyString (replace fence_sql EmptyString (strip s))).

(** Lines 133-136 of [agent.py]: from the raw model text to [sql_code]. *)
Definition extract_sql (raw : string) : string :=
  let sql_code :=
    match re_search raw with
    | Some g => g
    | None => raw
    end in
  clean sql_code.

End Extract.

(** ** The retry-and-correct loop of [build_sql_generation_tool] *)

Module SqlLoop.
Import PyStr Extract.

(** A raised Python exception [e]; [msg] is [str(e)]. *)
Inductive exn : Type := Exn (msg : string).

(** What a collaborator call does: it returns a value or raises. *)
Definition reply : Type := (string + exn)%type.

(** The dict handed to [sql_generation_chain.invoke]. *)
Record chain_input : Type := mk_chain_input {
  input : string;
  table_info : string;
  dialect : string
}.

(** [chain_input["input"] = v] *)
Definition set_input (ci : chain_input) (v : string) : chain_input :=
  {| input := v; table_info := table_info ci; dialect := dialect ci |}.

(** The collaborator calls of one invocation, in program order.  [i] is
    the loop variable of the attempt that makes the call.  The [logging]
    calls write to the log only and are left out. *)
Inductive event : Type :=
| EvGenerate (i : Z) (ci : chain_input) (r : reply)
| EvExecute (i : Z) (sql_code : string) (r : reply).

(** The [return] statement that ends the call. *)
Inductive site : Type :=
| ReturnSuccess
| ReturnFinalFailure
| ReturnFallback.

Inductive outcome : Type :=
| Returned (at_site : site) (msg : string)
| Raised (e : exn).

(** The database wrapper and the LLM chain, over a world state [World]
    that each call may read and change.  [db.get_table_info()] and
    [db.dialect] are read once before the loop; [chain.invoke] may raise
    (nothing catches it) and [db.run] may raise (the loop catches it). *)
Record collaborators (World : Type) : Type := mk_collaborators {
  get_table_info : World -> string * World;
  db_dialect : World -> string;
  chain_invoke : chain_input -> World -> reply * World;
  db_run : string -> World -> reply * World
}.
Arguments get_table_info {World}.
Arguments db_dialect {World}.
Arguments chain_invoke {World}.
Arguments db_run {World}.

Definition success_message (result : string) : string :=
  "Query executed successfully. Result: " ++ result.

Definition failure_message (max_retries : Z) (error_message : string) : string :=
  "Failed to execute SQL after " ++ str_of_int max_retries
  ++ " attempts. Last error: " ++ error_message.

Definition fallback_message : string :=
  "Failed to get a valid response from the database after multiple attempts.".

(** The corrective instruction written into [chain_input["input"]]. *)
Definition corrective (question sql_code error_message : string) : string :=
  "The previous attempt to answer the question '" ++ question ++ "' failed. "
  ++ "The generated SQL was:" ++ nl ++ sql_code ++ nl
  ++ "It produced the following database error:" ++ nl ++ error_message ++ nl
  ++ "Please analyze the error and the database schema to generate a corrected SQL query.".

(** [range(stop)] counted from [start]. *)
Fixpoint range_from (start : Z) (len : nat) : list Z :=
  match len with
  | O => []
  | S len' => start :: range_from (start + 1) len'
  end.

(** [range(n)]: empty when [n <= 0]. *)
Definition range (n : Z) : list Z := range_from 0 (Z.to_nat n).

Section Loop.

Context {World : Type} (env : collaborators World).

(** The [for i in range(max_retries)] loop, [indices] being the values of
    [i] still to come; falling off the end reaches the last [return]. *)
Fixpoint attempts (question : string) (max_retries : Z) (indices : list Z)
    (ci : chain_input) (w : World) : outcome * World * list event :=
  match indices with
  | [] => (Returned ReturnFallback fallback_message, w, [])
  | i :: rest =>
      let (g, w1) := chain_invoke env ci w in
      match g with
      | inr e => (Raised e, w1, [EvGenerate i ci g])
      | inl text =>
          let sql_code := extract_sql text in
          let (r, w2) := db_run env sql_code w1 in
          match r with
          | inl result =>
              (Returned ReturnSuccess (success_message result), w2,
               [EvGenerate i ci g; EvExecute i sql_code r])
          | inr (Exn error_message) =>
              if (i =? max_retries - 1)%Z
              then (Returned ReturnFinalFailure
                      (failure_message max_retries error_message), w2,
                    [EvGenerate i ci g; EvExecute i sql_code r])
              else
                let '(o, w3, tr) :=
                  attempts question max_retries rest
                    (set_input ci (corrective question sql_code error_message)) w2 in
                (o, w3, EvGenerate i ci g :: EvExecute i sql_code r :: tr)
          end
      end
  end.

Definition safe_sql_query (question : string) (max_retries : Z) (w : World)
    : outcome * World * list event :=
  let (info, w1) := get_table_info env w in
  let chain_input := {| input := question; table_info := info;
                        dialect := db_dialect env w1 |} in
  attempts question max_retries (range max_retries) chain_input w1.

End Loop.

(** *** Reading a trace *)

Definition is_generate (ev : event) : bool :=
  match ev with EvGenerate _ _ _ => true | _ => false end.

Definition is_execute (ev : event) : bool :=
  match ev with EvExecute _ _ _ => true | _ => false end.

Definition generation_calls (tr : list event) : nat :=
  List.length (filter is_generate tr).

Definition execution_calls (tr : list event) : nat :=
  List.length (filter is_execute tr).

(** The call went as far as an execution, and the execution raised. *)
Definition fails_at_execution (ev : event) : bool :=
  match ev with
  | EvGenerate _ _ (inl _) => true
  | EvExecute _ _ (inr _) => true
  | _ => false
  end.

(** [str(e)] of the last execution error of a trace. *)
Fixpoint last_error (tr : list event) : option string :=
  match tr with
  | [] => None
  | ev :: tr' =>
      match last_error tr' with
      | Some m => Some m
      | None =>
          match ev with
          | EvExecute _ _ (inr (Exn m)) => Some m
          | _ => None
          end
      end
  end.

(** *** The shape of a run that enters the loop

    [attempt_chain question max_retries i ci o tr]: starting at attempt [i]
    with chain input [ci], the calls [tr] are made and the run ends as [o]. *)

Inductive attempt_chain (question : string) (max_retries : Z)
  : Z -> chain_input -> outcome -> list event -> Prop :=
| chain_generation_raises i ci e :
    attempt_chain question max_retries i ci (Raised e)
      [EvGenerate i ci (inr e)]
| chain_success i ci text result :
    attempt_chain question max_retries i ci
      (Returned ReturnSuccess (success_message result))
      [EvGenerate i ci (inl text); EvExecute i (extract_sql text) (inl result)]
| chain_final_failure i ci text error_message :
    i = (max_retries - 1)%Z ->
    attempt_chain question max_retries i ci
      (Returned ReturnFinalFailure (failure_message max_retries error_message))
      [EvGenerate i ci (inl text);
       EvExecute i (extract_sql text) (inr (Exn error_message))]
| chain_retry i ci text error_message o tr :
    i <> (max_retries - 1)%Z ->
    attempt_chain question max_retries (i + 1)
      (set_input ci (corrective question (extract_sql text) error_message)) o tr ->
    attempt_chain question max_retries i ci o
      (EvGenerate i ci (inl text)
       :: EvExecute i (extract_sql text) (inr (Exn error_message)) :: tr).

(** *** A scripted world, for concrete runs: the replies the model and the
    database will give, in order. *)

Record script : Type := mk_script {
  llm_replies : list reply;
  db_replies : list reply
}.

Definition out_of_script : exn := Exn "no scripted reply".

Definition scripted : collaborators script :=
  {| get_table_info := fun w => ("CREATE TABLE members (member_id INTEGER)", w);
     db_dialect := fun _ => "sqlite";
     chain_invoke := fun _ w =>
       match llm_replies w with
       | [] => (inr out_of_script, w)
       | r :: rs => (r, {| llm_replies := rs; db_replies := db_replies w |})
       end;
     db_run := fun _ w =>
       match db_replies w with
       | [] => (inr out_of_script, w)
       | r :: rs => (r, {| llm_replies := llm_replies w; db_replies := rs |})
       end |}.

End SqlLoop.


(** ** Vocabulary for statements about the extraction *)

Module ExtractSpec.
Import PyStr Extract.

(** Every character is white space ([s.strip() == ""]). *)
Fixpoint blank (s : string) : bool :=
  match s with
  | EmptyString => true
  | String c s' => isspace c && blank s'
  end.

(** [pre] is the text before the first occurrence of [x] in [s]
    ([s.find(x) == len(pre)]). *)
Definition FirstAt (x pre s : string) : Prop :=
  (exists post, s = pre ++ x ++ post)
  /\ forall a b, s = a ++ x ++ b -> String.length pre <= String.length a.

(** [s.find(x)] *)
Fixpoint find (x s : string) : option nat :=
  if startswith x s then Some 0
  else match s with
       | EmptyString => None
       | String _ s' => option_map S (find x s')
       end.


Definition backtick : ascii := "`"%char.

(** The number of backticks a string starts with. *)
Fixpoint leading_backticks (s : string) : nat :=
  match s with
  | EmptyString => 0
  | String c s' => if Ascii.eqb backtick c then S (leading_backticks s') else 0
  end.

End ExtractSpec.

(** ** The schema catalog of [src/schema.py] *)

Module Schema.
Import PyStr.

(** A cell of a frame; [None] is a missing value (NaN). *)
Definition cell : Type := option string.

(** A record passed to [pd.DataFrame]: a dict, keys in insertion order. *)
Definition record : Type := list (string * string).

(** A frame: its column labels and its rows, one cell per label.  Labels
    are distinct in every frame built from records. *)
Record DataFrame : Type := mk_DataFrame {
  columns : list string;
  rows : list (list cell)
}.

Fixpoint lookup {A : Type} (key : string) (d : list (string * A)) : option A :=
  match d with
  | [] => None
  | (k, v) :: d' => if String.eqb k key then Some v else lookup key d'
  end.

(** The labels of [pd.DataFrame(records)]: the keys of the records in the
    order of their first appearance. *)
Fixpoint first_appearance (seen keys : list string) : list string :=
  match keys with
  | [] => []
  | k :: keys' =>
      if mem k seen then first_appearance seen keys'
      else k :: first_appearance (k :: seen) keys'
  end.

(** [pd.DataFrame(records)] for a list of dicts. *)
Definition DataFrame_of_records (records : list record) : DataFrame :=
  let labels := first_appearance [] (flat_map (map fst) records) in
  {| columns := labels;
     rows := map (fun r => map (fun c => lookup c r) labels) records |}.

(** One tuple of [column_definitions]:
    (column name, Chinese column name, definition, data type).  The
    Chinese names are kept as the bytes of the source file. *)
Definition field : Type := (string * string * string * string)%type.

Definition field_name (f : field) : string := let '(n, _, _, _) := f in n.
Definition field_name_zh (f : field) : string := let '(_, z, _, _) := f in z.
Definition field_definition (f : field) : string := let '(_, _, d, _) := f in d.
Definition field_type (f : field) : string := let '(_, _, _, t) := f in t.

Definition column_definitions : list (string * list field) :=
  [ ("members",
     [ ("member_id", "會員編號", "Unique identifier for each member", "Integer");
       ("member_name", "姓名", "Member's full name", "String");
       ("email", "電子郵件", "Member's email address", "String");
       ("join_date", "加入日期", "Date the member registered", "DateTime");
       ("member_level", "會員等級", "Membership level (e.g., Silver, Gold, Platinum)", "String");
       ("referrer_id", "推薦人", "ID of the member who referred this member", "Integer (nullable)");
       ("gender", "性別", "Member's gender (Male, Female, Unknown)", "String");
       ("birth_year", "出生年份", "Year the member was born", "Integer");
       ("country", "國家", "Country the member belongs to", "String");
       ("is_active", "是否啟用", "Whether the member's account is active", "Boolean") ]);
    ("items",
     [ ("item_id", "商品編號", "Unique identifier for each item", "Integer");
       ("item_name", "商品名稱", "Name of the item", "String");
       ("category", "分類", "Primary category of the item", "String");
       ("subcategory", "子分類", "Subcategory of the item", "String");
       ("brand", "品牌", "Brand of the item (e.g., Apple, Samsung, Nike, Adidas)", "String");
       ("price", "價格", "Original price of the item", "Float");
       ("stock_quantity", "庫存量", "Number of items available for sale", "Integer");
       ("rating", "評分", "Average user rating", "Float");
       ("is_active", "是否上架", "Whether the item is currently listed for sale", "Boolean");
       ("created_at", "上架時間", "Time the item was listed", "DateTime") ]);
    ("campaigns",
     [ ("campaign_id", "活動編號", "Unique identifier for each marketing campaign", "Integer");
       ("campaign_name", "活動名稱", "Name of the marketing campaign", "String");
       ("start_date", "開始日期", "Start date of the campaign", "DateTime");
       ("end_date", "結束日期", "End date of the campaign", "DateTime");
       ("discount_rate", "折扣比例", "Discount rate offered in the campaign", "Float");
       ("channel", "推廣渠道", "Promotion channel (e.g., App, Website, Email, Social Media)", "String");
       ("description", "活動說明", "Detailed description of the campaign", "String") ]);
    ("transactions",
     [ ("transaction_id", "交易編號", "Unique identifier for each transaction", "Integer");
       ("member_id", "會員編號", "Unique ID of the member making the transaction", "Integer");
       ("campaign_id", "活動編號", "Associated marketing campaign for this transaction", "Integer (nullable)");
       ("discount_rate", "折扣比例", "Discount rate used in this transaction (0–100%)", "Float");
       ("final_price", "成交價格", "Final price after applying discount", "Float");
       ("payment_method", "付款方式", "Payment method used (e.g., CreditCard, PayPal, ATM, LinePay)", "String");
       ("transaction_time", "交易時間", "Time the transaction occurred", "DateTime") ]);
    ("transaction_items",
     [ ("transaction_id", "交易編號", "Unique ID of the related main transaction", "Integer");
       ("item_id", "商品編號", "Unique ID of the purchased item", "Integer");
       ("quantity", "數量", "Quantity of the purchased item", "Integer");
       ("unit_price", "單價", "Unit price of the item", "Float") ]) ].

Definition table_definitions : list (string * string) :=
  [ ("members", "Table that stores information about registered members.");
    ("items", "Table containing details of all items available for sale.");
    ("campaigns", "Table listing all marketing campaigns and related information.");
    ("transactions", "Table recording each transaction made by members.");
    ("transaction_items", "Table listing the specific items purchased in each transaction.") ].

(** The record appended for a table. *)
Definition table_record (table definition : string) : record :=
  [ ("table_name", table); ("column_name", "__table__");
    ("definition", definition); ("data_type", "TABLE") ].

(** The record appended for one field of a table. *)
Definition field_record (table : string) (f : field) : record :=
  [ ("table_name", table); ("column_name", field_name f);
    ("definition", field_definition f); ("data_type", field_type f) ].

(** The loop of [create_schema] over [column_definitions.items()], with
    [rows] the list built so far; [None] is the [KeyError] of
    [table_definitions[table]]. *)
Fixpoint append_tables (column_defs : list (string * list field))
    (table_defs : list (string * string)) (rows : list record)
    : option (list record) :=
  match column_defs with
  | [] => Some rows
  | (table, fields) :: rest =>
      match lookup table table_defs with
      | None => None
      | Some definition =>
          append_tables rest table_defs
            (rows ++ table_record table definition
                  :: map (field_record table) fields)
      end
  end.

Definition create_schema : option DataFrame :=
  option_map DataFrame_of_records
    (append_tables column_definitions table_definitions []).

End Schema.


(** ** The documents of [src/retriever.py] *)

Module Retriever.
Import PyStr Schema.

(** A LangChain [Document]. *)
Record Document : Type := mk_Document {
  page_content : string;
  metadata : list (string * cell)
}.

(** [str(v)] of a cell inside an f-string. *)
Definition format_cell (c : cell) : string :=
  match c with
  | Some s => s
  | None => "nan"
  end.

Fixpoint index_of (label : string) (labels : list string) : option nat :=
  match labels with
  | [] => None
  | l :: labels' =>
      if String.eqb l label then Some 0 else option_map S (index_of label labels')
  end.

(** [row[label]]; [None] is a [KeyError]. *)
Definition row_get (df : DataFrame) (row : list cell) (label : string)
    : option cell :=
  option_map (fun k => nth k row None) (index_of label (columns df)).

(** The cells of one column. *)
Definition column_values (k : nat) (df : DataFrame) : list cell :=
  map (fun row => nth k row None) (rows df).

Fixpoint insert_sorted (x : string) (l : list string) : list string :=
  match l with
  | [] => [x]
  | y :: l' =>
      if String.eqb x y then l
      else if String.leb x y then x :: l
      else y :: insert_sorted x l'
  end.

(** The group keys: the distinct values present, in ascending order;
    missing values make no group. *)
Fixpoint group_keys (values : list cell) : list string :=
  match values with
  | [] => []
  | Some v :: values' => insert_sorted v (group_keys values')
  | None :: values' => group_keys values'
  end.

Definition cell_is (v : string) (c : cell) : bool :=
  match c with
  | Some s => String.eqb s v
  | None => false
  end.

(** Iterating [df.groupby(label)]: pairs of a key and the sub-frame of the
    rows with that key; [None] is the [KeyError] of an unknown label. *)
Definition groupby (label : string) (df : DataFrame)
    : option (list (string * DataFrame)) :=
  match index_of label (columns df) with
  | None => None
  | Some k =>
      Some (map (fun key =>
                   (key, {| columns := columns df;
                            rows := filter (fun row => cell_is key (nth k row None))
                                      (rows df) |}))
              (group_keys (column_values k df)))
  end.

(** The first loop: one document per table.  [', '.join(columns)] iterates
    the sub-frame, which yields its column labels. *)
Definition table_document (group : string * DataFrame) : Document :=
  let (table_name, columns) := group in
  {| page_content := table_name ++ ": " ++ join ", " (Schema.columns columns);
     metadata := [("table_name", Some table_name)] |}.

(** The second loop: one document per row of the frame. *)
Definition row_document (df : DataFrame) (row : list cell) : option Document :=
  match row_get df row "table_name", row_get df row "column_name",
        row_get df row "data_type", row_get df row "definition" with
  | Some t, Some c, Some ty, Some d =>
      Some {| page_content :=
                format_cell t ++ "." ++ format_cell c ++ ": "
                ++ "[" ++ format_cell ty ++ "] " ++ format_cell d;
              metadata := combine (columns df) row |}
  | _, _, _, _ => None
  end.

Fixpoint row_documents (df : DataFrame) (rs : list (list cell))
    : option (list Document) :=
  match rs with
  | [] => Some []
  | row :: rs' =>
      match row_document df row with
      | None => None
      | Some d => option_map (cons d) (row_documents df rs')
      end
  end.

(** What [init_retriever] hands to [Chroma.from_documents], and the search
    settings of the retriever it returns. *)
Record retriever : Type := mk_retriever {
  documents : list Document;
  search_type : string;
  k : nat
}.

Definition init_retriever (df_schema : DataFrame) : option retriever :=
  match groupby "table_name" df_schema with
  | None => None
  | Some groups =>
      match row_documents df_schema (rows df_schema) with
      | None => None
      | Some row_docs =>
          Some {| documents := map table_document groups ++ row_docs;
                  search_type := "mmr";
                  k := 3 |}
      end
  end.

End Retriever.


(** ** The tool registry of [agent.py] *)

Module Tools.
Import PyStr SqlLoop Retriever.

(** The Python value a tool function hands back: a [str], or the list of
    [Document]s of the retriever. *)
Inductive value : Type :=
| VStr (s : string)
| VDocuments (docs : list Document).

Inductive invocation : Type :=
| Gives (v : value)
| Raises (e : exn).

(** The library objects the tools wrap.  [ListSQLDatabaseTool] and
    [InfoSQLDatabaseTool] answer with text; the retriever answers with
    documents. *)
Record toolkit (World : Type) : Type := mk_toolkit {
  loop_env : collaborators World;
  list_tables_run : string -> World -> string * World;
  describe_table_invoke : string -> World -> string * World;
  get_relevant_documents : string -> World -> list Document * World
}.
Arguments loop_env {World}.
Arguments list_tables_run {World}.
Arguments describe_table_invoke {World}.
Arguments get_relevant_documents {World}.

Record Tool (World : Type) : Type := mk_Tool {
  name : string;
  func : string -> World -> invocation * World;
  description : string
}.
Arguments name {World}.
Arguments func {World}.
Arguments description {World}.

Section Builders.

Context {World : Type} (tk : toolkit World).

Definition build_list_table_tool : Tool World :=
  {| name := "list_tables";
     func := fun tool_input w =>
       let (text, w') := list_tables_run tk tool_input w in
       (Gives (VStr text), w');
     description :=
       "Use this tool to list all available table names in the database." |}.

Definition build_info_table_tool : Tool World :=
  {| name := "describe_table";
     func := fun table w =>
       let (text, w') := describe_table_invoke tk table w in
       (Gives (VStr text), w');
     description :=
       "Use this tool to describe the schema of a specific table, including column names and data types." |}.

(** [func=lambda query: retriever.get_relevant_documents(query)] *)
Definition build_schema_tool : Tool World :=
  {| name := "schema_lookup";
     func := fun query w =>
       let (docs, w') := get_relevant_documents tk query w in
       (Gives (VDocuments docs), w');
     description :=
       "A tool to retrieve definitions of table or column names. "
       ++ "Use when the input is a natural language question containing a field or table name that needs clarification."
       ++ "Input should be a short query or phrase asking about the meaning or definition of a table or column. "
       ++ "Returns the associated schema documentation." |}.

(** [func=safe_sql_query], with [max_retries] bound at build time. *)
Definition build_sql_generation_tool (max_retries : Z) : Tool World :=
  {| name := "sql_query";
     func := fun question w =>
       let '(o, w', _) := safe_sql_query (loop_env tk) question max_retries w in
       match o with
       | Returned _ msg => (Gives (VStr msg), w')
       | Raised e => (Raises e, w')
       end;
     description :=
       "Use this tool to answer questions about user data, metrics, or reports from the database. "
       ++ "Input should be a complete question in natural language. "
       ++ "The tool will automatically generate, execute, and correct SQL to find the answer." |}.

(** The default of the [max_retries] parameter. *)
Definition default_max_retries : Z := 3.

(** The [tools] list of [build_agent]. *)
Definition tools : list (Tool World) :=
  [ build_list_table_tool; build_info_table_tool;
    build_sql_generation_tool default_max_retries; build_schema_tool ].

End Builders.

(** A toolkit over the scripted world, with a retriever that answers every
    query with the first [k] documents it was given. *)
Definition scripted_toolkit (r : retriever) : toolkit script :=
  {| loop_env := scripted;
     list_tables_run := fun _ w =>
       ("campaigns, items, members, transaction_items, transactions", w);
     describe_table_invoke := fun table w =>
       ("CREATE TABLE " ++ table ++ " (...)", w);
     get_relevant_documents := fun _ w => (firstn (k r) (documents r), w) |}.

End Tools.

(** ** The agent executor of [build_agent] *)

Module Agent.
Import PyStr Extract SqlLoop Tools.

(** The settings [build_agent] passes to [ZeroShotAgent] and to
    [AgentExecutor.from_agent_and_tools].  The source leaves
    [max_iterations] unset, so the ceiling is the one of the library. *)
Record AgentExecutor (World : Type) : Type := mk_AgentExecutor {
  agent_tools : list (Tool World);
  allowed_tools : list string;
  stop : list string;
  max_iterations : nat;
  early_stopping_method : string;
  handle_parsing_errors : bool
}.
Arguments agent_tools {World}.
Arguments allowed_tools {World}.
Arguments stop {World}.
Arguments max_iterations {World}.
Arguments early_stopping_method {World}.
Arguments handle_parsing_errors {World}.

Definition build_agent {World : Type} (tk : toolkit World)
    (library_max_iterations : nat) : AgentExecutor World :=
  {| agent_tools := tools tk;
     allowed_tools := map name (tools tk);
     stop := [nl ++ "Final Answer:"];
     max_iterations := library_max_iterations;
     early_stopping_method := "generate";
     handle_parsing_errors := true |}.

End Agent.


(** ** The synthetic data of [src/database.py] *)

Module Database.
Import PyStr SqlLoop.

(** A Python [float], kept as the way it was obtained: a literal of the
    source, a value handed out by [random.uniform], an [int] operand, or
    the result of an operation.  No rounding law is assumed. *)
Inductive float : Type :=
| FLiteral (text : string)
| FDrawn (bits : Z)
| FOfInt (z : Z)
| FAdd (a b : float)
| FSub (a b : float)
| FMul (a b : float)
| FDiv (a b : float)
| FRound (a : float) (ndigits : Z).

(** A [datetime], as seconds on the time line; [timedelta(days=d)] is
    [86400 * d] seconds. *)
Definition datetime : Type := Z.

Definition add_days (t : datetime) (days : Z) : datetime := (t + 86400 * days)%Z.

Module Member.
Record t : Type := mk {
  member_id : Z;
  member_name : string;
  email : string;
  join_date : datetime;
  member_level : string;
  referrer_id : option Z;
  gender : string;
  birth_year : Z;
  country : string;
  is_active : bool
}.
End Member.

Module Item.
Record t : Type := mk {
  item_id : Z;
  item_name : string;
  category : string;
  subcategory : string;
  brand : string;
  price : float;
  stock_quantity : Z;
  rating : float;
  is_active : bool;
  created_at : datetime
}.
End Item.

Module Campaign.
Record t : Type := mk {
  campaign_id : Z;
  campaign_name : string;
  start_date : datetime;
  end_date : datetime;
  discount_rate : float;
  channel : string;
  description : string
}.
End Campaign.

Module Transaction.
Record t : Type := mk {
  transaction_id : Z;
  member_id : Z;
  campaign_id : option Z;
  discount_rate : float;
  final_price : float;
  payment_method : string;
  transaction_time : datetime
}.
End Transaction.

Module TransactionItem.
Record t : Type := mk {
  transaction_id : Z;
  item_id : Z;
  quantity : Z;
  unit_price : float
}.
End TransactionItem.

(** An object handed to the session, named by its table and primary key. *)
Inductive ref : Type :=
| RMember (member_id : Z)
| RItem (item_id : Z)
| RCampaign (campaign_id : Z)
| RTransaction (transaction_id : Z)
| RTransactionItem (transaction_id item_id : Z).

(** The calls made on the SQLAlchemy session, in program order. *)
Inductive session_call : Type :=
| AddAll (objects : list ref)
| Add (object : ref)
| Flush
| Commit.

(** What the generators call: the [random] module, the [Faker] instance
    and the database behind the session, over a world state:
    - [randbelow n] is the draw behind [choice] and [randint];
    - [random_below p] is [random.random() < p], [p] being the literal;
    - [uniform a b] gives the bits of the float drawn;
    - [weighted_bool] is
      [random.choices([True, False], weights=[0.8, 0.2])[0]];
    - [sample_positions n k] gives the positions picked by
      [random.sample] in a population of [n];
    - [fake_unique_email] is [fake.unique.email()], which raises when
      it finds no address it has not given yet;
    - [session_flush calls] and [session_commit calls] are
      [session.flush()] and [session.commit()] after the given calls on
      the session: they write to the database and raise what it raises
      (a key that is already stored, say); [session.add] and
      [session.add_all] do not reach the database;
    - [capitalize] is [str.capitalize]. *)
Record source (World : Type) : Type := mk_source {
  randbelow : nat -> World -> nat * World;
  random_below : string -> World -> bool * World;
  uniform : Z -> Z -> World -> Z * World;
  weighted_bool : World -> bool * World;
  sample_positions : nat -> nat -> World -> list nat * World;
  fake_name : World -> string * World;
  fake_unique_email : World -> (string + exn) * World;
  fake_word : World -> string * World;
  fake_sentence : World -> string * World;
  date_time_between : string -> string -> World -> datetime * World;
  session_flush : list session_call -> World -> option exn * World;
  session_commit : list session_call -> World -> option exn * World;
  capitalize : string -> string
}.
Arguments randbelow {World}.
Arguments random_below {World}.
Arguments uniform {World}.
Arguments weighted_bool {World}.
Arguments sample_positions {World}.
Arguments fake_name {World}.
Arguments fake_unique_email {World}.
Arguments fake_word {World}.
Arguments fake_sentence {World}.
Arguments date_time_between {World}.
Arguments session_flush {World}.
Arguments session_commit {World}.
Arguments capitalize {World}.

(** What [random.sample] promises: [k] distinct positions of the
    population. *)
Definition sample_contract {World : Type} (src : source World) : Prop :=
  forall n k w,
    k <= n ->
    List.length (fst (sample_positions src n k w)) = k
    /\ NoDup (fst (sample_positions src n k w))
    /\ Forall (fun p => p < n) (fst (sample_positions src n k w)).

(** The state a generator runs in: the world of the random sources and
    the calls made on the session so far. *)
Record state (World : Type) : Type := mk_state {
  world : World;
  session : list session_call
}.
Arguments world {World}.
Arguments session {World}.

(** A computation that returns or raises, and changes the state. *)
Definition M (World A : Type) : Type := state World -> (A + exn) * state World.

Definition ret {World A : Type} (a : A) : M World A := fun st => (inl a, st).

Definition raise {World A : Type} (e : exn) : M World A := fun st => (inr e, st).

Definition bind {World A B : Type} (c : M World A) (k : A -> M World B)
    : M World B :=
  fun st =>
    match c st with
    | (inl a, st1) => k a st1
    | (inr e, st1) => (inr e, st1)
    end.

(** A call of a random source. *)
Definition draw {World A : Type} (f : World -> A * World) : M World A :=
  fun st =>
    let (a, w) := f (world st) in
    (inl a, {| world := w; session := session st |}).

(** A call of a random source that may raise. *)
Definition attempt {World A : Type} (f : World -> (A + exn) * World)
    : M World A :=
  fun st =>
    let (r, w) := f (world st) in
    (r, {| world := w; session := session st |}).

(** A call on the session that does not reach the database. *)
Definition call {World : Type} (c : session_call) : M World unit :=
  fun st => (inl tt, {| world := world st; session := session st ++ [c] |}).

(** A call on the session that writes to the database: [write] is given
    the calls made before. *)
Definition writing {World : Type} (c : session_call)
    (write : list session_call -> World -> option exn * World) : M World unit :=
  fun st =>
    let (r, w) := write (session st) (world st) in
    let st' := {| world := w; session := session st ++ [c] |} in
    match r with
    | None => (inl tt, st')
    | Some e => (inr e, st')
    end.

Local Notation "x <- c ;; k" := (bind c (fun x => k))
  (at level 61, c at next level, right associativity).
Local Notation "c ;;; k" := (bind c (fun _ => k))
  (at level 61, right associativity).

Definition IndexError : exn := Exn "Cannot choose from an empty sequence".
Definition ValueError : exn := Exn "Sample larger than population or is negative".
Definition KeyError (key : string) : exn := Exn key.

Section Random.

Context {World : Type} (src : source World).

(** [random.choice(seq)]: [seq[randbelow(len(seq))]]. *)
Definition choice {A : Type} (seq : list A) : M World A :=
  match seq with
  | [] => raise IndexError
  | x :: _ =>
      k <- draw (randbelow src (List.length seq)) ;;
      ret (nth (k mod List.length seq) seq x)
  end.

(** [random.randint(a, b)] for [a <= b]: [a + randbelow(b - a + 1)]. *)
Definition randint (a b : Z) : M World Z :=
  k <- draw (randbelow src (Z.to_nat (b - a + 1))) ;;
  ret (a + Z.of_nat (k mod Z.to_nat (b - a + 1)))%Z.

(** The elements at the given positions, in that order. *)
Definition pick {A : Type} (population : list A) (positions : list nat) : list A :=
  flat_map (fun p => match nth_error population p with
                     | Some x => [x]
                     | None => []
                     end) positions.

(** [random.sample(population, k)] *)
Definition sample {A : Type} (population : list A) (k : Z) : M World (list A) :=
  if ((k <? 0) || (Z.of_nat (List.length population) <? k))%Z
  then raise ValueError
  else positions <- draw (sample_positions src (List.length population) (Z.to_nat k)) ;;
       ret (pick population positions).

End Random.

Definition member_levels : list string := ["Bronze"; "Silver"; "Gold"; "Platinum"].
Definition genders : list string := ["Male"; "Female"; "Unknown"].
Definition countries : list string := ["Taiwan"; "Japan"; "Korea"; "USA"].
Definition channels : list string := ["App"; "Website"; "Email"; "Social Media"].
Definition payment_methods : list string := ["CreditCard"; "PayPal"; "ATM"; "LinePay"].

(** [category_structure]: category, its subcategories, its brands.  A
    name outside ASCII is kept as the bytes of the source file. *)
Definition category_structure : list (string * (list string * list string)) :=
  [ ("Electronics",
     (["Laptop"; "Smartphone"; "Headphones"; "Tablet"],
      ["Apple"; "Samsung"; "Sony"; "ASUS"; "Logitech"]));
    ("Apparel",
     (["T-Shirt"; "Jeans"; "Sneakers"; "Jacket"],
      ["Nike"; "Adidas"; "Uniqlo"; "Levi's"; "North Face"]));
    ("Home & Kitchen",
     (["Sofa"; "Dining Table"; "Cookware Set"; "Lamp"],
      ["IKEA"; "Philips"; "Tefal"; "Panasonic"]));
    ("Sports & Outdoors",
     (["Backpack"; "Running Shoes"; "Yoga Mat"; "Bicycle"],
      ["Nike"; "Adidas"; "Decathlon"; "Giant"]));
    ("Beauty & Personal Care",
     (["Shampoo"; "Face Wash"; "Lipstick"; "Perfume"],
      ["L'OrÃ©al"; "Dove"; "Nivea"; "Maybelline"])) ].

Section Generators.

Context {World : Type} (src : source World).

(** The body of the loop of [generate_members]. *)
Definition new_member (i : Z) (members : list Member.t) : M World Member.t :=
  let referrers :=
    map Member.member_id
      (filter (fun m => negb (Member.member_id m =? i)%Z) members) in
  referrer <- match referrers with
              | [] => ret None
              | _ :: _ =>
                  hit <- draw (random_below src "0.3") ;;
                  if hit : bool
                  then r <- choice src referrers ;; ret (Some r)
                  else ret None
              end ;;
  name <- draw (fake_name src) ;;
  mail <- attempt (fake_unique_email src) ;;
  joined <- draw (date_time_between src "-3y" "now") ;;
  level <- choice src member_levels ;;
  sex <- choice src genders ;;
  year <- randint src 1960 2007 ;;
  land <- choice src countries ;;
  active <- draw (weighted_bool src) ;;
  ret {| Member.member_id := i;
         Member.member_name := name;
         Member.email := mail;
         Member.join_date := joined;
         Member.member_level := level;
         Member.referrer_id := referrer;
         Member.gender := sex;
         Member.birth_year := year;
         Member.country := land;
         Member.is_active := active |}.

Fixpoint members_loop (indices : list Z) (members : list Member.t)
    : M World (list Member.t) :=
  match indices with
  | [] => ret members
  | i :: rest =>
      member <- new_member i members ;;
      members_loop rest (members ++ [member])
  end.

Definition generate_members (num_members : Z) : M World (list Member.t) :=
  members <- members_loop (range_from 1 (Z.to_nat num_members)) [] ;;
  call (AddAll (map (fun m => RMember (Member.member_id m)) members)) ;;;
  ret members.

(** The body of the loop of [generate_items]. *)
Definition new_item (i : Z) : M World Item.t :=
  category <- choice src (map fst category_structure) ;;
  entry <- match Schema.lookup category category_structure with
           | Some e => ret e
           | None => raise (KeyError category)
           end ;;
  subcategory <- choice src (fst entry) ;;
  brand <- choice src (snd entry) ;;
  word1 <- draw (fake_word src) ;;
  word2 <- draw (fake_word src) ;;
  price <- draw (uniform src 10 2000) ;;
  stock <- randint src 0 500 ;;
  rating <- draw (uniform src 1 5) ;;
  active <- choice src [true; true; false] ;;
  created <- draw (date_time_between src "-3y" "now") ;;
  ret {| Item.item_id := i;
         Item.item_name := capitalize src word1 ++ " " ++ capitalize src word2;
         Item.category := category;
         Item.subcategory := subcategory;
         Item.brand := brand;
         Item.price := FRound (FDrawn price) 2;
         Item.stock_quantity := stock;
         Item.rating := FRound (FDrawn rating) 1;
         Item.is_active := active;
         Item.created_at := created |}.

Fixpoint items_loop (indices : list Z) (items : list Item.t)
    : M World (list Item.t) :=
  match indices with
  | [] => ret items
  | i :: rest =>
      item <- new_item i ;;
      items_loop rest (items ++ [item])
  end.

Definition generate_items (num_items : Z) : M World (list Item.t) :=
  items <- items_loop (range_from 1 (Z.to_nat num_items)) [] ;;
  call (AddAll (map (fun x => RItem (Item.item_id x)) items)) ;;;
  ret items.

(** The body of the loop of [generate_campaigns]. *)
Definition new_campaign (i : Z) : M World Campaign.t :=
  start <- draw (date_time_between src "-3y" "now") ;;
  days <- randint src 7 30 ;;
  word <- draw (fake_word src) ;;
  discount <- draw (uniform src 5 30) ;;
  channel <- choice src channels ;;
  sentence <- draw (fake_sentence src) ;;
  ret {| Campaign.campaign_id := i;
         Campaign.campaign_name := capitalize src word ++ " Sale";
         Campaign.start_date := start;
         Campaign.end_date := add_days start days;
         Campaign.discount_rate := FRound (FDrawn discount) 2;
         Campaign.channel := channel;
         Campaign.description := sentence |}.

Fixpoint campaigns_loop (indices : list Z) (campaigns : list Campaign.t)
    : M World (list Campaign.t) :=
  match indices with
  | [] => ret campaigns
  | i :: rest =>
      campaign <- new_campaign i ;;
      campaigns_loop rest (campaigns ++ [campaign])
  end.

Definition generate_campaigns (num_campaigns : Z) : M World (list Campaign.t) :=
  campaigns <- campaigns_loop (range_from 1 (Z.to_nat num_campaigns)) [] ;;
  call (AddAll (map (fun c => RCampaign (Campaign.campaign_id c)) campaigns)) ;;;
  ret campaigns.

(** The inner loop of [generate_transactions] over the selected items:
    the running total and the transaction items appended so far. *)
Fixpoint lines_loop (transaction_id : Z) (selected_items : list Item.t)
    (total_price : float) (transaction_items : list TransactionItem.t)
    : M World (float * list TransactionItem.t) :=
  match selected_items with
  | [] => ret (total_price, transaction_items)
  | item :: rest =>
      quantity <- randint src 1 5 ;;
      let unit_price := Item.price item in
      lines_loop transaction_id rest
        (FAdd total_price (FMul unit_price (FOfInt quantity)))
        (transaction_items
         ++ [{| TransactionItem.transaction_id := transaction_id;
                TransactionItem.item_id := Item.item_id item;
                TransactionItem.quantity := quantity;
                TransactionItem.unit_price := unit_price |}])
  end.

(** The body of the outer loop of [generate_transactions]. *)
Definition new_transaction (i : Z) (members : list Member.t)
    (items : list Item.t) (campaigns : list Campaign.t)
    (transaction_items : list TransactionItem.t)
    : M World (Transaction.t * list TransactionItem.t) :=
  member <- choice src members ;;
  hit <- draw (random_below src "0.3") ;;
  campaign <- (if hit : bool
               then c <- choice src campaigns ;; ret (Some c)
               else ret None) ;;
  let discount := match campaign with
                  | Some c => Campaign.discount_rate c
                  | None => FLiteral "0.0"
                  end in
  method <- choice src payment_methods ;;
  time <- draw (date_time_between src "-1y" "now") ;;
  call (Add (RTransaction i)) ;;;
  writing Flush (session_flush src) ;;;
  k <- randint src 1 3 ;;
  selected_items <- sample src items k ;;
  lines <- lines_loop i selected_items (FLiteral "0.0") transaction_items ;;
  ret ({| Transaction.transaction_id := i;
          Transaction.member_id := Member.member_id member;
          Transaction.campaign_id := option_map Campaign.campaign_id campaign;
          Transaction.discount_rate := discount;
          Transaction.final_price :=
            FRound (FDiv (FMul (fst lines) (FSub (FOfInt 100) discount))
                      (FOfInt 100)) 2;
          Transaction.payment_method := method;
          Transaction.transaction_time := time |},
       snd lines).

Fixpoint transactions_loop (indices : list Z) (members : list Member.t)
    (items : list Item.t) (campaigns : list Campaign.t)
    (transactions : list Transaction.t)
    (transaction_items : list TransactionItem.t)
    : M World (list Transaction.t * list TransactionItem.t) :=
  match indices with
  | [] => ret (transactions, transaction_items)
  | i :: rest =>
      step <- new_transaction i members items campaigns transaction_items ;;
      transactions_loop rest members items campaigns
        (transactions ++ [fst step]) (snd step)
  end.

Definition item_ref (x : TransactionItem.t) : ref :=
  RTransactionItem (TransactionItem.transaction_id x) (TransactionItem.item_id x).

(** It returns the pair [transactions, transaction_items]. *)
Definition generate_transactions (members : list Member.t) (items : list Item.t)
    (campaigns : list Campaign.t) (num_transactions : Z)
    : M World (list Transaction.t * list TransactionItem.t) :=
  result <- transactions_loop (range_from 1 (Z.to_nat num_transactions))
              members items campaigns [] [] ;;
  call (AddAll (map item_ref (snd result))) ;;;
  ret result.

(** Everything [create_sql_engine] generates. *)
Record dataset : Type := mk_dataset {
  members : list Member.t;
  items : list Item.t;
  campaigns : list Campaign.t;
  transactions : list Transaction.t;
  transaction_items : list TransactionItem.t
}.

Definition all_refs (d : dataset) : list ref :=
  (map (fun m => RMember (Member.member_id m)) (members d)
   ++ map (fun x => RItem (Item.item_id x)) (items d)
   ++ map (fun c => RCampaign (Campaign.campaign_id c)) (campaigns d)
   ++ map (fun t => RTransaction (Transaction.transaction_id t)) (transactions d)
   ++ map item_ref (transaction_items d))%list.

(** [create_sql_engine] after the engine and the session are made: the
    four generators with their default sizes, then [session.add_all] of
    everything and [session.commit].  The engine and the session it
    returns are SQLAlchemy objects; the result here is what the session
    was handed. *)
Definition create_sql_engine : M World dataset :=
  members <- generate_members 100 ;;
  items <- generate_items 30 ;;
  campaigns <- generate_campaigns 5 ;;
  result <- generate_transactions members items campaigns 150 ;;
  let d := {| members := members; items := items; campaigns := campaigns;
              transactions := fst result; transaction_items := snd result |} in
  call (AddAll (all_refs d)) ;;;
  writing Commit (session_commit src) ;;;
  ret d.

End Generators.

(** A source for concrete runs: the world is a counter that every draw
    advances; a sample takes the first positions; every address is new
    and the database accepts what it is given. *)
Definition counting : source nat :=
  {| randbelow := fun _ w => (w, S w);
     random_below := fun _ w => (Nat.even w, S w);
     uniform := fun a _ w => ((a + Z.of_nat w)%Z, S w);
     weighted_bool := fun w => (negb (Nat.eqb (w mod 5) 0), S w);
     sample_positions := fun _ k w => (seq 0 k, S w);
     fake_name := fun w => ("name", S w);
     fake_unique_email := fun w => (inl ("mail" ++ str_of_int (Z.of_nat w)), S w);
     fake_word := fun w => ("word", S w);
     fake_sentence := fun w => ("A sentence.", S w);
     date_time_between := fun _ _ w => (Z.of_nat w, S w);
     session_flush := fun _ w => (None, w);
     session_commit := fun _ w => (None, w);
     capitalize := fun s => s |}.

End Database.


(** ** The tables declared in [src/database.py] *)

Module Models.

(** The SQLAlchemy column types the declarations use. *)
Inductive column_type : Type :=
| TInteger
| TString
| TFloat
| TDateTime
| TBoolean.

(** The name of the type in the source. *)
Definition type_name (t : column_type) : string :=
  match t with
  | TInteger => "Integer"
  | TString => "String"
  | TFloat => "Float"
  | TDateTime => "DateTime"
  | TBoolean => "Boolean"
  end.

(** A [Column(...)] of a model class: its attribute name, its type, and
    what the declaration passes: [primary_key=True], a [ForeignKey] with
    its target, [nullable=True]. *)
Record Column : Type := mk_Column {
  name : string;
  type_ : column_type;
  primary_key : bool;
  foreign_key : option string;
  nullable : bool
}.

Definition plain (name : string) (t : column_type) : Column :=
  {| name := name; type_ := t; primary_key := false;
     foreign_key := None; nullable := false |}.

Definition key (name : string) (t : column_type) : Column :=
  {| name := name; type_ := t; primary_key := true;
     foreign_key := None; nullable := false |}.

(** A model class: its [__tablename__] and its columns in declaration
    order.  The [relationship] attributes are not columns. *)
Record Model : Type := mk_Model {
  tablename : string;
  model_columns : list Column
}.

Definition Member : Model :=
  {| tablename := "members";
     model_columns :=
       [ key "member_id" TInteger;
         plain "member_name" TString;
         plain "email" TString;
         plain "join_date" TDateTime;
         plain "member_level" TString;
         {| name := "referrer_id"; type_ := TInteger; primary_key := false;
            foreign_key := Some "members.member_id"; nullable := true |};
         plain "gender" TString;
         plain "birth_year" TInteger;
         plain "country" TString;
         plain "is_active" TBoolean ] |}.

Definition Item : Model :=
  {| tablename := "items";
     model_columns :=
       [ key "item_id" TInteger;
         plain "item_name" TString;
         plain "category" TString;
         plain "subcategory" TString;
         plain "brand" TString;
         plain "price" TFloat;
         plain "stock_quantity" TInteger;
         plain "rating" TFloat;
         plain "is_active" TBoolean;
         plain "created_at" TDateTime ] |}.

Definition Campaign : Model :=
  {| tablename := "campaigns";
     model_columns :=
       [ key "campaign_id" TInteger;
         plain "campaign_name" TString;
         plain "start_date" TDateTime;
         plain "end_date" TDateTime;
         plain "discount_rate" TFloat;
         plain "channel" TString;
         plain "description" TString ] |}.

Definition Transaction : Model :=
  {| tablename := "transactions";
     model_columns :=
       [ key "transaction_id" TInteger;
         {| name := "member_id"; type_ := TInteger; primary_key := false;
            foreign_key := Some "members.member_id"; nullable := false |};
         {| name := "campaign_id"; type_ := TInteger; primary_key := false;
            foreign_key := Some "campaigns.campaign_id"; nullable := true |};
         plain "discount_rate" TFloat;
         plain "final_price" TFloat;
         plain "payment_method" TString;
         plain "transaction_time" TDateTime ] |}.

Definition TransactionItem : Model :=
  {| tablename := "transaction_items";
     model_columns :=
       [ {| name := "transaction_id"; type_ := TInteger; primary_key := true;
            foreign_key := Some "transactions.transaction_id";
            nullable := false |};
         {| name := "item_id"; type_ := TInteger; primary_key := true;
            foreign_key := Some "items.item_id"; nullable := false |};
         plain "quantity" TInteger;
         plain "unit_price" TFloat ] |}.

(** The model classes, in declaration order. *)
Definition models : list Model :=
  [Member; Item; Campaign; Transaction; TransactionItem].

(** [include_tables] of the [SQLDatabase] that [agent.py] builds on the
    engine of [create_sql_engine]. *)
Definition include_tables : list string :=
  ["members"; "items"; "campaigns"; "transactions"; "transaction_items"].

(** [table.column], as a [ForeignKey] names its target. *)
Definition qualified (m : Model) (c : Column) : string :=
  tablename m ++ "." ++ name c.

(** The target of a foreign key is a primary key column of a model. *)
Definition resolves (target : string) : bool :=
  existsb (fun m =>
             existsb (fun c => primary_key c && String.eqb target (qualified m c))
               (model_columns m))
    models.

(** What a catalog entry says of a column: its name and its type, with
    the mark of a nullable column. *)
Definition documented (c : Column) : string * string :=
  (name c,
   type_name (type_ c) ++ (if nullable c then " (nullable)" else "")).

End Models.


(** ** Vocabulary for the generators of [src/database.py] *)

Module DatabaseSpec.
Import SqlLoop Database.

(** The outcome of a computation from a state: what holds of the value
    and the state when it returns, and of the exception and the state
    when it raises. *)
Definition run {World A : Type} (c : M World A) (st : state World)
    (Q : A -> state World -> Prop) (E : exn -> state World -> Prop) : Prop :=
  match c st with
  | (inl a, st') => Q a st'
  | (inr e, st') => E e st'
  end.

Definition never {World : Type} : exn -> state World -> Prop := fun _ _ => False.

Definition whatever {World : Type} : exn -> state World -> Prop := fun _ _ => True.

(** The exception is one that [fake.unique.email()] raises, that
    [session.flush()] raises, that [session.commit()] raises. *)
Definition email_raises {World : Type} (src : source World) (e : exn) : Prop :=
  exists w, fst (fake_unique_email src w) = inr e.

Definition flush_raises {World : Type} (src : source World) (e : exn) : Prop :=
  exists calls w, fst (session_flush src calls w) = Some e.

Definition commit_raises {World : Type} (src : source World) (e : exn) : Prop :=
  exists calls w, fst (session_commit src calls w) = Some e.

(** A member as [generate_members] makes it: a referrer, if any, is an
    earlier member. *)
Definition member_ok (m : Member.t) : Prop :=
  (forall r, Member.referrer_id m = Some r -> (1 <= r < Member.member_id m)%Z)
  /\ In (Member.member_level m) member_levels
  /\ In (Member.gender m) genders
  /\ (1960 <= Member.birth_year m <= 2007)%Z
  /\ In (Member.country m) countries.

(** An item as [generate_items] makes it: subcategory and brand are
    those of its category. *)
Definition item_ok (x : Item.t) : Prop :=
  (exists subcategories brands,
     In (Item.category x, (subcategories, brands)) category_structure
     /\ In (Item.subcategory x) subcategories
     /\ In (Item.brand x) brands)
  /\ (0 <= Item.stock_quantity x <= 500)%Z.

(** A campaign as [generate_campaigns] makes it. *)
Definition campaign_ok (c : Campaign.t) : Prop :=
  (exists days, (7 <= days <= 30)%Z
                /\ Campaign.end_date c = add_days (Campaign.start_date c) days)
  /\ In (Campaign.channel c) channels.

(** A transaction as [generate_transactions] makes it from the members
    and campaigns it is given. *)
Definition transaction_ok (members : list Member.t) (campaigns : list Campaign.t)
    (t : Transaction.t) : Prop :=
  (exists m, In m members /\ Transaction.member_id t = Member.member_id m)
  /\ ((Transaction.campaign_id t = None
       /\ Transaction.discount_rate t = FLiteral "0.0")
      \/ (exists c, In c campaigns
                    /\ Transaction.campaign_id t = Some (Campaign.campaign_id c)
                    /\ Transaction.discount_rate t = Campaign.discount_rate c))
  /\ In (Transaction.payment_method t) payment_methods.

(** A transaction item of transaction [i], made from the items given. *)
Definition line_ok (items : list Item.t) (i : Z) (x : TransactionItem.t) : Prop :=
  TransactionItem.transaction_id x = i
  /\ (1 <= TransactionItem.quantity x <= 5)%Z
  /\ exists item, In item items
                  /\ TransactionItem.item_id x = Item.item_id item
                  /\ TransactionItem.unit_price x = Item.price item.

(** The transaction items of one transaction. *)
Definition lines_of (i : Z) (transaction_items : list TransactionItem.t)
    : list TransactionItem.t :=
  filter (fun x => (TransactionItem.transaction_id x =? i)%Z) transaction_items.

(** The composite primary key of a transaction item. *)
Definition line_key (x : TransactionItem.t) : Z * Z :=
  (TransactionItem.transaction_id x, TransactionItem.item_id x).

(** The session calls of the loop of [generate_transactions]. *)
Definition add_and_flush (i : Z) : list session_call :=
  [Add (RTransaction i); Flush].

Definition start {World : Type} (w : World) : state World :=
  {| world := w; session := [] |}.

(** What [random.random() < 0.3] gives for the first transaction: the
    draw that follows the choice of its member. *)
Definition first_campaign_draw {World : Type} (src : source World)
    (members : list Member.t) (w : World) : bool :=
  fst (random_below src "0.3" (snd (randbelow src (List.length members) w))).

(** The generated data is consistent: members, items and campaigns are
    as their generators make them; a transaction names a member and, if
    any, a campaign of the data; a transaction item names a transaction
    and an item of the data; no two transaction items share a key. *)
Definition dataset_consistent (d : dataset) : Prop :=
  Forall member_ok (members d)
  /\ Forall item_ok (items d)
  /\ Forall campaign_ok (campaigns d)
  /\ Forall (transaction_ok (members d) (campaigns d)) (transactions d)
  /\ Forall (fun x =>
               In (TransactionItem.transaction_id x)
                 (map Transaction.transaction_id (transactions d))
               /\ line_ok (items d) (TransactionItem.transaction_id x) x)
       (transaction_items d)
  /\ NoDup (map line_key (transaction_items d)).

Definition one_member : Member.t :=
  {| Member.member_id := 1%Z;
     Member.member_name := "Ada";
     Member.email := "ada@example.org";
     Member.join_date := 0%Z;
     Member.member_level := "Gold";
     Member.referrer_id := None;
     Member.gender := "Unknown";
     Member.birth_year := 1990%Z;
     Member.country := "Taiwan";
     Member.is_active := true |}.

Definition priced_item (i : Z) (price : string) : Item.t :=
  {| Item.item_id := i;
     Item.item_name := "Blue Lamp";
     Item.category := "Home & Kitchen";
     Item.subcategory := "Lamp";
     Item.brand := "IKEA";
     Item.price := FLiteral price;
     Item.stock_quantity := 10%Z;
     Item.rating := FLiteral "4.5";
     Item.is_active := true;
     Item.created_at := 0%Z |}.

Definition three_items : list Item.t :=
  [priced_item 1%Z "10.0"; priced_item 2%Z "20.5"; priced_item 3%Z "99.99"].

Definition one_campaign : Campaign.t :=
  {| Campaign.campaign_id := 1%Z;
     Campaign.campaign_name := "Spring Sale";
     Campaign.start_date := 0%Z;
     Campaign.end_date := add_days 0%Z 7%Z;
     Campaign.discount_rate := FLiteral "12.5";
     Campaign.channel := "App";
     Campaign.description := "A sentence." |}.

End DatabaseSpec.


(** ** Vocabulary and concrete inputs of the statements *)

Import PyStr Extract ExtractSpec SqlLoop Schema Retriever Tools Agent.

(** The loop index of the attempt that made a call. *)
Definition event_index (ev : event) : Z :=
  match ev with
  | EvGenerate i _ _ => i
  | EvExecute i _ _ => i
  end.

(** A call as the collaborator that serves it sees it: what it is given
    and what it answers. *)
Inductive call : Type :=
| Generate (ci : chain_input) (r : reply)
| Execute (sql_code : string) (r : reply).

Definition received (ev : event) : call :=
  match ev with
  | EvGenerate _ ci r => Generate ci r
  | EvExecute _ sql_code r => Execute sql_code r
  end.

(** Collaborators that keep, beside their own world, the list of the
    calls they have served, in order.  An entry is written by the
    collaborator that serves the call, with the argument it is given:
    the list shows what [safe_sql_query] really asked of the model chain
    and of the database. *)
Definition recording {World : Type} (env : collaborators World)
    : collaborators (World * list call) :=
  {| get_table_info := fun s =>
       let (info, w) := get_table_info env (fst s) in (info, (w, snd s));
     db_dialect := fun s => db_dialect env (fst s);
     chain_invoke := fun ci s =>
       let (r, w) := chain_invoke env ci (fst s) in
       (r, (w, (snd s ++ [Generate ci r])%list));
     db_run := fun sql_code s =>
       let (r, w) := db_run env sql_code (fst s) in
       (r, (w, (snd s ++ [Execute sql_code r])%list)) |}.

Definition is_generation (c : call) : bool :=
  match c with Generate _ _ => true | _ => false end.

Definition is_execution (c : call) : bool :=
  match c with Execute _ _ => true | _ => false end.

(** The calls the model chain served, and the calls the database served. *)
Definition generations (log : list call) : nat :=
  List.length (filter is_generation log).

Definition executions (log : list call) : nat :=
  List.length (filter is_execution log).

(** The model chain answered, or the database raised. *)
Definition failed_at_execution (c : call) : bool :=
  match c with
  | Generate _ (inl _) => true
  | Execute _ (inr _) => true
  | _ => false
  end.

(** [str(e)] of the last error the database raised. *)
Fixpoint last_raised (log : list call) : option string :=
  match log with
  | [] => None
  | c :: log' =>
      match last_raised log' with
      | Some m => Some m
      | None =>
          match c with
          | Execute _ (inr (Exn m)) => Some m
          | _ => None
          end
      end
  end.

(** Scripts for the scripted world: three failing attempts, a first
    attempt that succeeds, a single failing attempt. *)
Definition three_failures : script :=
  {| llm_replies := [inl "SELECT nam FROM members";
                     inl "SELECT name FROM member";
                     inl "SELECT member_nam FROM members"];
     db_replies := [inr (Exn "no such column: nam");
                    inr (Exn "no such table: member");
                    inr (Exn "no such column: member_nam")] |}.

Definition one_success : script :=
  {| llm_replies := [inl ("SQLQuery: SELECT COUNT(member_id) FROM members" ++ nl
                          ++ "SQLResult: ")];
     db_replies := [inl "[(100,)]"] |}.

Definition one_failure : script :=
  {| llm_replies := [inl "SELECT COUNT(member_id) FROM member"];
     db_replies := [inr (Exn "no such table: member")] |}.

(** Model outputs: a fenced statement between the two markers, and both
    markers on one line. *)
Definition fenced_answer : string :=
  "Here. SQLQuery: ```sql" ++ nl ++ "SELECT 1;" ++ nl ++ "```" ++ nl
  ++ "SQLResult: 5" ++ nl ++ "Answer: x".

Definition same_line_answer : string := "SQLQuery: SELECT 1 SQLResult: 5".

(** The rows a table gives to the frame: its table-level row, then one row
    per field. *)
Definition table_row (table : string) : list cell :=
  [Some table; Some "__table__"; lookup table table_definitions; Some "TABLE"].

Definition field_row (table : string) (f : field) : list cell :=
  [Some table; Some (field_name f); Some (field_definition f);
   Some (field_type f)].

Definition table_block (entry : string * list field) : list (list cell) :=
  let (table, fields) := entry in
  table_row table :: map (field_row table) fields.

(** The table-level rows of [table] in a list of rows. *)
Definition table_level_rows (table : string) (rs : list (list cell))
    : list (list cell) :=
  filter (fun row => Retriever.cell_is table (nth 0 row None)
                     && Retriever.cell_is "__table__" (nth 1 row None)) rs.

(** The second component of every field tuple. *)
Definition chinese_names : list string :=
  flat_map (fun entry : string * list field => map field_name_zh (snd entry))
    column_definitions.

(** The per-table document of a frame with labels [labels]. *)
Definition table_document_of (labels : list string) (table : string) : Document :=
  {| page_content := table ++ ": " ++ join ", " labels;
     metadata := [("table_name", Some table)] |}.

(** The comma-joined labels of the catalog frame. *)
Definition catalog_labels : string :=
  "table_name, column_name, definition, data_type".

(** [init_retriever(create_schema())] *)
Definition catalog_retriever : option retriever :=
  match create_schema with
  | Some df => init_retriever df
  | None => None
  end.

(** A script whose first two attempts fail and whose third succeeds, and
    one whose second generation call raises. *)
Definition two_failures_then_success : script :=
  {| llm_replies := [inl "SELECT nam FROM members";
                     inl "SELECT name FROM member";
                     inl "SELECT member_name FROM members"];
     db_replies := [inr (Exn "no such column: nam");
                    inr (Exn "no such table: member");
                    inl "[('Ann',), ('Bob',)]"] |}.

Definition model_down_on_retry : script :=
  {| llm_replies := [inl "SELECT nam FROM members";
                     inr (Exn "503 model overloaded")];
     db_replies := [inr (Exn "no such column: nam")] |}.


(** The three ways a run that enters the loop comes to its end, behind a
    prefix of attempts that all failed at execution. *)
Inductive chain_end (max_retries : Z) (k : Z) (ck : chain_input)
  : outcome -> list event -> Prop :=
| end_raised e :
    chain_end max_retries k ck (Raised e) [EvGenerate k ck (inr e)]
| end_success text result :
    chain_end max_retries k ck
      (Returned ReturnSuccess (success_message result))
      [EvGenerate k ck (inl text); EvExecute k (extract_sql text) (inl result)]
| end_final_failure text e :
    k = (max_retries - 1)%Z ->
    chain_end max_retries k ck
      (Returned ReturnFinalFailure (failure_message max_retries e))
      [EvGenerate k ck (inl text);
       EvExecute k (extract_sql text) (inr (Exn e))].

(** [c in s] for one character. *)
Fixpoint has_char (c : ascii) (s : string) : bool :=
  match s with
  | EmptyString => false
  | String d s' => Ascii.eqb c d || has_char c s'
  end.


(** No character of [s] is a backtick. *)
Fixpoint no_backtick (s : string) : bool :=
  match s with
  | EmptyString => true
  | String c s' => negb (Ascii.eqb backtick c) && no_backtick s'
  end.

(** The answer formats of the prompt: the statement in a [sql] fence, and
    a body between the two markers. *)
Definition fenced (statement : string) : string :=
  "```sql" ++ nl ++ statement ++ nl ++ "```".

Definition marked (pre blanks body post : string) : string :=
  pre ++ "SQLQuery:" ++ blanks ++ body ++ nl ++ "SQLResult:" ++ post.


(** Strictly ascending in the order of [str]: character by character, by
    code point. *)
Definition ascending (l : list string) : Prop :=
  StronglySorted (fun a b => String.ltb a b = true) l.

(** The labels of a frame built from the records of [create_schema]. *)
Definition catalog_columns : list string :=
  ["table_name"; "column_name"; "definition"; "data_type"].

(** The page content of the document of one row. *)
Definition row_content (t c ty d : cell) : string :=
  format_cell t ++ "." ++ format_cell c ++ ": "
  ++ "[" ++ format_cell ty ++ "] " ++ format_cell d.


(** A frame with rows of two tables, given out of order. *)
Definition two_table_frame : DataFrame :=
  {| columns := catalog_columns;
     rows := [[Some "items"; Some "price";
               Some "Original price of the item"; Some "Float"];
              [Some "campaigns"; Some "channel";
               Some "Promotion channel"; Some "String"];
              [Some "items"; Some "brand";
               Some "Brand of the item"; Some "String"]] |}.

(** A record with exactly the four keys of [create_schema], in its order. *)
Definition catalog_record (r : record) : Prop :=
  exists a b c d,
    r = [("table_name", a); ("column_name", b);
         ("definition", c); ("data_type", d)].

(** A one-table catalog. *)
Definition tiny_column_definitions : list (string * list field) :=
  [("members", [("member_id", "id", "Unique identifier", "Integer")])].

Definition tiny_table_definitions : list (string * string) :=
  [("members", "Registered members.")].


(** A catalog frame built record by record. *)
Definition tiny_records : list record :=
  [table_record "members" "Registered members.";
   field_record "members" ("member_id", "id", "Unique identifier", "Integer")].


(** * Theorems *)

(** ** Strings *)

Lemma append_nil_r (s : string) : s ++ "" = s.
Proof. induction s as [|c s IH]; simpl; [reflexivity | now rewrite IH]. Qed.

Lemma append_assoc (a b c : string) : (a ++ b) ++ c = a ++ (b ++ c).
Proof. induction a as [|x a IH]; simpl; [reflexivity | now rewrite IH]. Qed.

Lemma startswith_iff (p s : string) :
  startswith p s = true <-> exists b, s = p ++ b.
Proof.
  revert s; induction p as [|a p IH]; intros s; simpl.
  - split; [intros _; now exists s | reflexivity].
  - destruct s as [|b s].
    + split; [discriminate | intros [r H]; discriminate].
    + rewrite andb_true_iff, IH. split.
      * intros [E [r ->]]. apply Ascii.eqb_eq in E. subst. now exists r.
      * intros [r H]. injection H as -> ->. split; [apply Ascii.eqb_refl | now exists r].
Qed.

Lemma infixb_iff (x s : string) : infixb x s = true <-> Contains x s.
Proof.
  unfold Contains. induction s as [|c s IH]; simpl.
  - rewrite orb_false_r, startswith_iff. split.
    + intros [b H]. now exists "", b.
    + intros [a [b H]]. destruct a; [now exists b | discriminate].
  - rewrite orb_true_iff, IH, startswith_iff. split.
    + intros [[b H] | [a [b H]]].
      * now exists "", b.
      * exists (String c a), b. simpl. now rewrite H.
    + intros [a [b H]]. destruct a as [|c' a].
      * left. now exists b.
      * right. simpl in H. injection H as _ H. now exists a, b.
Qed.

Lemma Contains_middle (a x b : string) : Contains x (a ++ x ++ b).
Proof. now exists a, b. Qed.

Lemma not_Contains (x s : string) : infixb x s = false -> ~ Contains x s.
Proof. intros H C. apply infixb_iff in C. congruence. Qed.

(** ** The retry loop *)

Lemma range_nonpositive (n : Z) : (n <= 0)%Z -> range n = [].
Proof. intros H. unfold range. now replace (Z.to_nat n) with O by lia. Qed.

Lemma range_positive (n : Z) :
  (1 <= n)%Z -> exists len, range n = range_from 0 (S len) /\ (0 + Z.of_nat (S len) = n)%Z.
Proof.
  intros H. unfold range. exists (Nat.pred (Z.to_nat n)).
  replace (S (Nat.pred (Z.to_nat n))) with (Z.to_nat n) by lia.
  split; [reflexivity | lia].
Qed.

Section LoopFacts.

Context {World : Type} (env : collaborators World).
Variables (question : string) (max_retries : Z).

(** Every run of the loop over [i, i+1, ..., max_retries - 1] has the shape
    of an [attempt_chain]. *)
Lemma attempts_chain :
  forall len i ci w o w' tr,
    (i + Z.of_nat (S len) = max_retries)%Z ->
    attempts env question max_retries (range_from i (S len)) ci w = (o, w', tr) ->
    attempt_chain question max_retries i ci o tr.
Proof.
  induction len as [|len IH]; intros i ci w o w' tr Hlen Hrun;
    match type of Hrun with
    | context [range_from i (S ?l)] =>
        change (range_from i (S l)) with (i :: range_from (i + 1) l) in Hrun;
        remember (range_from (i + 1) l) as rest eqn:Hrest
    end;
    cbn [attempts] in Hrun;
    destruct (chain_invoke env ci w) as [[text|e] w1];
    try (injection Hrun as <- <- <-; constructor);
    destruct (db_run env (extract_sql text) w1) as [[result|[msg]] w2];
    try (injection Hrun as <- <- <-; constructor).
  - replace (i =? max_retries - 1)%Z with true in Hrun
      by (symmetry; apply Z.eqb_eq; lia).
    injection Hrun as <- <- <-. constructor. lia.
  - replace (i =? max_retries - 1)%Z with false in Hrun
      by (symmetry; apply Z.eqb_neq; lia).
    destruct (attempts env question max_retries rest
                (set_input ci (corrective question (extract_sql text) msg)) w2)
      as [[o3 w3] tr3] eqn:Hsub.
    injection Hrun as <- <- <-.
    apply chain_retry; [lia |].
    subst rest. eapply IH; [| exact Hsub]. lia.
Qed.

(** A call either skips the loop ([max_retries <= 0]) or runs a chain from
    attempt 0 with the question as the instruction. *)
Lemma safe_sql_query_cases :
  forall w o w' tr,
    safe_sql_query env question max_retries w = (o, w', tr) ->
    ((max_retries <= 0)%Z /\ o = Returned ReturnFallback fallback_message
     /\ tr = [] /\ w' = snd (get_table_info env w))
    \/ ((1 <= max_retries)%Z /\
        attempt_chain question max_retries 0
          {| input := question;
             table_info := fst (get_table_info env w);
             dialect := db_dialect env (snd (get_table_info env w)) |} o tr).
Proof.
  intros w o w' tr Hrun. unfold safe_sql_query in Hrun.
  destruct (get_table_info env w) as [info w1]. simpl.
  destruct (Z_le_gt_dec max_retries 0) as [Hn | Hn].
  - left. rewrite (range_nonpositive _ Hn) in Hrun. simpl in Hrun.
    injection Hrun as <- <- <-. auto.
  - right. split; [lia |].
    destruct (range_positive max_retries ltac:(lia)) as [len [Hr Hlen]].
    rewrite Hr in Hrun. eapply attempts_chain; eauto.
Qed.

End LoopFacts.

Section ChainFacts.

Variables (question : string) (max_retries : Z).

Local Abbreviation chain := (attempt_chain question max_retries).

Lemma chain_not_fallback i ci o tr :
  chain i ci o tr -> forall msg, o <> Returned ReturnFallback msg.
Proof. induction 1; intros m; try discriminate; auto. Qed.

Lemma chain_indices i ci o tr :
  chain i ci o tr -> forall ev, In ev tr -> (i <= event_index ev)%Z.
Proof.
  induction 1; intros ev Hin; simpl in Hin;
    repeat (destruct Hin as [<- | Hin]; [simpl; lia |]);
    try contradiction.
  specialize (IHattempt_chain ev Hin). lia.
Qed.

Lemma chain_nonempty i ci o tr : chain i ci o tr -> exists r, In (EvGenerate i ci r) tr.
Proof. destruct 1; eexists; simpl; eauto. Qed.

(** When every call of the chain goes as far as execution and fails there,
    the chain runs through attempt [max_retries - 1] and returns the
    failure message built from the last error. *)
Lemma chain_all_fail i ci o tr :
  chain i ci o tr ->
  (i <= max_retries - 1)%Z ->
  forallb fails_at_execution tr = true ->
  exists e,
    o = Returned ReturnFinalFailure (failure_message max_retries e)
    /\ last_error tr = Some e
    /\ Z.of_nat (generation_calls tr) = (max_retries - i)%Z
    /\ Z.of_nat (execution_calls tr) = (max_retries - i)%Z.
Proof.
  induction 1 as [i ci e | i ci text result | i ci text msg Hi
                  | i ci text msg o tr Hi Hc IH]; intros Hle Hall;
    simpl in Hall; try discriminate.
  - exists msg. subst i. repeat split; try reflexivity;
      unfold generation_calls, execution_calls; simpl; lia.
  - destruct (IH ltac:(lia) Hall) as [e [Ho [Hlast [Hg Hx]]]].
    exists e. repeat split; [exact Ho | simpl; now rewrite Hlast | |];
      unfold generation_calls, execution_calls in *;
      cbn [filter is_generate is_execute List.length];
      rewrite Nat2Z.inj_succ; lia.
Qed.

(** The failure of the final allowed attempt decides the result. *)
Lemma chain_final i ci o tr :
  chain i ci o tr ->
  forall sql_code e,
    In (EvExecute (max_retries - 1) sql_code (inr (Exn e))) tr ->
    o = Returned ReturnFinalFailure (failure_message max_retries e)
    /\ last_error tr = Some e.
Proof.
  induction 1 as [i ci e | i ci text result | i ci text msg Hi
                  | i ci text msg o tr Hi Hc IH]; intros sql_code e' Hin;
    simpl in Hin.
  - destruct Hin as [Hin | []]; discriminate.
  - destruct Hin as [Hin | [Hin | []]]; discriminate.
  - destruct Hin as [Hin | [Hin | []]]; try discriminate.
    injection Hin as _ _ <-. split; reflexivity.
  - destruct Hin as [Hin | [Hin | Hin]]; try discriminate.
    + injection Hin as Hidx _ _. congruence.
    + destruct (IH _ _ Hin) as [Ho Hlast]. split; [exact Ho |].
      simpl. now rewrite Hlast.
Qed.

(** A failed attempt that is not the final one is followed by a generation
    call for the next index, on the corrective instruction. *)
Lemma chain_corrective i ci o tr :
  chain i ci o tr ->
  forall j sql_code e,
    In (EvExecute j sql_code (inr (Exn e))) tr ->
    j <> (max_retries - 1)%Z ->
    exists ci' r,
      In (EvGenerate (j + 1) ci' r) tr
      /\ input ci' = corrective question sql_code e
      /\ table_info ci' = table_info ci
      /\ dialect ci' = dialect ci.
Proof.
  induction 1 as [i ci e | i ci text result | i ci text msg Hi
                  | i ci text msg o tr Hi Hc IH]; intros j sql_code e' Hin Hj;
    simpl in Hin.
  - destruct Hin as [Hin | []]; discriminate.
  - destruct Hin as [Hin | [Hin | []]]; discriminate.
  - destruct Hin as [Hin | [Hin | []]]; try discriminate.
    injection Hin as Hidx _ _. congruence.
  - destruct Hin as [Hin | [Hin | Hin]]; try discriminate.
    + injection Hin as <- <- <-.
      destruct (chain_nonempty _ _ _ _ Hc) as [r Hr].
      eexists _, r. split; [right; right; exact Hr |].
      simpl. auto.
    + destruct (IH _ _ _ Hin Hj) as [ci' [r [H1 [H2 [H3 H4]]]]].
      exists ci', r. split; [right; right; exact H1 |]. simpl in *. auto.
Qed.

(** One generation call per index. *)
Lemma chain_generate_unique i ci o tr :
  chain i ci o tr ->
  forall j c1 r1 c2 r2,
    In (EvGenerate j c1 r1) tr -> In (EvGenerate j c2 r2) tr ->
    c1 = c2 /\ r1 = r2.
Proof.
  induction 1 as [i ci e | i ci text result | i ci text msg Hi
                  | i ci text msg o tr Hi Hc IH]; intros j c1 r1 c2 r2 H1 H2;
    simpl in H1, H2.
  - destruct H1 as [H1 | []], H2 as [H2 | []]. split; congruence.
  - destruct H1 as [H1 | [H1 | []]], H2 as [H2 | [H2 | []]];
      try discriminate. split; congruence.
  - destruct H1 as [H1 | [H1 | []]], H2 as [H2 | [H2 | []]];
      try discriminate. split; congruence.
  - destruct H1 as [H1 | [H1 | H1]], H2 as [H2 | [H2 | H2]];
      try discriminate.
    + split; congruence.
    + injection H1 as <- _ _.
      apply (chain_indices _ _ _ _ Hc) in H2. simpl in H2. lia.
    + injection H2 as <- _ _.
      apply (chain_indices _ _ _ _ Hc) in H1. simpl in H1. lia.
    + eapply IH; eauto.
Qed.

(** The executed statement of an attempt is the one extracted from that
    attempt's generated text. *)
Lemma chain_executes_generated i ci o tr :
  chain i ci o tr ->
  forall j sql_code r,
    In (EvExecute j sql_code r) tr ->
    exists cj text,
      In (EvGenerate j cj (inl text)) tr /\ sql_code = extract_sql text.
Proof.
  induction 1 as [i ci e | i ci text result | i ci text msg Hi
                  | i ci text msg o tr Hi Hc IH]; intros j sql_code r Hin;
    simpl in Hin.
  - destruct Hin as [Hin | []]; discriminate.
  - destruct Hin as [Hin | [Hin | []]]; try discriminate.
    injection Hin as <- <- _. exists ci, text. simpl; auto.
  - destruct Hin as [Hin | [Hin | []]]; try discriminate.
    injection Hin as <- <- _. exists ci, text. simpl; auto.
  - destruct Hin as [Hin | [Hin | Hin]]; try discriminate.
    + injection Hin as <- <- _. exists ci, text. simpl; auto.
    + destruct (IH _ _ _ Hin) as [cj [t [H1 H2]]].
      exists cj, t. split; [right; right; exact H1 | exact H2].
Qed.

(** The loop never goes past [max_retries - 1]. *)
Lemma chain_bounded i ci o tr :
  chain i ci o tr ->
  (i <= max_retries - 1)%Z ->
  forall ev, In ev tr -> (event_index ev <= max_retries - 1)%Z.
Proof.
  induction 1 as [i ci e | i ci text result | i ci text msg Hi
                  | i ci text msg o tr Hi Hc IH]; intros Hle ev Hin;
    simpl in Hin;
    repeat (destruct Hin as [<- | Hin]; [simpl; lia |]);
    try contradiction.
  apply IH; [lia | exact Hin].
Qed.

(** The attempts are numbered upwards from [i], one by one. *)
Lemma chain_generate_indices i ci o tr :
  chain i ci o tr ->
  map event_index (filter is_generate tr) = range_from i (generation_calls tr).
Proof.
  induction 1 as [i ci e | i ci text result | i ci text msg Hi
                  | i ci text msg o tr Hi Hc IH]; try reflexivity.
  unfold generation_calls in *. cbn [filter is_generate is_execute map List.length
                                     event_index range_from].
  now rewrite IH.
Qed.

(** No more generation calls than the budget leaves, and no execution
    without a generation before it. *)
Lemma chain_call_counts i ci o tr :
  chain i ci o tr ->
  (i <= max_retries - 1)%Z ->
  (Z.of_nat (generation_calls tr) <= max_retries - i)%Z
  /\ execution_calls tr <= generation_calls tr.
Proof.
  induction 1 as [i ci e | i ci text result | i ci text msg Hi
                  | i ci text msg o tr Hi Hc IH]; intros Hle;
    unfold generation_calls, execution_calls in *;
    cbn [filter is_generate is_execute List.length];
    [split; [simpl; lia | lia] .. |].
  destruct (IH ltac:(lia)) as [H1 H2].
  split; [rewrite Nat2Z.inj_succ; lia | lia].
Qed.

End ChainFacts.

Lemma chain_outcome (question : string) (max_retries : Z) i ci o tr :
  attempt_chain question max_retries i ci o tr ->
  (exists msg, o = Returned ReturnSuccess msg)
  \/ (exists msg, o = Returned ReturnFinalFailure msg)
  \/ (exists e j cj, o = Raised e /\ In (EvGenerate j cj (inr e)) tr).
Proof.
  induction 1 as [i ci e | i ci text result | i ci text msg Hi
                  | i ci text msg o tr Hi Hc IH].
  - right; right. exists e, i, ci. simpl; auto.
  - left. eauto.
  - right; left. eauto.
  - destruct IH as [IH | [IH | [e [j [cj [Ho Hin]]]]]]; auto.
    right; right. exists e, j, cj. simpl; auto.
Qed.

Lemma Contains_corrective (question sql_code e : string) :
  Contains question (corrective question sql_code e)
  /\ Contains sql_code (corrective question sql_code e)
  /\ Contains e (corrective question sql_code e).
Proof.
  unfold corrective. repeat split.
  - apply Contains_middle.
  - eexists ("The previous attempt to answer the question '" ++ question
             ++ "' failed. The generated SQL was:" ++ nl), _.
    repeat rewrite append_assoc. reflexivity.
  - eexists ("The previous attempt to answer the question '" ++ question
             ++ "' failed. The generated SQL was:" ++ nl ++ sql_code ++ nl
             ++ "It produced the following database error:" ++ nl), _.
    repeat rewrite append_assoc. reflexivity.
Qed.

Lemma Contains_failure_message (max_retries : Z) (e : string) :
  Contains e (failure_message max_retries e)
  /\ Contains (str_of_int max_retries) (failure_message max_retries e).
Proof.
  unfold failure_message. split.
  - exists ("Failed to execute SQL after " ++ str_of_int max_retries
            ++ " attempts. Last error: "), "".
    rewrite append_nil_r. repeat rewrite append_assoc. reflexivity.
  - apply Contains_middle.
Qed.

(** *** What the collaborators are asked *)

Lemma generations_received (tr : list event) :
  generations (map received tr) = generation_calls tr.
Proof.
  unfold generations, generation_calls.
  induction tr as [| [i ci r | i q r] tr IH]; cbn [map filter received
    is_generation is_generate List.length]; [reflexivity | now rewrite IH | exact IH].
Qed.

Lemma executions_received (tr : list event) :
  executions (map received tr) = execution_calls tr.
Proof.
  unfold executions, execution_calls.
  induction tr as [| [i ci r | i q r] tr IH]; cbn [map filter received
    is_execution is_execute List.length]; [reflexivity | exact IH | now rewrite IH].
Qed.

Lemma failed_received (tr : list event) :
  forallb failed_at_execution (map received tr) = forallb fails_at_execution tr.
Proof.
  induction tr as [| [i ci [t | e] | i q [t | e]] tr IH];
    cbn [map forallb received failed_at_execution fails_at_execution];
    [reflexivity | | | | ]; now rewrite ?IH.
Qed.

Lemma last_raised_received (tr : list event) :
  last_raised (map received tr) = last_error tr.
Proof.
  induction tr as [| ev tr IH]; [reflexivity |].
  cbn [map last_raised last_error]. rewrite IH.
  destruct (last_error tr); [reflexivity |]. now destruct ev.
Qed.

Section RecordingFacts.

Context {World : Type} (env : collaborators World).

(** The calls the loop reports are the calls the collaborators served,
    one for one, with the same arguments and answers. *)
Lemma recording_attempts (question : string) (max_retries : Z) :
  forall indices ci w log0 o w' log tr,
    attempts (recording env) question max_retries indices ci (w, log0)
    = (o, (w', log), tr) ->
    log = (log0 ++ map received tr)%list.
Proof.
  induction indices as [| i rest IH]; intros ci w log0 o w' log tr Hrun;
    cbn [attempts recording chain_invoke db_run fst snd] in Hrun.
  - injection Hrun as _ _ <- <-. now rewrite app_nil_r.
  - destruct (chain_invoke env ci w) as [[text | e] w1];
      cbn [fst snd] in Hrun.
    + destruct (db_run env (extract_sql text) w1) as [[result | [msg]] w2];
        cbn [fst snd] in Hrun.
      * injection Hrun as _ _ <- <-. now rewrite <- app_assoc.
      * destruct (i =? max_retries - 1)%Z.
        -- injection Hrun as _ _ <- <-. now rewrite <- app_assoc.
        -- destruct (attempts (recording env) question max_retries rest
                       (set_input ci (corrective question (extract_sql text) msg))
                       (w2, ((log0 ++ [Generate ci (inl text)])
                             ++ [Execute (extract_sql text) (inr (Exn msg))])%list))
             as [[o3 [w3 log3]] tr3] eqn:Hrest.
           injection Hrun as _ _ <- <-.
           rewrite (IH _ _ _ _ _ _ _ Hrest), <- !app_assoc. reflexivity.
    + injection Hrun as _ _ <- <-. reflexivity.
Qed.

Lemma recording_run (question : string) (max_retries : Z) :
  forall w o w' log tr,
    safe_sql_query (recording env) question max_retries (w, [])
    = (o, (w', log), tr) ->
    log = map received tr.
Proof.
  intros w o w' log tr Hrun. unfold safe_sql_query in Hrun.
  cbn [recording get_table_info db_dialect fst snd] in Hrun.
  destruct (get_table_info env w) as [info w1].
  exact (recording_attempts _ _ _ _ _ _ _ _ _ _ Hrun).
Qed.

End RecordingFacts.

(** In a run that enters the loop at attempt [i], the calls of attempt
    [k] are the calls number [2 (k - i)] and [2 (k - i) + 1]. *)
Lemma chain_positions (question : string) (max_retries : Z) i ci o tr :
  attempt_chain question max_retries i ci o tr ->
  forall ev,
    In ev tr ->
    (i <= event_index ev)%Z
    /\ nth_error tr (Z.to_nat (2 * (event_index ev - i))
                     + (if is_execute ev then 1 else 0))
       = Some ev.
Proof.
  induction 1 as [i ci e | i ci text result | i ci text msg Hi
                  | i ci text msg o tr Hi Hc IH]; intros ev Hin;
    cbn [In] in Hin;
    repeat (destruct Hin as [<- | Hin];
            [cbn [event_index is_execute]; rewrite Z.sub_diag;
             split; [lia | reflexivity] |]);
    try contradiction.
  destruct (IH ev Hin) as [Hle Hnth]. split; [lia |].
  replace (Z.to_nat (2 * (event_index ev - i)))
    with (S (S (Z.to_nat (2 * (event_index ev - (i + 1)))))) by lia.
  exact Hnth.
Qed.

(** *** The claims about the loop *)

(** The calls a run reports: numbered attempts, bounded counts, and the
    failure message when every attempt fails at execution. *)
Lemma exhausted_retries_trace :
  forall (World : Type) (env : collaborators World)
         (question : string) (max_retries : Z) (w : World)
         (o : outcome) (w' : World) (tr : list event),
    safe_sql_query env question max_retries w = (o, w', tr) ->
    map event_index (filter is_generate tr)
    = range_from 0 (generation_calls tr)
    /\ generation_calls tr <= Z.to_nat max_retries
    /\ execution_calls tr <= generation_calls tr
    /\ (forallb fails_at_execution tr = true ->
        generation_calls tr = Z.to_nat max_retries
        /\ execution_calls tr = Z.to_nat max_retries
        /\ ((0 <= max_retries)%Z ->
            Z.of_nat (generation_calls tr) = max_retries
            /\ Z.of_nat (execution_calls tr) = max_retries)
        /\ (exists st msg,
              o = Returned st msg
              /\ forall e, last_error tr = Some e ->
                   msg = failure_message max_retries e /\ Contains e msg)
        /\ ((1 <= max_retries)%Z -> exists e, last_error tr = Some e)).
Proof.
  intros World env question max_retries w o w' tr Hrun.
  destruct (safe_sql_query_cases env _ _ _ _ _ _ Hrun)
    as [[Hle [-> [-> _]]] | [Hge Hchain]].
  - split; [reflexivity |]. split; [apply Nat.le_0_l |].
    split; [apply Nat.le_refl |]. intros _.
    replace (Z.to_nat max_retries) with 0 by lia.
    split; [reflexivity |]. split; [reflexivity |].
    split; [intros H0; split; simpl; lia |]. split.
    + exists ReturnFallback, fallback_message. split; [reflexivity |].
      intros e He. discriminate.
    + intros H; lia.
  - destruct (chain_call_counts _ _ _ _ _ _ Hchain ltac:(lia)) as [Hg Hx].
    split; [exact (chain_generate_indices _ _ _ _ _ _ Hchain) |].
    split; [lia |]. split; [exact Hx |]. intros Hall.
    destruct (chain_all_fail _ _ _ _ _ _ Hchain ltac:(lia) Hall)
      as [e [-> [Hlast [Hgen Hexe]]]].
    split; [lia |]. split; [lia |]. split; [intros _; lia |]. split.
    + exists ReturnFinalFailure, (failure_message max_retries e).
      split; [reflexivity |]. intros e' He'.
      rewrite Hlast in He'. injection He' as <-.
      split; [reflexivity | apply Contains_failure_message].
    + intros _. now exists e.
Qed.

(** C1. Over collaborators that list the calls they serve: the list is
    what the loop reports, call for call; the attempts are numbered 0, 1,
    2, ... and the model chain serves at most [max_retries] calls, the
    database no more than the model chain.  When every call the model
    chain served returned and every call the database served raised, the
    model chain served exactly [max_retries] calls and the database
    exactly [max_retries] calls (none for a budget below 1), and the call
    returns a string, it does not raise; with at least one attempt that
    string is the failure message built from the last error the database
    raised, and it contains that error text. *)
Theorem exhausted_retries_return_failure :
  forall (World : Type) (env : collaborators World)
         (question : string) (max_retries : Z) (w : World)
         (o : outcome) (w' : World) (log : list call) (tr : list event),
    safe_sql_query (recording env) question max_retries (w, [])
    = (o, (w', log), tr) ->
    log = map received tr
    /\ map event_index (filter is_generate tr) = range_from 0 (generations log)
    /\ generations log <= Z.to_nat max_retries
    /\ executions log <= generations log
    /\ (forallb failed_at_execution log = true ->
        generations log = Z.to_nat max_retries
        /\ executions log = Z.to_nat max_retries
        /\ ((0 <= max_retries)%Z ->
            Z.of_nat (generations log) = max_retries
            /\ Z.of_nat (executions log) = max_retries)
        /\ (exists st msg,
              o = Returned st msg
              /\ forall e, last_raised log = Some e ->
                   msg = failure_message max_retries e /\ Contains e msg)
        /\ ((1 <= max_retries)%Z -> exists e, last_raised log = Some e)).
Proof.
  intros World env question max_retries w o w' log tr Hrun.
  pose proof (recording_run env _ _ _ _ _ _ _ Hrun) as Hlog. subst log.
  split; [reflexivity |].
  rewrite generations_received, executions_received, failed_received,
    last_raised_received.
  exact (exhausted_retries_trace _ (recording env) _ _ _ _ _ _ Hrun).
Qed.

Lemma exhausted_retries_witness :
  let run := safe_sql_query (recording scripted) "Who joined first?" 3
               (three_failures, []) in
  let log := snd (snd (fst run)) in
  generations log = Z.to_nat 3
  /\ executions log = Z.to_nat 3
  /\ ((0 <= 3)%Z ->
      Z.of_nat (generations log) = 3%Z /\ Z.of_nat (executions log) = 3%Z)
  /\ (exists st msg,
        fst (fst run) = Returned st msg
        /\ forall e, last_raised log = Some e ->
             msg = failure_message 3 e /\ Contains e msg)
  /\ ((1 <= 3)%Z -> exists e, last_raised log = Some e).
Proof.
  intros run log.
  apply (proj2 (proj2 (proj2 (proj2
           (exhausted_retries_return_failure script scripted
              "Who joined first?" 3 three_failures
              (fst (fst run)) (fst (snd (fst run))) log (snd run) eq_refl))))).
  reflexivity.
Defined.

(** The three failing attempts of the script: three generation calls,
    three execution calls, and the message with the last error. *)
Example three_failures_run :
  let run := safe_sql_query scripted "Who joined first?" 3 three_failures in
  forallb fails_at_execution (snd run) = true
  /\ generation_calls (snd run) = 3
  /\ execution_calls (snd run) = 3
  /\ fst (fst run)
     = Returned ReturnFinalFailure
         "Failed to execute SQL after 3 attempts. Last error: no such column: member_nam".
Proof. repeat split. Qed.

(** C2. When the first generated statement executes successfully, the call
    returns from attempt 1 (loop index 0) with the success message, which
    contains the execution result; the trace holds exactly one generation
    call and one execution call and nothing else. *)
Theorem first_statement_success :
  forall (World : Type) (env : collaborators World)
         (question : string) (max_retries : Z) (w : World)
         (info : string) (w1 : World) (text : string) (w2 : World)
         (result : string) (w3 : World),
    (1 <= max_retries)%Z ->
    get_table_info env w = (info, w1) ->
    chain_invoke env {| input := question; table_info := info;
                        dialect := db_dialect env w1 |} w1 = (inl text, w2) ->
    db_run env (extract_sql text) w2 = (inl result, w3) ->
    exists tr,
      safe_sql_query env question max_retries w
      = (Returned ReturnSuccess (success_message result), w3, tr)
      /\ tr = [EvGenerate 0 {| input := question; table_info := info;
                               dialect := db_dialect env w1 |} (inl text);
               EvExecute 0 (extract_sql text) (inl result)]
      /\ generation_calls tr = 1
      /\ execution_calls tr = 1
      /\ Contains result (success_message result).
Proof.
  intros World env question max_retries w info w1 text w2 result w3
         Hn Hinfo Hgen Hrun.
  eexists. split; [| split; [reflexivity | repeat split]].
  - unfold safe_sql_query. rewrite Hinfo.
    destruct (range_positive max_retries Hn) as [len [-> _]].
    cbn [range_from attempts]. rewrite Hgen, Hrun. reflexivity.
  - exists "Query executed successfully. Result: ", "".
    unfold success_message. now rewrite append_nil_r.
Qed.

Lemma first_statement_success_witness :
  exists tr,
    safe_sql_query scripted "How many members are there?" 3 one_success
    = (Returned ReturnSuccess (success_message "[(100,)]"),
       {| llm_replies := []; db_replies := [] |}, tr)
    /\ tr = [EvGenerate 0 {| input := "How many members are there?";
                             table_info := "CREATE TABLE members (member_id INTEGER)";
                             dialect := "sqlite" |}
               (inl ("SQLQuery: SELECT COUNT(member_id) FROM members" ++ nl
                     ++ "SQLResult: "));
             EvExecute 0 "SELECT COUNT(member_id) FROM members" (inl "[(100,)]")]
    /\ generation_calls tr = 1
    /\ execution_calls tr = 1
    /\ Contains "[(100,)]" (success_message "[(100,)]").
Proof.
  apply (first_statement_success script scripted
           "How many members are there?" 3 one_success
           "CREATE TABLE members (member_id INTEGER)" one_success
           ("SQLQuery: SELECT COUNT(member_id) FROM members" ++ nl ++ "SQLResult: ")
           {| llm_replies := []; db_replies := [inl "[(100,)]"] |}
           "[(100,)]" {| llm_replies := []; db_replies := [] |});
    [lia | reflexivity | reflexivity | reflexivity].
Defined.

(** The corrective instruction in the calls a run reports. *)
Lemma corrective_instruction_trace :
  forall (World : Type) (env : collaborators World)
         (question : string) (max_retries : Z) (w : World)
         (o : outcome) (w' : World) (tr : list event)
         (i : Z) (sql_code e : string),
    safe_sql_query env question max_retries w = (o, w', tr) ->
    In (EvExecute i sql_code (inr (Exn e))) tr ->
    i <> (max_retries - 1)%Z ->
    exists ci r,
      In (EvGenerate (i + 1) ci r) tr
      /\ (forall ci' r', In (EvGenerate (i + 1) ci' r') tr -> ci' = ci)
      /\ input ci = corrective question sql_code e
      /\ Contains question (input ci)
      /\ Contains sql_code (input ci)
      /\ Contains e (input ci)
      /\ (exists ci_i text,
            In (EvGenerate i ci_i (inl text)) tr
            /\ sql_code = extract_sql text).
Proof.
  intros World env question max_retries w o w' tr i sql_code e Hrun Hin Hi.
  destruct (safe_sql_query_cases env _ _ _ _ _ _ Hrun)
    as [[_ [_ [-> _]]] | [_ Hchain]]; [destruct Hin |].
  destruct (chain_corrective _ _ _ _ _ _ Hchain _ _ _ Hin Hi)
    as [ci [r [Hgen [Hinput _]]]].
  exists ci, r. split; [exact Hgen |]. split.
  - intros ci' r' Hgen'.
    apply (chain_generate_unique _ _ _ _ _ _ Hchain _ _ _ _ _ Hgen' Hgen).
  - rewrite Hinput.
    destruct (Contains_corrective question sql_code e) as [Hq [Hs He]].
    split; [reflexivity |]. repeat (split; [assumption |]).
    apply (chain_executes_generated _ _ _ _ _ _ Hchain _ _ _ Hin).
Qed.

(** C3. Over collaborators that list the calls they serve: when the
    database raises on the statement of attempt [i] and [i] is not the
    final allowed attempt, the next call served is a call of the model
    chain, for attempt [i + 1], and the instruction the model chain is
    given there is the corrective text, which embeds the original
    question, the statement the database was given on attempt [i] (the
    one extracted from the model's answer on that attempt) and the error
    text the database raised. *)
Theorem corrective_instruction_embeds_failure :
  forall (World : Type) (env : collaborators World)
         (question : string) (max_retries : Z) (w : World)
         (o : outcome) (w' : World) (log : list call) (tr : list event)
         (i : Z) (sql_code e : string),
    safe_sql_query (recording env) question max_retries (w, [])
    = (o, (w', log), tr) ->
    In (EvExecute i sql_code (inr (Exn e))) tr ->
    i <> (max_retries - 1)%Z ->
    log = map received tr
    /\ nth_error log (Z.to_nat (2 * i + 1))
       = Some (Execute sql_code (inr (Exn e)))
    /\ exists ci r,
         nth_error log (Z.to_nat (2 * i + 2)) = Some (Generate ci r)
         /\ In (EvGenerate (i + 1) ci r) tr
         /\ (forall ci' r', In (EvGenerate (i + 1) ci' r') tr -> ci' = ci)
         /\ input ci = corrective question sql_code e
         /\ Contains question (input ci)
         /\ Contains sql_code (input ci)
         /\ Contains e (input ci)
         /\ (exists ci_i text,
               In (EvGenerate i ci_i (inl text)) tr
               /\ nth_error log (Z.to_nat (2 * i))
                  = Some (Generate ci_i (inl text))
               /\ sql_code = extract_sql text).
Proof.
  intros World env question max_retries w o w' log tr i sql_code e Hrun Hin Hi.
  pose proof (recording_run env _ _ _ _ _ _ _ Hrun) as Hlog. subst log.
  split; [reflexivity |].
  destruct (corrective_instruction_trace _ (recording env) _ _ _ _ _ _
              _ _ _ Hrun Hin Hi)
    as (ci & r & Hgen & Huniq & Hinput & Hq & Hs & He & ci_i & text & Hgi & Hsql).
  destruct (safe_sql_query_cases (recording env) _ _ _ _ _ _ Hrun)
    as [[_ [_ [Htr _]]] | [_ Hchain]]; [rewrite Htr in Hin; destruct Hin |].
  destruct (chain_positions _ _ _ _ _ _ Hchain _ Hin) as [Hle Hx].
  destruct (chain_positions _ _ _ _ _ _ Hchain _ Hgen) as [_ Hg].
  destruct (chain_positions _ _ _ _ _ _ Hchain _ Hgi) as [_ Hg0].
  cbn [event_index is_execute] in Hle, Hx, Hg, Hg0.
  split.
  - rewrite nth_error_map.
    replace (Z.to_nat (2 * i + 1)) with (Z.to_nat (2 * (i - 0)) + 1) by lia.
    now rewrite Hx.
  - exists ci, r. split.
    + rewrite nth_error_map.
      replace (Z.to_nat (2 * i + 2)) with (Z.to_nat (2 * (i + 1 - 0)) + 0) by lia.
      now rewrite Hg.
    + split; [exact Hgen |]. split; [exact Huniq |]. split; [exact Hinput |].
      split; [exact Hq |]. split; [exact Hs |]. split; [exact He |].
      exists ci_i, text. split; [exact Hgi |]. split; [| exact Hsql].
      rewrite nth_error_map.
      replace (Z.to_nat (2 * i)) with (Z.to_nat (2 * (i - 0)) + 0) by lia.
      now rewrite Hg0.
Qed.

Lemma corrective_instruction_witness :
  let run := safe_sql_query (recording scripted) "Who joined first?" 3
               (three_failures, []) in
  let log := snd (snd (fst run)) in
  log = map received (snd run)
  /\ nth_error log (Z.to_nat (2 * 0 + 1))
     = Some (Execute "SELECT nam FROM members" (inr (Exn "no such column: nam")))
  /\ exists ci r,
       nth_error log (Z.to_nat (2 * 0 + 2)) = Some (Generate ci r)
       /\ In (EvGenerate (0 + 1) ci r) (snd run)
       /\ (forall ci' r', In (EvGenerate (0 + 1) ci' r') (snd run) -> ci' = ci)
       /\ input ci = corrective "Who joined first?" "SELECT nam FROM members"
                       "no such column: nam"
       /\ Contains "Who joined first?" (input ci)
       /\ Contains "SELECT nam FROM members" (input ci)
       /\ Contains "no such column: nam" (input ci)
       /\ (exists ci_i text,
             In (EvGenerate 0 ci_i (inl text)) (snd run)
             /\ nth_error log (Z.to_nat (2 * 0)) = Some (Generate ci_i (inl text))
             /\ "SELECT nam FROM members" = extract_sql text).
Proof.
  intros run log.
  apply (corrective_instruction_embeds_failure script scripted
           "Who joined first?" 3 three_failures
           (fst (fst run)) (fst (snd (fst run))) log (snd run)
           0 "SELECT nam FROM members" "no such column: nam");
    [reflexivity | right; left; reflexivity | discriminate].
Defined.

(** C4, as the code has it.  When the final allowed attempt fails at
    execution, the call returns the message
    [Failed to execute SQL after <max_retries> attempts. Last error: <error>]:
    it contains the last error text and the retry budget; the generated
    statement is not a part of the message. *)
Theorem final_failure_message_has_error :
  forall (World : Type) (env : collaborators World)
         (question : string) (max_retries : Z) (w : World)
         (o : outcome) (w' : World) (tr : list event)
         (sql_code e : string),
    safe_sql_query env question max_retries w = (o, w', tr) ->
    In (EvExecute (max_retries - 1) sql_code (inr (Exn e))) tr ->
    o = Returned ReturnFinalFailure
          ("Failed to execute SQL after " ++ str_of_int max_retries
           ++ " attempts. Last error: " ++ e)
    /\ last_error tr = Some e
    /\ Contains e (failure_message max_retries e)
    /\ Contains (str_of_int max_retries) (failure_message max_retries e).
Proof.
  intros World env question max_retries w o w' tr sql_code e Hrun Hin.
  destruct (safe_sql_query_cases env _ _ _ _ _ _ Hrun)
    as [[_ [_ [-> _]]] | [_ Hchain]]; [destruct Hin |].
  destruct (chain_final _ _ _ _ _ _ Hchain _ _ Hin) as [-> Hlast].
  split; [reflexivity |]. split; [exact Hlast |].
  apply Contains_failure_message.
Qed.

Lemma final_failure_message_witness :
  fst (fst (safe_sql_query scripted "How many members?" 1 one_failure))
  = Returned ReturnFinalFailure
      ("Failed to execute SQL after " ++ str_of_int 1
       ++ " attempts. Last error: " ++ "no such table: member")
  /\ last_error (snd (safe_sql_query scripted "How many members?" 1 one_failure))
     = Some "no such table: member"
  /\ Contains "no such table: member" (failure_message 1 "no such table: member")
  /\ Contains (str_of_int 1) (failure_message 1 "no such table: member").
Proof.
  apply (final_failure_message_has_error script scripted
           "How many members?" 1 one_failure
           (fst (fst (safe_sql_query scripted "How many members?" 1 one_failure)))
           (snd (fst (safe_sql_query scripted "How many members?" 1 one_failure)))
           (snd (safe_sql_query scripted "How many members?" 1 one_failure))
           "SELECT COUNT(member_id) FROM member" "no such table: member");
    [reflexivity | right; left; reflexivity].
Defined.

(** C4 fails as stated: with a budget of one attempt, the statement
    [SELECT COUNT(member_id) FROM member] fails with [no such table: member]; the
    returned failure message contains the error and not the statement. *)
Lemma final_failure_message_omits_statement :
  exists msg,
    safe_sql_query scripted "How many members?" 1 one_failure
    = (Returned ReturnFinalFailure msg,
       {| llm_replies := []; db_replies := [] |},
       [EvGenerate 0 {| input := "How many members?";
                        table_info := "CREATE TABLE members (member_id INTEGER)";
                        dialect := "sqlite" |}
          (inl "SELECT COUNT(member_id) FROM member");
        EvExecute 0 "SELECT COUNT(member_id) FROM member"
          (inr (Exn "no such table: member"))])
    /\ msg = "Failed to execute SQL after 1 attempts. Last error: no such table: member"
    /\ Contains "no such table: member" msg
    /\ ~ Contains "SELECT COUNT(member_id) FROM member" msg.
Proof.
  eexists. split; [reflexivity |]. split; [reflexivity |]. split.
  - apply infixb_iff. reflexivity.
  - apply not_Contains. reflexivity.
Qed.

(** C8, as the code has it.  The return after the loop is reached exactly
    when [max_retries <= 0] (zero or negative: [range] is empty), and then
    no generation or execution call is made.  For [max_retries >= 1] the
    call ends inside the loop: it returns from the success branch or from
    the final-attempt failure branch, or a generation call raises; when no
    generation call raises it returns. *)
Theorem fallback_reached_iff_no_attempt :
  forall (World : Type) (env : collaborators World)
         (question : string) (max_retries : Z) (w : World)
         (o : outcome) (w' : World) (tr : list event),
    safe_sql_query env question max_retries w = (o, w', tr) ->
    ((exists msg, o = Returned ReturnFallback msg) <-> (max_retries <= 0)%Z)
    /\ ((max_retries <= 0)%Z ->
        o = Returned ReturnFallback fallback_message /\ tr = []
        /\ generation_calls tr = 0 /\ execution_calls tr = 0)
    /\ ((1 <= max_retries)%Z ->
        (exists msg, o = Returned ReturnSuccess msg)
        \/ (exists msg, o = Returned ReturnFinalFailure msg)
        \/ (exists e j cj, o = Raised e /\ In (EvGenerate j cj (inr e)) tr))
    /\ ((1 <= max_retries)%Z ->
        (forall e j cj, ~ In (EvGenerate j cj (inr e)) tr) ->
        (exists msg, o = Returned ReturnSuccess msg)
        \/ (exists msg, o = Returned ReturnFinalFailure msg)).
Proof.
  intros World env question max_retries w o w' tr Hrun.
  destruct (safe_sql_query_cases env _ _ _ _ _ _ Hrun)
    as [[Hle [-> [-> _]]] | [Hge Hchain]].
  - split; [split; [intros _; exact Hle | intros _; eauto] |].
    split; [intros _; repeat split |].
    split; intros; lia.
  - pose proof (chain_outcome _ _ _ _ _ _ Hchain) as Hout.
    split; [split |].
    + intros [msg ->]. exfalso.
      exact (chain_not_fallback _ _ _ _ _ _ Hchain msg eq_refl).
    + intros; lia.
    + split; [intros; lia |]. split; [intros _; exact Hout |].
      intros _ Hno. destruct Hout as [H | [H | [e [j [cj [_ Hin]]]]]]; auto.
      exfalso. exact (Hno _ _ _ Hin).
Qed.

(** C8 fails as stated: with [max_retries = -1] the loop body never runs,
    the return after the loop is reached and no call is made, yet
    [max_retries] is not 0. *)
Lemma fallback_reached_with_negative_budget :
  safe_sql_query scripted "How many members?" (-1) one_success
  = (Returned ReturnFallback fallback_message, one_success, [])
  /\ (-1 <> 0)%Z.
Proof. split; [reflexivity | discriminate]. Qed.

Lemma fallback_reached_witness :
  ((exists msg,
      fst (fst (safe_sql_query scripted "Who joined first?" 3 three_failures))
      = Returned ReturnFallback msg) <-> (3 <= 0)%Z)
  /\ ((3 <= 0)%Z ->
      fst (fst (safe_sql_query scripted "Who joined first?" 3 three_failures))
      = Returned ReturnFallback fallback_message
      /\ snd (safe_sql_query scripted "Who joined first?" 3 three_failures) = []
      /\ generation_calls
           (snd (safe_sql_query scripted "Who joined first?" 3 three_failures)) = 0
      /\ execution_calls
           (snd (safe_sql_query scripted "Who joined first?" 3 three_failures)) = 0)
  /\ ((1 <= 3)%Z ->
      (exists msg,
         fst (fst (safe_sql_query scripted "Who joined first?" 3 three_failures))
         = Returned ReturnSuccess msg)
      \/ (exists msg,
            fst (fst (safe_sql_query scripted "Who joined first?" 3 three_failures))
            = Returned ReturnFinalFailure msg)
      \/ (exists e j cj,
            fst (fst (safe_sql_query scripted "Who joined first?" 3 three_failures))
            = Raised e
            /\ In (EvGenerate j cj (inr e))
                 (snd (safe_sql_query scripted "Who joined first?" 3 three_failures))))
  /\ ((1 <= 3)%Z ->
      (forall e j cj,
         ~ In (EvGenerate j cj (inr e))
             (snd (safe_sql_query scripted "Who joined first?" 3 three_failures))) ->
      (exists msg,
         fst (fst (safe_sql_query scripted "Who joined first?" 3 three_failures))
         = Returned ReturnSuccess msg)
      \/ (exists msg,
            fst (fst (safe_sql_query scripted "Who joined first?" 3 three_failures))
            = Returned ReturnFinalFailure msg)).
Proof.
  apply (fallback_reached_iff_no_attempt script scripted
           "Who joined first?" 3 three_failures
           (fst (fst (safe_sql_query scripted "Who joined first?" 3 three_failures)))
           (snd (fst (safe_sql_query scripted "Who joined first?" 3 three_failures)))
           (snd (safe_sql_query scripted "Who joined first?" 3 three_failures)));
    reflexivity.
Defined.

(** ** The extraction step *)

Lemma lazy_group_eq (s : string) :
  lazy_group s =
  if startswith result_marker s then Some EmptyString
  else match s with
       | EmptyString => None
       | String c s' => option_map (String c) (lazy_group s')
       end.
Proof. destruct s; reflexivity. Qed.

Lemma re_search_eq (s : string) :
  re_search s =
  match match_here s with
  | Some g => Some g
  | None => match s with
            | EmptyString => None
            | String _ s' => re_search s'
            end
  end.
Proof. destruct s; reflexivity. Qed.

Lemma startswith_append (p b : string) : startswith p (p ++ b) = true.
Proof. apply startswith_iff. now exists b. Qed.

Lemma drop_append (p b : string) : drop (String.length p) (p ++ b) = b.
Proof. induction p as [|c p IH]; simpl; [now destruct b | exact IH]. Qed.

Lemma length_append (a b : string) :
  String.length (a ++ b) = String.length a + String.length b.
Proof. induction a as [|c a IH]; simpl; [reflexivity | now rewrite IH]. Qed.

(** *** What a match looks like *)

Lemma lazy_group_sound (s g : string) :
  lazy_group s = Some g -> exists post, s = g ++ result_marker ++ post.
Proof.
  revert g; induction s as [|c s IH]; intros g H; rewrite lazy_group_eq in H.
  - discriminate.
  - destruct (startswith result_marker (String c s)) eqn:E.
    + injection H as <-. apply startswith_iff in E. exact E.
    + destruct (lazy_group s) as [g'|]; [| discriminate].
      injection H as <-. destruct (IH g' eq_refl) as [post ->].
      now exists post.
Qed.

Lemma blanks_then_group_sound (s g : string) :
  blanks_then_group s = Some g ->
  exists ws post, s = ws ++ g ++ result_marker ++ post /\ blank ws = true.
Proof.
  revert g; induction s as [|c s IH]; intros g H; cbn [blanks_then_group] in H.
  - apply lazy_group_sound in H. destruct H as [post H]. now exists "", post.
  - destruct (isspace c) eqn:Ec;
      [destruct (blanks_then_group s) as [g'|] eqn:Eb |].
    + injection H as <-. destruct (IH g' eq_refl) as [ws [post [-> Hb]]].
      exists (String c ws), post. simpl. now rewrite Ec, Hb.
    + apply lazy_group_sound in H. destruct H as [post H]. now exists "", post.
    + apply lazy_group_sound in H. destruct H as [post H]. now exists "", post.
Qed.

Lemma match_here_sound (s g : string) :
  match_here s = Some g ->
  exists ws post,
    s = query_marker ++ ws ++ g ++ result_marker ++ post /\ blank ws = true.
Proof.
  unfold match_here. destruct (startswith query_marker s) eqn:E; [| discriminate].
  apply startswith_iff in E. destruct E as [rest ->].
  rewrite drop_append. intros H.
  destruct (blanks_then_group_sound _ _ H) as [ws [post [-> Hb]]].
  now exists ws, post.
Qed.

Lemma re_search_sound (s g : string) :
  re_search s = Some g ->
  exists pre ws post,
    s = pre ++ query_marker ++ ws ++ g ++ result_marker ++ post
    /\ blank ws = true.
Proof.
  induction s as [|c s IH]; rewrite re_search_eq.
  - discriminate.
  - destruct (match_here (String c s)) as [g'|] eqn:E.
    + intros H. injection H as <-.
      destruct (match_here_sound _ _ E) as [ws [post [Hs Hb]]].
      now exists "", ws, post.
    + intros H. destruct (IH H) as [pre [ws [post [-> Hb]]]].
      now exists (String c pre), ws, post.
Qed.

(** *** When there is a match *)

Lemma lazy_group_complete (mid post : string) :
  exists g, lazy_group (mid ++ result_marker ++ post) = Some g.
Proof.
  induction mid as [|c mid [g IH]]; rewrite lazy_group_eq.
  - cbn [append]. rewrite startswith_append. eauto.
  - destruct (startswith result_marker _); [eauto |].
    cbn [append]. rewrite IH. simpl. eauto.
Qed.

Lemma blanks_then_group_complete (s g : string) :
  lazy_group s = Some g -> exists g', blanks_then_group s = Some g'.
Proof.
  intros H. destruct s as [|c s]; cbn [blanks_then_group]; [eauto |].
  destruct (isspace c); [destruct (blanks_then_group s) |]; eauto.
Qed.

Lemma match_here_complete (mid post : string) :
  exists g,
    match_here (query_marker ++ mid ++ result_marker ++ post) = Some g.
Proof.
  unfold match_here. rewrite startswith_append, drop_append.
  destruct (lazy_group_complete mid post) as [g H].
  exact (blanks_then_group_complete _ _ H).
Qed.

Lemma re_search_complete (pre mid post : string) :
  exists g,
    re_search (pre ++ query_marker ++ mid ++ result_marker ++ post) = Some g.
Proof.
  induction pre as [|c pre [g IH]]; rewrite re_search_eq.
  - cbn [append]. destruct (match_here_complete mid post) as [g ->]. eauto.
  - destruct (match_here _); [eauto |]. cbn [append]. eauto.
Qed.

(** *** Which match it is *)

Lemma FirstAt_cons (x : string) (c : ascii) (pre s : string) :
  FirstAt x (String c pre) s ->
  exists s', s = String c s' /\ FirstAt x pre s' /\ startswith x s = false.
Proof.
  intros [[post Hs] Hmin]. exists (pre ++ x ++ post).
  split; [exact Hs |]. split; [split |].
  - now exists post.
  - intros a b Hab.
    assert (Hle := Hmin (String c a) b
                     ltac:(rewrite Hs; simpl; now rewrite Hab)).
    simpl in Hle. lia.
  - destruct (startswith x s) eqn:E; [| reflexivity].
    apply startswith_iff in E. destruct E as [b Hb].
    specialize (Hmin "" b Hb). simpl in Hmin. lia.
Qed.

Lemma FirstAt_nil (x s : string) :
  FirstAt x "" s -> startswith x s = true.
Proof. intros [[post ->] _]. exact (startswith_append x post). Qed.

Lemma lazy_group_first (mid s : string) :
  FirstAt result_marker mid s -> lazy_group s = Some mid.
Proof.
  revert s; induction mid as [|c mid IH]; intros s H; rewrite lazy_group_eq.
  - now rewrite (FirstAt_nil _ _ H).
  - destruct (FirstAt_cons _ _ _ _ H) as [s' [-> [H' ->]]].
    now rewrite (IH _ H').
Qed.

Lemma blanks_then_group_first (mid s : string) :
  FirstAt result_marker mid s ->
  lstrip mid <> "" ->
  blanks_then_group s = Some (lstrip mid).
Proof.
  revert s; induction mid as [|c mid IH]; intros s H Hne.
  - now elim Hne.
  - destruct (FirstAt_cons _ _ _ _ H) as [s' [-> [H' _]]].
    cbn [blanks_then_group lstrip] in *.
    destruct (isspace c).
    + now rewrite (IH _ H' Hne).
    + now apply lazy_group_first.
Qed.

Lemma re_search_first (pre rest g : string) :
  FirstAt query_marker pre (pre ++ query_marker ++ rest) ->
  blanks_then_group rest = Some g ->
  re_search (pre ++ query_marker ++ rest) = Some g.
Proof.
  intros H Hg. induction pre as [|c pre IH]; rewrite re_search_eq.
  - cbn [append]. unfold match_here.
    now rewrite startswith_append, drop_append, Hg.
  - destruct (FirstAt_cons _ _ _ _ H) as [s' [Hs [H' Hno]]].
    unfold match_here at 1. rewrite Hno. cbn [append] in *.
    injection Hs as <-. exact (IH H').
Qed.

Lemma lstrip_idempotent (s : string) : lstrip (lstrip s) = lstrip s.
Proof.
  induction s as [|c s IH]; [reflexivity |]. simpl.
  destruct (isspace c) eqn:E; [exact IH |]. simpl. now rewrite E.
Qed.

Lemma clean_lstrip (s : string) : clean (lstrip s) = clean s.
Proof. unfold clean, strip. now rewrite lstrip_idempotent. Qed.

(** *** The fences *)

Lemma replace_scan_skip (old new : string) (k : nat) (s : string) :
  replace_scan old new k s = replace_scan old new 0 (drop k s).
Proof.
  revert k; induction s as [|c s IH]; intros [|k]; try reflexivity.
  simpl. apply IH.
Qed.

Lemma replace_scan_at_match (old new rest : string) :
  old <> "" ->
  replace_scan old new 0 (old ++ rest) = new ++ replace_scan old new 0 rest.
Proof.
  intros Hne. destruct old as [|c old]; [now elim Hne |].
  cbn [append replace_scan].
  change (String c (old ++ rest)) with (String c old ++ rest).
  rewrite startswith_append. f_equal.
  rewrite replace_scan_skip. simpl. rewrite Nat.sub_0_r.
  now rewrite drop_append.
Qed.

Lemma replace_scan_no_match (old new : string) (c : ascii) (s : string) :
  startswith old (String c s) = false ->
  replace_scan old new 0 (String c s) = String c (replace_scan old new 0 s).
Proof. intros H. cbn [replace_scan]. now rewrite H. Qed.

Lemma startswith_fence (s : string) :
  startswith fence s = (3 <=? leading_backticks s)%nat.
Proof.
  destruct s as [|a [|b [|c s]]]; cbn [startswith fence leading_backticks];
    unfold backtick;
    repeat match goal with
           | |- context [Ascii.eqb "`" ?x] => destruct (Ascii.eqb "`" x)
           end; reflexivity.
Qed.

Lemma leading_backticks_fence (rest : string) :
  leading_backticks (fence ++ rest) = 3 + leading_backticks rest.
Proof. reflexivity. Qed.

Lemma infixb_cons (x : string) (c : ascii) (s : string) :
  infixb x (String c s) = startswith x (String c s) || infixb x s.
Proof. reflexivity. Qed.

Lemma replace_fence_invariant :
  forall n s,
    String.length s <= n ->
    infixb fence (replace_scan fence "" 0 s) = false
    /\ leading_backticks (replace_scan fence "" 0 s) <= leading_backticks s.
Proof.
  induction n as [|n IH]; intros s Hlen.
  - destruct s; [split; [reflexivity | apply Nat.le_refl] | simpl in Hlen; lia].
  - destruct s as [|c s]; [split; [reflexivity | apply Nat.le_refl] |].
    destruct (startswith fence (String c s)) eqn:E.
    + apply startswith_iff in E. destruct E as [rest E]. rewrite E.
      rewrite replace_scan_at_match by discriminate.
      assert (Hrest : String.length rest <= n).
      { apply (f_equal String.length) in E. rewrite length_append in E.
        simpl in E, Hlen. lia. }
      destruct (IH rest Hrest) as [H1 H2]. cbn [append].
      split; [exact H1 |]. rewrite leading_backticks_fence. lia.
    + rewrite (replace_scan_no_match _ _ _ _ E).
      assert (Hs : String.length s <= n) by (simpl in Hlen; lia).
      destruct (IH s Hs) as [H1 H2].
      rewrite startswith_fence in E. apply Nat.leb_gt in E.
      assert (Hlead : leading_backticks (String c (replace_scan fence "" 0 s))
                      <= leading_backticks (String c s)).
      { cbn [leading_backticks]. destruct (Ascii.eqb backtick c); lia. }
      split; [| exact Hlead].
      rewrite infixb_cons, H1, orb_false_r, startswith_fence.
      apply Nat.leb_gt. lia.
Qed.

(** After [.replace("```", "")] no triple backtick is left. *)
Lemma replace_fence_clears (s : string) :
  ~ Contains fence (replace fence "" s).
Proof.
  apply not_Contains. change (replace fence "" s) with (replace_scan fence "" 0 s).
  exact (proj1 (replace_fence_invariant (String.length s) s (Nat.le_refl _))).
Qed.

Lemma lstrip_suffix (s : string) : exists a, s = a ++ lstrip s.
Proof.
  induction s as [|c s [a IH]]; [now exists "" |]. simpl.
  destruct (isspace c); [| now exists ""].
  exists (String c a). simpl. now rewrite <- IH.
Qed.

Lemma rstrip_prefix (s : string) : exists b, s = rstrip s ++ b.
Proof.
  induction s as [|c s [b IH]]; [now exists "" |]. cbn [rstrip].
  destruct (rstrip s) as [|d r] eqn:E.
  - destruct (isspace c).
    + now exists (String c s).
    + exists b. simpl in *. now rewrite <- IH.
  - exists b. cbn [append] in *. now rewrite <- IH.
Qed.

Lemma Contains_strip (x s : string) : Contains x (strip s) -> Contains x s.
Proof.
  intros [p [q H]]. unfold strip in H.
  destruct (lstrip_suffix s) as [a Ha].
  destruct (rstrip_prefix (lstrip s)) as [b Hb].
  exists (a ++ p), (q ++ b). rewrite Ha, Hb, H.
  now repeat rewrite append_assoc.
Qed.

Lemma clean_no_fence (s : string) : ~ Contains fence (clean s).
Proof.
  unfold clean. intros H. apply Contains_strip in H.
  exact (replace_fence_clears _ H).
Qed.

(** *** [find] decides [FirstAt] *)

Lemma find_eq (x s : string) :
  find x s =
  if startswith x s then Some 0
  else match s with
       | EmptyString => None
       | String _ s' => option_map S (find x s')
       end.
Proof. destruct s; reflexivity. Qed.

Lemma find_first (x s : string) (n : nat) :
  find x s = Some n ->
  (exists pre post, s = pre ++ x ++ post /\ String.length pre = n)
  /\ forall a b, s = a ++ x ++ b -> n <= String.length a.
Proof.
  revert n; induction s as [|c s IH]; intros n H; rewrite find_eq in H.
  - destruct (startswith x "") eqn:E; [| discriminate].
    injection H as <-. apply startswith_iff in E. destruct E as [b Hb].
    split; [now exists "", b | intros; lia].
  - destruct (startswith x (String c s)) eqn:E.
    + injection H as <-. apply startswith_iff in E. destruct E as [b Hb].
      split; [now exists "", b | intros; lia].
    + destruct (find x s) as [m|]; [| discriminate]. injection H as <-.
      destruct (IH m eq_refl) as [[pre [post [-> Hl]]] Hmin].
      split.
      * exists (String c pre), post. simpl. now rewrite Hl.
      * intros a b Hab. destruct a as [|d a].
        -- assert (startswith x (String c (pre ++ x ++ post)) = true)
             by (apply startswith_iff; now exists b).
           congruence.
        -- simpl in Hab. injection Hab as _ Hab.
           specialize (Hmin a b Hab). simpl. lia.
Qed.

Lemma append_same_length (a b a' b' : string) :
  a ++ b = a' ++ b' -> String.length a = String.length a' -> a = a'.
Proof.
  revert a'; induction a as [|c a IH]; intros [|c' a'] H Hl;
    try reflexivity; try discriminate.
  simpl in H, Hl. injection H as -> H. f_equal. apply IH; [exact H | lia].
Qed.

Lemma find_FirstAt (x pre s : string) :
  startswith pre s = true ->
  find x s = Some (String.length pre) ->
  FirstAt x pre s.
Proof.
  intros Hp Hf. apply startswith_iff in Hp. destruct Hp as [b Hb].
  destruct (find_first _ _ _ Hf) as [[pre' [post [Hs Hl]]] Hmin].
  assert (pre' = pre) as ->.
  { apply (append_same_length pre' (x ++ post) pre b); congruence. }
  split; [now exists post | exact Hmin].
Qed.

(** *** Concrete texts *)

Example extract_fenced_answer : extract_sql fenced_answer = "SELECT 1;".
Proof. reflexivity. Qed.

Example extract_query_marker_only :
  extract_sql "SQLQuery: SELECT 1" = "SQLQuery: SELECT 1".
Proof. reflexivity. Qed.

Example extract_blank_region_two_result_markers :
  extract_sql ("SQLQuery: " ++ nl ++ "SQLResult: x" ++ nl ++ "SQLResult: y")
  = "SQLResult: x".
Proof. reflexivity. Qed.

Example extract_upper_case_fence_tag :
  extract_sql ("```SQL" ++ nl ++ "SELECT 1" ++ nl ++ "```")
  = "SQL" ++ nl ++ "SELECT 1".
Proof. reflexivity. Qed.

Example extract_region_by_first_markers :
  extract_sql fenced_answer
  = clean ("```sql" ++ nl ++ "SELECT 1;" ++ nl ++ "```").
Proof. reflexivity. Qed.

(** C5, as the code has it.  For every raw model output:
    - the pattern matches exactly when the text holds [SQLQuery:] followed,
      at some later point, by a newline and [SQLResult:];
    - on a match the statement is the cleaned group, and the group lies
      after a [SQLQuery:] and the white space behind it and ends right
      before a newline and [SQLResult:];
    - it is the text between the first [SQLQuery:] and the first newline
      plus [SQLResult:] behind it when that text is not blank;
    - without a match the statement is the cleaned whole text, marker
      keywords included;
    - cleaning trims white space, deletes every [```sql] and then every
      [```], and trims again, and no triple backtick is left. *)
Theorem extraction_behaviour :
  forall raw : string,
    ((exists g, re_search raw = Some g)
     <-> (exists pre mid post,
            raw = pre ++ query_marker ++ mid ++ result_marker ++ post))
    /\ (forall g,
          re_search raw = Some g ->
          extract_sql raw = clean g
          /\ exists pre ws post,
               raw = pre ++ query_marker ++ ws ++ g ++ result_marker ++ post
               /\ blank ws = true)
    /\ (forall pre rest mid,
          raw = pre ++ query_marker ++ rest ->
          FirstAt query_marker pre raw ->
          FirstAt result_marker mid rest ->
          lstrip mid <> "" ->
          re_search raw = Some (lstrip mid) /\ extract_sql raw = clean mid)
    /\ (re_search raw = None -> extract_sql raw = clean raw)
    /\ (forall s,
          clean s = strip (replace "```" "" (replace "```sql" "" (strip s))))
    /\ ~ Contains "```" (extract_sql raw).
Proof.
  intros raw. split; [split |].
  - intros [g Hg]. destruct (re_search_sound _ _ Hg) as [pre [ws [post [-> _]]]].
    exists pre, (ws ++ g), post. now rewrite append_assoc.
  - intros [pre [mid [post ->]]]. apply re_search_complete.
  - split; [| split; [| split; [| split]]].
    + intros g Hg. split.
      * unfold extract_sql. now rewrite Hg.
      * exact (re_search_sound _ _ Hg).
    + intros pre rest mid -> Hq Hr Hne.
      assert (Hs : re_search (pre ++ query_marker ++ rest) = Some (lstrip mid)).
      { apply re_search_first; [exact Hq |].
        now apply blanks_then_group_first. }
      split; [exact Hs |].
      unfold extract_sql. rewrite Hs. apply clean_lstrip.
    + intros Hnone. unfold extract_sql. now rewrite Hnone.
    + reflexivity.
    + apply clean_no_fence.
Qed.

(** The case of the first markers, on the fenced text: the hypotheses are
    checked by [find]. *)
Lemma extraction_behaviour_witness :
  re_search fenced_answer
  = Some (lstrip (" ```sql" ++ nl ++ "SELECT 1;" ++ nl ++ "```"))
  /\ extract_sql fenced_answer
     = clean (" ```sql" ++ nl ++ "SELECT 1;" ++ nl ++ "```").
Proof.
  apply (proj1 (proj2 (proj2 (extraction_behaviour fenced_answer)))
           "Here. "
           (" ```sql" ++ nl ++ "SELECT 1;" ++ nl ++ "```" ++ nl
            ++ "SQLResult: 5" ++ nl ++ "Answer: x")
           (" ```sql" ++ nl ++ "SELECT 1;" ++ nl ++ "```")).
  - reflexivity.
  - apply find_FirstAt; reflexivity.
  - apply find_FirstAt; reflexivity.
  - discriminate.
Defined.

(** C5 fails as stated: in [SQLQuery: SELECT 1 SQLResult: 5] both markers
    are present, in order, yet the pattern does not match (the result marker
    does not start a line); the statement is the whole text, not the text
    between the markers, and both marker keywords are still in it. *)
Lemma extraction_keeps_same_line_markers :
  same_line_answer = "" ++ "SQLQuery:" ++ " SELECT 1 " ++ "SQLResult:" ++ " 5"
  /\ re_search same_line_answer = None
  /\ extract_sql same_line_answer = same_line_answer
  /\ extract_sql same_line_answer <> "SELECT 1"
  /\ Contains "SQLQuery:" (extract_sql same_line_answer)
  /\ Contains "SQLResult:" (extract_sql same_line_answer).
Proof.
  repeat split; try reflexivity.
  - discriminate.
  - apply infixb_iff. reflexivity.
  - apply infixb_iff. reflexivity.
Qed.

(** ** The schema catalog *)

Lemma cell_is_iff (v : string) (c : cell) :
  Retriever.cell_is v c = true <-> c = Some v.
Proof.
  destruct c as [s|]; simpl.
  - rewrite String.eqb_eq. split; congruence.
  - split; discriminate.
Qed.

(** The loop appends, table after table, the table's record and then the
    records of its fields. *)
Lemma append_tables_layout :
  forall column_defs table_defs acc out,
    append_tables column_defs table_defs acc = Some out ->
    exists definitions,
      map (fun entry : string * list field => lookup (fst entry) table_defs)
        column_defs = map Some definitions
      /\ out = (acc ++ flat_map
                  (fun p : (string * list field) * string =>
                     table_record (fst (fst p)) (snd p)
                     :: map (field_record (fst (fst p))) (snd (fst p)))
                  (combine column_defs definitions))%list.
Proof.
  induction column_defs as [|[table fields] rest IH]; intros table_defs acc out H;
    simpl in H.
  - injection H as <-. exists []. simpl. now rewrite app_nil_r.
  - destruct (lookup table table_defs) as [d|] eqn:E; [| discriminate].
    destruct (IH _ _ _ H) as [ds [Hds ->]].
    exists (d :: ds). simpl. rewrite E, Hds. split; [reflexivity |].
    now rewrite <- app_assoc.
Qed.

(** C9. [create_schema] returns a frame whose columns are exactly
    [table_name], [column_name], [definition], [data_type]; its rows are,
    table after table, the table-level row (column name [__table__], data
    type [TABLE]) immediately followed by the rows of that table's columns;
    every table has exactly one table-level row; no cell of any row holds a
    Chinese column name, and there is no column for it. *)
Theorem create_schema_layout :
  exists df,
    create_schema = Some df
    /\ columns df = ["table_name"; "column_name"; "definition"; "data_type"]
    /\ rows df = flat_map table_block column_definitions
    /\ (forall table fields,
          In (table, fields) column_definitions ->
          exists definition,
            table_level_rows table (rows df)
            = [[Some table; Some "__table__"; Some definition; Some "TABLE"]])
    /\ (forall zh row,
          In zh chinese_names -> In row (rows df) -> ~ In (Some zh) row)
    /\ List.length chinese_names = 38
    /\ ~ In "column_name_zh" (columns df).
Proof.
  eexists. split; [vm_compute; reflexivity |].
  split; [reflexivity |]. split; [reflexivity |]. split; [| split; [| split]].
  - intros table fields Hin. simpl in Hin.
    repeat (destruct Hin as [Hin | Hin];
            [injection Hin as <- <-; eexists; vm_compute; reflexivity |]).
    destruct Hin.
  - intros zh row Hzh Hrow Hin.
    assert (Hall :
      forallb (fun z =>
        forallb (fun r => negb (existsb (Retriever.cell_is z) r))
          (flat_map table_block column_definitions)) chinese_names = true)
      by (vm_compute; reflexivity).
    rewrite forallb_forall in Hall. specialize (Hall zh Hzh).
    rewrite forallb_forall in Hall. specialize (Hall row Hrow).
    apply negb_true_iff in Hall.
    assert (Hex : existsb (Retriever.cell_is zh) row = true).
    { apply existsb_exists. exists (Some zh). split; [exact Hin |].
      now apply cell_is_iff. }
    congruence.
  - reflexivity.
  - simpl. intuition discriminate.
Qed.

(** ** The retriever documents *)

Lemma In_insert_sorted (t x : string) (l : list string) :
  In t (insert_sorted x l) <-> t = x \/ In t l.
Proof.
  induction l as [|y l IH]; simpl.
  - intuition.
  - destruct (String.eqb_spec x y) as [-> | Hne].
    + simpl. intuition.
    + destruct (String.leb x y); simpl; [intuition |].
      rewrite IH. intuition.
Qed.

Lemma In_group_keys (t : string) (values : list cell) :
  In t (group_keys values) <-> In (Some t) values.
Proof.
  induction values as [|[v|] values IH]; simpl.
  - reflexivity.
  - rewrite In_insert_sorted, IH. split.
    + intros [-> | H]; auto.
    + intros [H | H]; [injection H as ->; auto | auto].
  - rewrite IH. split; [auto | intros [H | H]; [discriminate | exact H]].
Qed.

Lemma groupby_documents (label : string) (df : DataFrame)
    (groups : list (string * DataFrame)) :
  groupby label df = Some groups ->
  exists k,
    index_of label (columns df) = Some k
    /\ map table_document groups
       = map (table_document_of (columns df)) (group_keys (column_values k df)).
Proof.
  unfold groupby. destruct (index_of label (columns df)) as [k|]; [| discriminate].
  intros H. injection H as <-. exists k. split; [reflexivity |].
  now rewrite map_map.
Qed.

(** C10. For every schema frame, the documents built by [init_retriever]
    start with one document per table name present in the frame, and the
    page content of each is the table name, a colon and a blank, and the
    comma-joined column labels of the frame itself, so that the text after
    the table name is the same for every table; for a frame with the four
    labels of the catalog it is
    [table_name, column_name, definition, data_type].  For the frame of
    [create_schema] these are five documents, and none of them holds the
    name of a column of its table. *)
Theorem table_documents_carry_frame_labels :
  (forall (df : DataFrame) (r : retriever),
      NoDup (columns df) ->
      init_retriever df = Some r ->
      exists k tables row_docs,
        index_of "table_name" (columns df) = Some k
        /\ documents r
           = (map (table_document_of (columns df)) tables ++ row_docs)%list
        /\ row_documents df (rows df) = Some row_docs
        /\ (forall t, In t tables <-> In (Some t) (column_values k df))
        /\ (forall t, In t tables ->
              page_content (table_document_of (columns df) t)
              = t ++ ": " ++ join ", " (columns df))
        /\ (columns df = ["table_name"; "column_name"; "definition"; "data_type"] ->
            forall t, In t tables ->
              page_content (table_document_of (columns df) t)
              = t ++ ": " ++ catalog_labels))
  /\ (exists df r,
        create_schema = Some df
        /\ init_retriever df = Some r
        /\ firstn 5 (documents r)
           = map (table_document_of (columns df))
               ["campaigns"; "items"; "members"; "transaction_items"; "transactions"]
        /\ map page_content (firstn 5 (documents r))
           = ["campaigns: table_name, column_name, definition, data_type";
              "items: table_name, column_name, definition, data_type";
              "members: table_name, column_name, definition, data_type";
              "transaction_items: table_name, column_name, definition, data_type";
              "transactions: table_name, column_name, definition, data_type"]
        /\ (forall table fields f,
              In (table, fields) column_definitions -> In f fields ->
              ~ Contains (field_name f)
                  (page_content (table_document_of (columns df) table)))).
Proof.
  split.
  - intros df r _ Hinit. unfold init_retriever in Hinit.
    destruct (groupby "table_name" df) as [groups|] eqn:Hg; [| discriminate].
    destruct (row_documents df (rows df)) as [row_docs|] eqn:Hr; [| discriminate].
    injection Hinit as <-. cbn [documents].
    destruct (groupby_documents _ _ _ Hg) as [k [Hk Hmap]].
    exists k, (group_keys (column_values k df)), row_docs.
    split; [exact Hk |]. split; [now rewrite Hmap |]. split; [reflexivity |].
    split; [intros t; apply In_group_keys |].
    split; [reflexivity |].
    intros Hcols t _. rewrite Hcols. reflexivity.
  - eexists. eexists.
    split; [vm_compute; reflexivity |].
    split; [vm_compute; reflexivity |].
    split; [reflexivity |]. split; [reflexivity |].
    intros table fields f Htable Hf. apply not_Contains.
    assert (Hall :
      forallb (fun entry : string * list field =>
        forallb (fun g =>
          negb (infixb (field_name g)
                  (fst entry ++ ": " ++ catalog_labels))) (snd entry))
        column_definitions = true) by (vm_compute; reflexivity).
    rewrite forallb_forall in Hall. specialize (Hall _ Htable).
    rewrite forallb_forall in Hall. specialize (Hall _ Hf).
    apply negb_true_iff in Hall. exact Hall.
Qed.

Lemma table_documents_witness :
  exists k tables row_docs,
    index_of "table_name" ["table_name"; "column_name"; "definition"; "data_type"]
    = Some k
    /\ documents
         {| documents :=
              [table_document_of
                 ["table_name"; "column_name"; "definition"; "data_type"] "items";
               {| page_content := "items.price: [Float] Original price of the item";
                  metadata := [("table_name", Some "items");
                               ("column_name", Some "price");
                               ("definition", Some "Original price of the item");
                               ("data_type", Some "Float")] |}];
            search_type := "mmr"; k := 3 |}
       = (map (table_document_of
                 ["table_name"; "column_name"; "definition"; "data_type"]) tables
          ++ row_docs)%list
    /\ row_documents
         {| columns := ["table_name"; "column_name"; "definition"; "data_type"];
            rows := [[Some "items"; Some "price";
                      Some "Original price of the item"; Some "Float"]] |}
         [[Some "items"; Some "price";
           Some "Original price of the item"; Some "Float"]]
       = Some row_docs
    /\ (forall t, In t tables <->
                  In (Some t)
                    (column_values k
                       {| columns := ["table_name"; "column_name"; "definition"; "data_type"];
                          rows := [[Some "items"; Some "price";
                                    Some "Original price of the item"; Some "Float"]] |}))
    /\ (forall t, In t tables ->
          page_content
            (table_document_of
               ["table_name"; "column_name"; "definition"; "data_type"] t)
          = t ++ ": "
            ++ join ", " ["table_name"; "column_name"; "definition"; "data_type"])
    /\ (["table_name"; "column_name"; "definition"; "data_type"]
        = ["table_name"; "column_name"; "definition"; "data_type"] ->
        forall t, In t tables ->
          page_content
            (table_document_of
               ["table_name"; "column_name"; "definition"; "data_type"] t)
          = t ++ ": " ++ catalog_labels).
Proof.
  apply (proj1 table_documents_carry_frame_labels
           {| columns := ["table_name"; "column_name"; "definition"; "data_type"];
              rows := [[Some "items"; Some "price";
                        Some "Original price of the item"; Some "Float"]] |}).
  - repeat constructor; simpl; intuition discriminate.
  - reflexivity.
Defined.

(** ** The tool registry *)

(** C6, as the code has it.  The registry holds four tools with distinct
    names.  For every string input, [list_tables] and [describe_table]
    return a string; [sql_query] returns a string unless a generation call
    raises, and then that exception leaves the tool; [schema_lookup]
    returns the list of documents of the retriever as it is, never a
    string: the tool does not turn it into text. *)
Theorem tool_results :
  forall (World : Type) (tk : toolkit World) (tool_input : string) (w : World),
    map name (tools tk)
    = ["list_tables"; "describe_table"; "sql_query"; "schema_lookup"]
    /\ NoDup (map name (tools tk))
    /\ (exists s, fst (func (build_list_table_tool tk) tool_input w) = Gives (VStr s))
    /\ (exists s, fst (func (build_info_table_tool tk) tool_input w) = Gives (VStr s))
    /\ (forall max_retries,
          (exists s,
             fst (func (build_sql_generation_tool tk max_retries) tool_input w)
             = Gives (VStr s))
          \/ (exists e j cj,
                fst (func (build_sql_generation_tool tk max_retries) tool_input w)
                = Raises e
                /\ In (EvGenerate j cj (inr e))
                     (snd (safe_sql_query (loop_env tk) tool_input max_retries w))))
    /\ fst (func (build_schema_tool tk) tool_input w)
       = Gives (VDocuments (fst (get_relevant_documents tk tool_input w)))
    /\ (forall s, fst (func (build_schema_tool tk) tool_input w) <> Gives (VStr s)).
Proof.
  intros World tk tool_input w.
  split; [reflexivity |].
  split; [repeat constructor; simpl; intuition discriminate |].
  split; [simpl; destruct (list_tables_run tk tool_input w); simpl; eauto |].
  split; [simpl; destruct (describe_table_invoke tk tool_input w); simpl; eauto |].
  split; [| split].
  - intros max_retries. cbn [func build_sql_generation_tool].
    destruct (safe_sql_query (loop_env tk) tool_input max_retries w)
      as [[o w'] tr] eqn:Hrun.
    destruct o as [st msg | e]; [left; simpl; eauto |].
    right. cbn [fst snd].
    destruct (safe_sql_query_cases _ _ _ _ _ _ _ Hrun)
      as [[_ [Ho _]] | [_ Hchain]]; [discriminate |].
    destruct (chain_outcome _ _ _ _ _ _ Hchain)
      as [[m Hm] | [[m Hm] | [e' [j [cj [He Hin]]]]]]; try discriminate.
    injection He as <-. exists e, j, cj. auto.
  - simpl. destruct (get_relevant_documents tk tool_input w). reflexivity.
  - intros s. simpl. destruct (get_relevant_documents tk tool_input w).
    simpl. discriminate.
Qed.

(** C6 fails as stated: over the retriever built from the catalog,
    [schema_lookup] answers [member level] with three documents, not with
    a string. *)
Lemma schema_lookup_returns_documents :
  exists r docs,
    catalog_retriever = Some r
    /\ fst (func (build_schema_tool (scripted_toolkit r)) "member level" one_success)
       = Gives (VDocuments docs)
    /\ map page_content docs
       = ["campaigns: table_name, column_name, definition, data_type";
          "items: table_name, column_name, definition, data_type";
          "members: table_name, column_name, definition, data_type"]
    /\ forall s,
         fst (func (build_schema_tool (scripted_toolkit r)) "member level" one_success)
         <> Gives (VStr s).
Proof.
  eexists. eexists.
  split; [vm_compute; reflexivity |].
  split; [vm_compute; reflexivity |].
  split; [reflexivity |].
  intros s. vm_compute. discriminate.
Qed.

(** * Further properties of the sources *)

(** ** The retry loop: how a run ends *)

Lemma generation_calls_app (a b : list event) :
  generation_calls (a ++ b) = generation_calls a + generation_calls b.
Proof. unfold generation_calls. now rewrite filter_app, length_app. Qed.

Lemma execution_calls_app (a b : list event) :
  execution_calls (a ++ b) = execution_calls a + execution_calls b.
Proof. unfold execution_calls. now rewrite filter_app, length_app. Qed.

Lemma chain_normal_form (question : string) (max_retries : Z) i ci o tr :
  attempt_chain question max_retries i ci o tr ->
  exists pre k ck last,
    tr = (pre ++ last)%list
    /\ chain_end max_retries k ck o last
    /\ forallb fails_at_execution pre = true
    /\ generation_calls pre = execution_calls pre
    /\ Z.of_nat (generation_calls pre) = (k - i)%Z.
Proof.
  induction 1 as [i ci e | i ci text result | i ci text msg Hi
                  | i ci text msg o tr Hi Hc IH].
  - exists [], i, ci, [EvGenerate i ci (inr e)].
    repeat split; [constructor | simpl; lia].
  - exists [], i, ci,
      [EvGenerate i ci (inl text); EvExecute i (extract_sql text) (inl result)].
    repeat split; [constructor | simpl; lia].
  - exists [], i, ci,
      [EvGenerate i ci (inl text);
       EvExecute i (extract_sql text) (inr (Exn msg))].
    repeat split; [now constructor | simpl; lia].
  - destruct IH as [pre [k [ck [last [-> [Hend [Hall [Hcount Hk]]]]]]]].
    exists (EvGenerate i ci (inl text)
            :: EvExecute i (extract_sql text) (inr (Exn msg)) :: pre),
      k, ck, last.
    split; [reflexivity |]. split; [exact Hend |]. split; [exact Hall |].
    unfold generation_calls, execution_calls in *.
    cbn [filter is_generate is_execute List.length].
    split; [now rewrite Hcount | rewrite Nat2Z.inj_succ; lia].
Qed.

Lemma all_failed_has_no_raise (pre : list event) j cj e :
  forallb fails_at_execution pre = true -> ~ In (EvGenerate j cj (inr e)) pre.
Proof.
  intros Hall Hin. rewrite forallb_forall in Hall.
  specialize (Hall _ Hin). discriminate.
Qed.

(** X1. A call that returns from the success branch made its last two
    calls for one attempt [k]: a generation and the execution of the
    statement extracted from it, which succeeded; the message is the
    success message of that result; every attempt before failed at
    execution; and the call made exactly [k + 1] generation calls and
    [k + 1] execution calls, with [k + 1 <= max_retries]. *)
Theorem success_after_failed_attempts :
  forall (World : Type) (env : collaborators World)
         (question : string) (max_retries : Z) (w : World)
         (w' : World) (tr : list event) (msg : string),
    safe_sql_query env question max_retries w
    = (Returned ReturnSuccess msg, w', tr) ->
    exists pre k ck text result,
      tr = (pre ++ [EvGenerate k ck (inl text);
                    EvExecute k (extract_sql text) (inl result)])%list
      /\ msg = "Query executed successfully. Result: " ++ result
      /\ forallb fails_at_execution pre = true
      /\ (0 <= k <= max_retries - 1)%Z
      /\ Z.of_nat (generation_calls tr) = (k + 1)%Z
      /\ Z.of_nat (execution_calls tr) = (k + 1)%Z.
Proof.
  intros World env question max_retries w w' tr msg Hrun.
  destruct (safe_sql_query_cases env _ _ _ _ _ _ Hrun)
    as [[_ [Ho _]] | [Hge Hchain]]; [discriminate |].
  pose proof (chain_bounded _ _ _ _ _ _ Hchain ltac:(lia)) as Hbound.
  destruct (chain_normal_form _ _ _ _ _ _ Hchain)
    as [pre [k [ck [last [-> [Hend [Hall [Hcount Hk]]]]]]]].
  inversion Hend as [e He | text result He Hl | text e Hkn He]; subst.
  exists pre, k, ck, text, result.
  split; [reflexivity |]. split; [reflexivity |]. split; [exact Hall |].
  split.
  - split; [lia |].
    apply (Hbound (EvGenerate k ck (inl text))).
    apply in_or_app. right. simpl. auto.
  - unfold generation_calls, execution_calls in *.
    rewrite !filter_app, !length_app. simpl. lia.
Qed.

Lemma success_after_failed_attempts_witness :
  exists pre k ck text result,
    snd (safe_sql_query scripted "Who joined first?" 3 two_failures_then_success)
    = (pre ++ [EvGenerate k ck (inl text);
               EvExecute k (extract_sql text) (inl result)])%list
    /\ "Query executed successfully. Result: [('Ann',), ('Bob',)]"
       = "Query executed successfully. Result: " ++ result
    /\ forallb fails_at_execution pre = true
    /\ (0 <= k <= 3 - 1)%Z
    /\ Z.of_nat (generation_calls
                   (snd (safe_sql_query scripted "Who joined first?" 3
                           two_failures_then_success))) = (k + 1)%Z
    /\ Z.of_nat (execution_calls
                   (snd (safe_sql_query scripted "Who joined first?" 3
                           two_failures_then_success))) = (k + 1)%Z.
Proof.
  apply (success_after_failed_attempts script scripted
           "Who joined first?" 3 two_failures_then_success
           {| llm_replies := []; db_replies := [] |}).
  reflexivity.
Defined.

(** X2. An exception of a generation call is not caught: when the
    generation call of attempt [j] raises [e], the call itself raises [e],
    that call is the last one made, every attempt before it failed at
    execution, and [j] executions and [j + 1] generation calls were made
    in all. *)
Theorem generation_error_propagates :
  forall (World : Type) (env : collaborators World)
         (question : string) (max_retries : Z) (w : World)
         (o : outcome) (w' : World) (tr : list event)
         (j : Z) (cj : chain_input) (e : exn),
    safe_sql_query env question max_retries w = (o, w', tr) ->
    In (EvGenerate j cj (inr e)) tr ->
    o = Raised e
    /\ exists pre,
         tr = (pre ++ [EvGenerate j cj (inr e)])%list
         /\ forallb fails_at_execution pre = true
         /\ Z.of_nat (execution_calls tr) = j
         /\ Z.of_nat (generation_calls tr) = (j + 1)%Z.
Proof.
  intros World env question max_retries w o w' tr j cj e Hrun Hin.
  destruct (safe_sql_query_cases env _ _ _ _ _ _ Hrun)
    as [[_ [_ [-> _]]] | [Hge Hchain]]; [destruct Hin |].
  destruct (chain_normal_form _ _ _ _ _ _ Hchain)
    as [pre [k [ck [last [-> [Hend [Hall [Hcount Hk]]]]]]]].
  apply in_app_or in Hin. destruct Hin as [Hin | Hin];
    [elim (all_failed_has_no_raise _ _ _ _ Hall Hin) |].
  inversion Hend as [e0 He Hl | text result He Hl | text e0 Hkn He Hl];
    subst; simpl in Hin;
    repeat (destruct Hin as [Hin | Hin]; try discriminate); try contradiction.
  injection Hin as <- <- <-.
  split; [reflexivity |]. exists pre.
  split; [reflexivity |]. split; [exact Hall |].
  unfold generation_calls, execution_calls in *.
  rewrite !filter_app, !length_app. simpl. lia.
Qed.

Lemma generation_error_propagates_witness :
  fst (fst (safe_sql_query scripted "Who joined first?" 3 model_down_on_retry))
  = Raised (Exn "503 model overloaded")
  /\ exists pre,
       snd (safe_sql_query scripted "Who joined first?" 3 model_down_on_retry)
       = (pre ++ [EvGenerate 1
                    {| input := corrective "Who joined first?"
                                  "SELECT nam FROM members" "no such column: nam";
                       table_info := "CREATE TABLE members (member_id INTEGER)";
                       dialect := "sqlite" |}
                    (inr (Exn "503 model overloaded"))])%list
       /\ forallb fails_at_execution pre = true
       /\ Z.of_nat (execution_calls
                      (snd (safe_sql_query scripted "Who joined first?" 3
                              model_down_on_retry))) = 1%Z
       /\ Z.of_nat (generation_calls
                      (snd (safe_sql_query scripted "Who joined first?" 3
                              model_down_on_retry))) = (1 + 1)%Z.
Proof.
  apply (generation_error_propagates script scripted
           "Who joined first?" 3 model_down_on_retry
           (fst (fst (safe_sql_query scripted "Who joined first?" 3 model_down_on_retry)))
           (snd (fst (safe_sql_query scripted "Who joined first?" 3 model_down_on_retry)))
           (snd (safe_sql_query scripted "Who joined first?" 3 model_down_on_retry)));
    [reflexivity | right; right; left; reflexivity].
Defined.

(** ** The retry loop: what the model is asked and what the caller reads *)

Lemma chain_inputs (question : string) (max_retries : Z) i ci o tr :
  attempt_chain question max_retries i ci o tr ->
  forall j cj r,
    In (EvGenerate j cj r) tr ->
    table_info cj = table_info ci
    /\ dialect cj = dialect ci
    /\ (j = i -> cj = ci)
    /\ (j <> i ->
        exists k ck text e,
          (k + 1 = j)%Z
          /\ In (EvGenerate k ck (inl text)) tr
          /\ In (EvExecute k (extract_sql text) (inr (Exn e))) tr
          /\ input cj = corrective question (extract_sql text) e).
Proof.
  induction 1 as [i ci e | i ci text result | i ci text msg Hi
                  | i ci text msg o tr Hi Hc IH]; intros j cj r Hin;
    simpl in Hin.
  - destruct Hin as [Hin | []]. injection Hin as <- <- _.
    repeat split; try reflexivity. intros H; now elim H.
  - destruct Hin as [Hin | [Hin | []]]; [| discriminate].
    injection Hin as <- <- _.
    repeat split; try reflexivity. intros H; now elim H.
  - destruct Hin as [Hin | [Hin | []]]; [| discriminate].
    injection Hin as <- <- _.
    repeat split; try reflexivity. intros H; now elim H.
  - destruct Hin as [Hin | [Hin | Hin]]; [| discriminate |].
    + injection Hin as <- <- _.
      repeat split; try reflexivity. intros H; now elim H.
    + pose proof (chain_indices _ _ _ _ _ _ Hc _ Hin) as Hlow. simpl in Hlow.
      destruct (IH _ _ _ Hin) as [Ht [Hd [Hsame Hlater]]].
      split; [exact Ht |]. split; [exact Hd |].
      split; [intros ->; lia |]. intros _.
      destruct (Z.eq_dec j (i + 1)) as [-> | Hne].
      * exists i, ci, text, msg.
        split; [reflexivity |]. split; [simpl; auto |].
        split; [simpl; auto |]. now rewrite (Hsame eq_refl).
      * destruct (Hlater Hne) as [k [ck [t [e [Hk [Hg [Hx Hinput]]]]]]].
        exists k, ck, t, e. split; [exact Hk |].
        split; [right; right; exact Hg |].
        split; [right; right; exact Hx | exact Hinput].
Qed.

(** The inputs of the generation calls a run reports. *)
Lemma generation_inputs_trace :
  forall (World : Type) (env : collaborators World)
         (question : string) (max_retries : Z) (w : World)
         (o : outcome) (w' : World) (tr : list event)
         (j : Z) (cj : chain_input) (r : reply),
    safe_sql_query env question max_retries w = (o, w', tr) ->
    In (EvGenerate j cj r) tr ->
    table_info cj = fst (get_table_info env w)
    /\ dialect cj = db_dialect env (snd (get_table_info env w))
    /\ (j = 0%Z -> input cj = question)
    /\ (j <> 0%Z ->
        exists ck text e,
          In (EvGenerate (j - 1) ck (inl text)) tr
          /\ In (EvExecute (j - 1) (extract_sql text) (inr (Exn e))) tr
          /\ input cj = corrective question (extract_sql text) e).
Proof.
  intros World env question max_retries w o w' tr j cj r Hrun Hin.
  destruct (safe_sql_query_cases env _ _ _ _ _ _ Hrun)
    as [[_ [_ [-> _]]] | [Hge Hchain]]; [destruct Hin |].
  destruct (chain_inputs _ _ _ _ _ _ Hchain _ _ _ Hin)
    as [Ht [Hd [Hsame Hlater]]].
  split; [exact Ht |]. split; [exact Hd |]. split.
  - intros Hj. now rewrite (Hsame Hj).
  - intros Hj. destruct (Hlater Hj) as [k [ck [text [e [Hk [Hg [Hx Hinput]]]]]]].
    replace (j - 1)%Z with k by lia. now exists ck, text, e.
Qed.

Lemma recording_table_info {World : Type} (env : collaborators World) (w : World) :
  fst (get_table_info (recording env) (w, [])) = fst (get_table_info env w)
  /\ db_dialect (recording env) (snd (get_table_info (recording env) (w, [])))
     = db_dialect env (snd (get_table_info env w)).
Proof.
  cbn [recording get_table_info db_dialect fst snd].
  destruct (get_table_info env w) as [info w1]. split; reflexivity.
Qed.

(** X3. Over collaborators that list the calls they serve: only the
    instruction changes between attempts.  Call number [2 j] is the
    generation call of attempt [j]; the model chain is given there the
    table description and the dialect read before the loop; on attempt 0
    it is given the question itself, and on every later attempt [j] the
    corrective text built from the two calls served just before: the
    statement the database was given on attempt [j - 1] and the error it
    raised. *)
Theorem generation_inputs_invariant :
  forall (World : Type) (env : collaborators World)
         (question : string) (max_retries : Z) (w : World)
         (o : outcome) (w' : World) (log : list call) (tr : list event)
         (j : Z) (cj : chain_input) (r : reply),
    safe_sql_query (recording env) question max_retries (w, [])
    = (o, (w', log), tr) ->
    In (EvGenerate j cj r) tr ->
    log = map received tr
    /\ nth_error log (Z.to_nat (2 * j)) = Some (Generate cj r)
    /\ table_info cj = fst (get_table_info env w)
    /\ dialect cj = db_dialect env (snd (get_table_info env w))
    /\ (j = 0%Z -> input cj = question)
    /\ (j <> 0%Z ->
        exists ck text e,
          In (EvGenerate (j - 1) ck (inl text)) tr
          /\ In (EvExecute (j - 1) (extract_sql text) (inr (Exn e))) tr
          /\ nth_error log (Z.to_nat (2 * j - 2)) = Some (Generate ck (inl text))
          /\ nth_error log (Z.to_nat (2 * j - 1))
             = Some (Execute (extract_sql text) (inr (Exn e)))
          /\ input cj = corrective question (extract_sql text) e).
Proof.
  intros World env question max_retries w o w' log tr j cj r Hrun Hin.
  pose proof (recording_run env _ _ _ _ _ _ _ Hrun) as Hlog. subst log.
  split; [reflexivity |].
  destruct (generation_inputs_trace _ (recording env) _ _ _ _ _ _ _ _ _ Hrun Hin)
    as (Ht & Hd & H0 & Hlater).
  destruct (recording_table_info env w) as [Ht' Hd'].
  rewrite Ht' in Ht. rewrite Hd' in Hd.
  destruct (safe_sql_query_cases (recording env) _ _ _ _ _ _ Hrun)
    as [[_ [_ [Htr _]]] | [_ Hchain]]; [rewrite Htr in Hin; destruct Hin |].
  destruct (chain_positions _ _ _ _ _ _ Hchain _ Hin) as [Hle Hg].
  cbn [event_index is_execute] in Hle, Hg.
  split.
  { rewrite nth_error_map.
    replace (Z.to_nat (2 * j)) with (Z.to_nat (2 * (j - 0)) + 0) by lia.
    now rewrite Hg. }
  split; [exact Ht |]. split; [exact Hd |]. split; [exact H0 |].
  intros Hj. destruct (Hlater Hj) as (ck & text & e & Hgk & Hxk & Hinput).
  destruct (chain_positions _ _ _ _ _ _ Hchain _ Hgk) as [Hlek Hpg].
  destruct (chain_positions _ _ _ _ _ _ Hchain _ Hxk) as [_ Hpx].
  cbn [event_index is_execute] in Hlek, Hpg, Hpx.
  exists ck, text, e. split; [exact Hgk |]. split; [exact Hxk |].
  split; [| split; [| exact Hinput]]; rewrite nth_error_map.
  - replace (Z.to_nat (2 * j - 2)) with (Z.to_nat (2 * (j - 1 - 0)) + 0) by lia.
    now rewrite Hpg.
  - replace (Z.to_nat (2 * j - 1)) with (Z.to_nat (2 * (j - 1 - 0)) + 1) by lia.
    now rewrite Hpx.
Qed.

Lemma generation_inputs_invariant_witness :
  let run := safe_sql_query (recording scripted) "Who joined first?" 3
               (two_failures_then_success, []) in
  let log := snd (snd (fst run)) in
  let cj := {| input := corrective "Who joined first?" "SELECT name FROM member"
                          "no such table: member";
               table_info := "CREATE TABLE members (member_id INTEGER)";
               dialect := "sqlite" |} in
  log = map received (snd run)
  /\ nth_error log (Z.to_nat (2 * 2))
     = Some (Generate cj (inl "SELECT member_name FROM members"))
  /\ table_info cj = fst (get_table_info scripted two_failures_then_success)
  /\ dialect cj
     = db_dialect scripted (snd (get_table_info scripted two_failures_then_success))
  /\ (2%Z = 0%Z -> input cj = "Who joined first?")
  /\ (2%Z <> 0%Z ->
      exists ck text e,
        In (EvGenerate (2 - 1) ck (inl text)) (snd run)
        /\ In (EvExecute (2 - 1) (extract_sql text) (inr (Exn e))) (snd run)
        /\ nth_error log (Z.to_nat (2 * 2 - 2)) = Some (Generate ck (inl text))
        /\ nth_error log (Z.to_nat (2 * 2 - 1))
           = Some (Execute (extract_sql text) (inr (Exn e)))
        /\ input cj = corrective "Who joined first?" (extract_sql text) e).
Proof.
  intros run log cj.
  apply (generation_inputs_invariant script scripted
           "Who joined first?" 3 two_failures_then_success
           (fst (fst run)) (fst (snd (fst run))) log (snd run)
           2 cj (inl "SELECT member_name FROM members"));
    [reflexivity | do 4 right; left; reflexivity].
Defined.

Lemma chain_end_message (max_retries k : Z) ck o last :
  chain_end max_retries k ck o last ->
  forall st msg,
    o = Returned st msg ->
    (st = ReturnSuccess /\ exists result, msg = success_message result)
    \/ (st = ReturnFinalFailure
        /\ exists e, msg = failure_message max_retries e).
Proof.
  destruct 1; intros st msg Ho; try discriminate;
    injection Ho as <- <-; [left | right]; eauto.
Qed.

(** X4. The text that comes back tells the caller which branch returned:
    the message starts with [Query executed successfully. Result: ]
    exactly when the success branch returned, it starts with
    [Failed to execute SQL after ] exactly when the final-attempt branch
    returned, and it is the fixed fallback sentence exactly when the
    return after the loop was reached. *)
Theorem message_identifies_branch :
  forall (World : Type) (env : collaborators World)
         (question : string) (max_retries : Z) (w : World)
         (st : site) (msg : string) (w' : World) (tr : list event),
    safe_sql_query env question max_retries w = (Returned st msg, w', tr) ->
    (startswith "Query executed successfully. Result: " msg = true
     <-> st = ReturnSuccess)
    /\ (startswith "Failed to execute SQL after " msg = true
        <-> st = ReturnFinalFailure)
    /\ (msg = "Failed to get a valid response from the database after multiple attempts."
        <-> st = ReturnFallback).
Proof.
  intros World env question max_retries w st msg w' tr Hrun.
  destruct (safe_sql_query_cases env _ _ _ _ _ _ Hrun)
    as [[_ [Ho _]] | [Hge Hchain]].
  - injection Ho as -> ->.
    split; [split; [intros H | intros H]; discriminate |].
    split; [split; [intros H | intros H]; discriminate |].
    split; reflexivity.
  - destruct (chain_normal_form _ _ _ _ _ _ Hchain)
      as [pre [k [ck [last [_ [Hend _]]]]]].
    destruct (chain_end_message _ _ _ _ _ Hend _ _ eq_refl)
      as [[-> [result ->]] | [-> [e ->]]].
    + split; [split; [reflexivity | intros _; apply startswith_append] |].
      split; [split; [intros H | intros H]; discriminate |].
      split; [intros H | intros H]; discriminate.
    + split; [split; [intros H | intros H]; discriminate |].
      split; [split; [reflexivity | intros _; apply startswith_append] |].
      split; [intros H | intros H]; discriminate.
Qed.

Lemma message_identifies_branch_witness :
  (startswith "Query executed successfully. Result: "
     "Query executed successfully. Result: [('Ann',), ('Bob',)]" = true
   <-> ReturnSuccess = ReturnSuccess)
  /\ (startswith "Failed to execute SQL after "
        "Query executed successfully. Result: [('Ann',), ('Bob',)]" = true
      <-> ReturnSuccess = ReturnFinalFailure)
  /\ ("Query executed successfully. Result: [('Ann',), ('Bob',)]"
      = "Failed to get a valid response from the database after multiple attempts."
      <-> ReturnSuccess = ReturnFallback).
Proof.
  apply (message_identifies_branch script scripted
           "Who joined first?" 3 two_failures_then_success
           ReturnSuccess
           "Query executed successfully. Result: [('Ann',), ('Bob',)]"
           {| llm_replies := []; db_replies := [] |}
           (snd (safe_sql_query scripted "Who joined first?" 3
                   two_failures_then_success))).
  reflexivity.
Defined.

(** ** The registered [sql_query] tool *)

(** X5. The [sql_query] tool of the registry runs the loop with a budget
    of three attempts: one invocation makes at most three generation calls
    and at most three execution calls, and whenever it returns, the text is
    either the success message of a result or
    [Failed to execute SQL after 3 attempts. Last error: ] followed by an
    error text; it never returns the fallback sentence. *)
Theorem sql_query_tool_budget :
  forall (World : Type) (tk : toolkit World) (question : string) (w : World),
    nth_error (tools tk) 2 = Some (build_sql_generation_tool tk 3)
    /\ generation_calls (snd (safe_sql_query (loop_env tk) question 3 w)) <= 3
    /\ execution_calls (snd (safe_sql_query (loop_env tk) question 3 w)) <= 3
    /\ snd (func (build_sql_generation_tool tk 3) question w)
       = snd (fst (safe_sql_query (loop_env tk) question 3 w))
    /\ (forall v,
          fst (func (build_sql_generation_tool tk 3) question w) = Gives v ->
          (exists result,
             v = VStr ("Query executed successfully. Result: " ++ result))
          \/ (exists e,
                v = VStr ("Failed to execute SQL after 3 attempts. Last error: " ++ e)))
    /\ fst (func (build_sql_generation_tool tk 3) question w)
       <> Gives (VStr fallback_message).
Proof.
  intros World tk question w.
  split; [reflexivity |].
  cbn [func build_sql_generation_tool].
  destruct (safe_sql_query (loop_env tk) question 3 w) as [[o w'] tr] eqn:Hrun.
  cbn [fst snd].
  destruct (safe_sql_query_cases _ _ _ _ _ _ _ Hrun)
    as [[Hle _] | [_ Hchain]]; [lia |].
  destruct (chain_call_counts _ _ _ _ _ _ Hchain ltac:(lia)) as [Hg Hx].
  split; [lia |]. split; [lia |].
  destruct (chain_normal_form _ _ _ _ _ _ Hchain)
    as [pre [k [ck [last [_ [Hend _]]]]]].
  destruct o as [st msg | e].
  - destruct (chain_end_message _ _ _ _ _ Hend _ _ eq_refl)
      as [[-> [result ->]] | [-> [e ->]]]; cbn [fst snd].
    + split; [reflexivity |]. split; [| discriminate].
      intros v Hv. injection Hv as <-. left. now exists result.
    + split; [reflexivity |]. split; [| discriminate].
      intros v Hv. injection Hv as <-. right. now exists e.
  - cbn [fst snd]. split; [reflexivity |]. split; [| discriminate].
    intros v Hv. discriminate.
Qed.

(** ** The extraction step: trimmed results and round trips *)

Lemma lstrip_head (s : string) (c : ascii) (r : string) :
  lstrip s = String c r -> isspace c = false.
Proof.
  induction s as [|d s IH]; simpl; [discriminate |].
  destruct (isspace d) eqn:E; [exact IH |].
  intros H. injection H as <- _. exact E.
Qed.

Lemma rstrip_keeps_head (s : string) (c : ascii) (r : string) :
  rstrip s = String c r -> exists r', s = String c r'.
Proof.
  destruct s as [|d s]; cbn [rstrip]; [discriminate |].
  destruct (rstrip s); [destruct (isspace d); [discriminate |] |];
    intros H; injection H as <- _; eauto.
Qed.

Lemma rstrip_last (s pre : string) (c : ascii) :
  rstrip s = pre ++ String c "" -> isspace c = false.
Proof.
  revert pre; induction s as [|d s IH]; intros pre; cbn [rstrip].
  - destruct pre; discriminate.
  - destruct (rstrip s) as [|e r] eqn:E.
    + destruct (isspace d) eqn:Ed; [destruct pre; discriminate |].
      destruct pre as [|p pre]; simpl; intros H.
      * injection H as <-. exact Ed.
      * injection H as _ H. destruct pre; discriminate.
    + destruct pre as [|p pre]; simpl; intros H; [discriminate |].
      injection H as _ H. exact (IH pre H).
Qed.

Lemma rstrip_idempotent (s : string) : rstrip (rstrip s) = rstrip s.
Proof.
  induction s as [|d s IH]; [reflexivity |]. cbn [rstrip].
  destruct (rstrip s) as [|e r] eqn:E.
  - destruct (isspace d) eqn:Ed; [reflexivity |].
    cbn [rstrip]. now rewrite Ed.
  - cbn [rstrip] in *. rewrite IH. reflexivity.
Qed.

Lemma lstrip_fixed (s : string) :
  (forall c r, s = String c r -> isspace c = false) -> lstrip s = s.
Proof.
  destruct s as [|c r]; [reflexivity |]. intros H. simpl.
  now rewrite (H c r eq_refl).
Qed.

Lemma strip_head (s : string) (c : ascii) (r : string) :
  strip s = String c r -> isspace c = false.
Proof.
  unfold strip. intros H.
  destruct (rstrip_keeps_head _ _ _ H) as [r' Hl].
  exact (lstrip_head _ _ _ Hl).
Qed.

Lemma strip_idempotent (s : string) : strip (strip s) = strip s.
Proof.
  unfold strip at 1. rewrite lstrip_fixed.
  - unfold strip. apply rstrip_idempotent.
  - intros c r. apply strip_head.
Qed.

(** X6. The extracted statement is always trimmed: stripping it again
    changes nothing, it does not begin with a white-space character and it
    does not end with one. *)
Theorem extracted_statement_is_trimmed :
  forall raw : string,
    strip (extract_sql raw) = extract_sql raw
    /\ (forall c rest, extract_sql raw = String c rest -> isspace c = false)
    /\ (forall pre c, extract_sql raw = pre ++ String c "" -> isspace c = false).
Proof.
  intros raw. unfold extract_sql, clean.
  split; [apply strip_idempotent |]. split.
  - intros c rest. apply strip_head.
  - intros pre c. unfold strip. apply rstrip_last.
Qed.

Lemma replace_scan_absent (old new s : string) :
  infixb old s = false -> replace_scan old new 0 s = s.
Proof.
  induction s as [|c s IH]; [reflexivity |].
  rewrite infixb_cons. intros H. apply orb_false_iff in H.
  destruct H as [H1 H2].
  rewrite (replace_scan_no_match _ _ _ _ H1). now rewrite (IH H2).
Qed.

Lemma not_Contains_infixb (x s : string) : ~ Contains x s -> infixb x s = false.
Proof.
  intros H. destruct (infixb x s) eqn:E; [| reflexivity].
  elim H. now apply infixb_iff.
Qed.

Lemma Contains_prefix (x y s : string) : Contains (x ++ y) s -> Contains x s.
Proof.
  intros [a [b ->]]. exists a, (y ++ b). now rewrite append_assoc.
Qed.

Lemma Contains_suffix (x y s : string) : Contains (x ++ y) s -> Contains y s.
Proof.
  intros [a [b ->]]. exists (a ++ x), b. now rewrite !append_assoc.
Qed.

Lemma clean_plain (s : string) :
  strip s = s -> ~ Contains fence s -> clean s = s.
Proof.
  intros Hs Hf. unfold clean. rewrite Hs.
  change (replace fence_sql "" s) with (replace_scan fence_sql "" 0 s).
  rewrite replace_scan_absent.
  - change (replace fence "" s) with (replace_scan fence "" 0 s).
    rewrite replace_scan_absent; [exact Hs | now apply not_Contains_infixb].
  - apply not_Contains_infixb. intros H. apply Hf.
    exact (Contains_prefix fence "sql" s H).
Qed.

Lemma re_search_without_result_marker (s : string) :
  ~ Contains result_marker s -> re_search s = None.
Proof.
  intros H. destruct (re_search s) as [g|] eqn:E; [| reflexivity].
  destruct (re_search_sound _ _ E) as [pre [ws [post [-> _]]]].
  elim H. exists (pre ++ query_marker ++ ws ++ g), post.
  now rewrite !append_assoc.
Qed.

(** X7. A statement that is already plain passes through unchanged: when
    the model output is trimmed, holds no triple backtick and has no line
    that starts with [SQLResult:], the extracted statement is the output
    itself. *)
Theorem plain_statement_passes_through :
  forall s : string,
    strip s = s ->
    ~ Contains "```" s ->
    ~ Contains result_marker s ->
    extract_sql s = s.
Proof.
  intros s Hs Hf Hr. unfold extract_sql.
  rewrite (re_search_without_result_marker _ Hr).
  now apply clean_plain.
Qed.

Lemma plain_statement_passes_through_witness :
  extract_sql "SELECT country, AVG(final_price) FROM transactions GROUP BY country"
  = "SELECT country, AVG(final_price) FROM transactions GROUP BY country".
Proof.
  apply (plain_statement_passes_through
           "SELECT country, AVG(final_price) FROM transactions GROUP BY country").
  - reflexivity.
  - apply not_Contains. reflexivity.
  - apply not_Contains. reflexivity.
Defined.

(** *** Occurrences across a seam *)

Lemma startswith_straddle (x s b : string) :
  startswith x (s ++ b) = true ->
  startswith x s = true
  \/ (startswith (drop (String.length s) x) b = true
      /\ String.length s < String.length x).
Proof.
  revert s; induction x as [|a x IH]; intros s H; [now left |].
  destruct s as [|d s].
  - right. split; [exact H | simpl; lia].
  - cbn [append startswith] in H. apply andb_true_iff in H.
    destruct H as [Had H]. destruct (IH s H) as [Hl | [Hr Hlen]].
    + left. cbn [startswith]. now rewrite Had, Hl.
    + right. split; [exact Hr | simpl; lia].
Qed.

Lemma drop_head_has_char (m : nat) (x : string) (c : ascii) (r : string) :
  drop m x = String c r -> has_char c x = true.
Proof.
  revert x; induction m as [|m IH]; intros x H.
  - simpl in H. subst x. simpl. now rewrite Ascii.eqb_refl.
  - destruct x as [|d x]; [discriminate |]. simpl in H.
    simpl. rewrite (IH _ H). apply orb_true_r.
Qed.

Lemma drop_nonempty (m : nat) (x : string) :
  m < String.length x -> exists c r, drop m x = String c r.
Proof.
  revert x; induction m as [|m IH]; intros [|d x] H; simpl in H; try lia.
  - now exists d, x.
  - apply IH. lia.
Qed.

(** An occurrence of [x] cannot start in a non-empty [s] and end behind
    it when the character behind [s] does not occur in [x] after its
    first character. *)
Lemma straddle_impossible (x0 : ascii) (x' s : string) (c0 : ascii) (b' : string) :
  s <> "" ->
  has_char c0 x' = false ->
  startswith (String x0 x') (s ++ String c0 b') = true ->
  startswith (String x0 x') s = true.
Proof.
  intros Hs Hc H. destruct (startswith_straddle _ _ _ H) as [Hl | [Hr Hlen]];
    [exact Hl |].
  destruct s as [|d s]; [now elim Hs |]. simpl in Hr, Hlen.
  destruct (drop_nonempty (String.length s) x' ltac:(lia)) as [c [r Hd]].
  rewrite Hd in Hr. cbn [startswith] in Hr. apply andb_true_iff in Hr.
  destruct Hr as [Hcc _]. apply Ascii.eqb_eq in Hcc. subst c0.
  rewrite (drop_head_has_char _ _ _ _ Hd) in Hc. discriminate.
Qed.

Lemma String_nonempty (c : ascii) (s : string) : String c s <> "".
Proof. discriminate. Qed.

Lemma infixb_skip_prefix (x0 : ascii) (x' a t : string) :
  has_char x0 a = false ->
  infixb (String x0 x') (a ++ t) = infixb (String x0 x') t.
Proof.
  induction a as [|c a IH]; intros H; [reflexivity |].
  simpl in H. apply orb_false_iff in H. destruct H as [Hc Ha].
  cbn [append]. rewrite infixb_cons. cbn [startswith].
  rewrite Hc. simpl. exact (IH Ha).
Qed.

Lemma infixb_before_seam (x0 : ascii) (x' a : string) (c0 : ascii) (b' : string) :
  has_char c0 x' = false ->
  infixb (String x0 x') (a ++ String c0 b') = true ->
  infixb (String x0 x') a = true \/ infixb (String x0 x') (String c0 b') = true.
Proof.
  intros Hc. induction a as [|c a IH]; intros H; [now right |].
  cbn [append] in H. rewrite infixb_cons in H. apply orb_true_iff in H.
  destruct H as [H | H].
  - left. rewrite infixb_cons.
    change (String c (a ++ String c0 b')) with (String c a ++ String c0 b') in H.
    rewrite (straddle_impossible _ _ _ _ _ (String_nonempty c a) Hc H).
    reflexivity.
  - destruct (IH H) as [Hl | Hr]; [left | now right].
    rewrite infixb_cons, Hl. apply orb_true_r.
Qed.

Lemma startswith_Contains (x s : string) : startswith x s = true -> Contains x s.
Proof. intros H. apply startswith_iff in H. destruct H as [b ->]. now exists "", b. Qed.

Lemma Contains_cons (x : string) (c : ascii) (s : string) :
  Contains x s -> Contains x (String c s).
Proof. intros [a [b ->]]. now exists (String c a), b. Qed.

(** *** The group of a body that holds no result marker *)

Lemma lazy_group_body (body post : string) :
  ~ Contains result_marker body ->
  lazy_group (body ++ result_marker ++ post) = Some body.
Proof.
  induction body as [|c v IH]; intros Hno; rewrite lazy_group_eq.
  - cbn [append]. now rewrite startswith_append.
  - destruct (startswith result_marker (String c v ++ result_marker ++ post)) eqn:E.
    + elim Hno. apply startswith_Contains.
      apply (straddle_impossible _ _ _ _ _ (String_nonempty c v)
               (eq_refl : has_char (ascii_of_nat 10) "SQLResult:" = false) E).
    + cbn [append]. rewrite IH; [reflexivity |].
      intros H. apply Hno. now apply Contains_cons.
Qed.

Lemma blanks_then_group_body (ws : string) (c : ascii) (r rest g : string) :
  blank ws = true ->
  isspace c = false ->
  lazy_group (String c r ++ rest) = Some g ->
  blanks_then_group (ws ++ String c r ++ rest) = Some g.
Proof.
  intros Hws Hc Hg. induction ws as [|d ws IH].
  - cbn [append blanks_then_group]. now rewrite Hc.
  - simpl in Hws. apply andb_true_iff in Hws. destruct Hws as [Hd Hws].
    specialize (IH Hws). cbn [append blanks_then_group] in *.
    now rewrite Hd, IH.
Qed.

Lemma re_search_skip (pre rest g : string) :
  ~ Contains query_marker pre ->
  match_here (query_marker ++ rest) = Some g ->
  re_search (pre ++ query_marker ++ rest) = Some g.
Proof.
  intros Hno Hg. induction pre as [|c v IH]; rewrite re_search_eq.
  - cbn [append]. now rewrite Hg.
  - unfold match_here at 1.
    destruct (startswith query_marker (String c v ++ query_marker ++ rest)) eqn:E.
    + elim Hno. apply startswith_Contains.
      apply (straddle_impossible _ _ _ _ _ (String_nonempty c v)
               (eq_refl : has_char "S" "QLQuery:" = false) E).
    + cbn [append]. apply IH. intros H. apply Hno. now apply Contains_cons.
Qed.

(** The pattern on a marked answer whose body is not blank at its start
    and holds no result marker: the group is the body. *)
Lemma re_search_marked (pre ws : string) (c : ascii) (r post : string) :
  ~ Contains query_marker pre ->
  blank ws = true ->
  isspace c = false ->
  ~ Contains result_marker (String c r) ->
  re_search (marked pre ws (String c r) post) = Some (String c r).
Proof.
  intros Hpre Hws Hc Hbody. unfold marked.
  apply re_search_skip; [exact Hpre |].
  unfold match_here. rewrite startswith_append, drop_append.
  apply blanks_then_group_body; [exact Hws | exact Hc |].
  exact (lazy_group_body (String c r) post Hbody).
Qed.

(** *** Cleaning a fenced statement *)

Lemma no_backtick_app (a b : string) :
  no_backtick (a ++ b) = no_backtick a && no_backtick b.
Proof.
  induction a as [|c a IH]; [reflexivity |].
  cbn [append no_backtick]. rewrite IH. now rewrite andb_assoc.
Qed.

Lemma no_backtick_no_fence (s : string) :
  no_backtick s = true -> ~ Contains fence s.
Proof.
  intros H. apply not_Contains. induction s as [|c s IH]; [reflexivity |].
  cbn [no_backtick] in H. apply andb_true_iff in H. destruct H as [Hc Hs].
  rewrite infixb_cons, (IH Hs), orb_false_r.
  cbn [startswith fence]. apply negb_true_iff in Hc.
  unfold backtick in Hc. now rewrite Hc.
Qed.

Lemma replace_scan_copy (old' new a b : string) :
  no_backtick a = true ->
  replace_scan (String backtick old') new 0 (a ++ b)
  = a ++ replace_scan (String backtick old') new 0 b.
Proof.
  induction a as [|c a IH]; intros H; [reflexivity |].
  cbn [no_backtick] in H. apply andb_true_iff in H. destruct H as [Hc Ha].
  cbn [append]. rewrite replace_scan_no_match.
  - now rewrite (IH Ha).
  - cbn [startswith]. apply negb_true_iff in Hc. now rewrite Hc.
Qed.

Lemma rstrip_blank (ws : string) : blank ws = true -> rstrip ws = "".
Proof.
  induction ws as [|c ws IH]; [reflexivity |]. simpl. intros H.
  apply andb_true_iff in H. destruct H as [Hc Hws].
  now rewrite (IH Hws), Hc.
Qed.

Lemma rstrip_app_blank (s ws : string) :
  blank ws = true -> rstrip (s ++ ws) = rstrip s.
Proof.
  intros H. induction s as [|c s IH].
  - simpl. now apply rstrip_blank.
  - cbn [append rstrip]. now rewrite IH.
Qed.

Lemma rstrip_app_fixed (a t : string) :
  rstrip t = t -> t <> "" -> rstrip (a ++ t) = a ++ t.
Proof.
  intros Ht Hne. induction a as [|c a IH]; [exact Ht |].
  cbn [append rstrip]. rewrite IH.
  destruct (a ++ t) eqn:E; [| reflexivity].
  destruct a; [now elim Hne | discriminate].
Qed.

Lemma trimmed_statement (s : string) :
  strip s = s -> s <> "" ->
  exists c r, s = String c r /\ isspace c = false /\ rstrip s = s.
Proof.
  intros Hs Hne. destruct s as [|c r]; [now elim Hne |].
  pose proof (strip_head _ _ _ Hs) as Hc.
  exists c, r. split; [reflexivity |]. split; [exact Hc |].
  unfold strip in Hs. cbn [lstrip] in Hs. now rewrite Hc in Hs.
Qed.

Lemma clean_fenced (statement : string) :
  no_backtick statement = true ->
  strip statement = statement ->
  statement <> "" ->
  clean (fenced statement) = statement.
Proof.
  intros Hb Hs Hne.
  destruct (trimmed_statement _ Hs Hne) as [c [r [Hcr [Hc Hr]]]].
  assert (Hmid : no_backtick (nl ++ statement ++ nl) = true).
  { rewrite !no_backtick_app, Hb. reflexivity. }
  unfold clean.
  assert (Hstrip : strip (fenced statement) = fenced statement).
  { unfold strip. change (lstrip (fenced statement)) with (fenced statement).
    unfold fenced.
    replace ("```sql" ++ nl ++ statement ++ nl ++ "```")
      with (("```sql" ++ nl ++ statement ++ nl) ++ "```")
      by (now rewrite !append_assoc).
    apply rstrip_app_fixed; [reflexivity | discriminate]. }
  rewrite Hstrip.
  assert (H1 : replace fence_sql "" (fenced statement)
               = (nl ++ statement ++ nl) ++ "```").
  { change (replace fence_sql "" (fenced statement))
      with (replace_scan fence_sql "" 0
              (fence_sql ++ (nl ++ statement ++ nl ++ "```"))).
    rewrite replace_scan_at_match by discriminate. cbn [append].
    replace (nl ++ statement ++ nl ++ "```")
      with ((nl ++ statement ++ nl) ++ "```") by (now rewrite !append_assoc).
    change fence_sql with (String backtick "``sql").
    now rewrite (replace_scan_copy _ _ _ _ Hmid). }
  rewrite H1.
  assert (H2 : replace fence "" ((nl ++ statement ++ nl) ++ "```")
               = nl ++ statement ++ nl).
  { change (replace fence "" ((nl ++ statement ++ nl) ++ "```"))
      with (replace_scan (String backtick "``") "" 0
              ((nl ++ statement ++ nl) ++ "```")).
    rewrite (replace_scan_copy _ _ _ _ Hmid).
    change (replace_scan (String backtick "``") "" 0 "```") with "".
    now rewrite append_nil_r. }
  rewrite H2. unfold strip.
  change (lstrip (nl ++ statement ++ nl)) with (lstrip (statement ++ nl)).
  rewrite Hcr. cbn [append lstrip]. rewrite Hc.
  change (String c (r ++ nl)) with (String c r ++ nl).
  rewrite rstrip_app_blank by reflexivity. now rewrite <- Hcr.
Qed.

Lemma startswith_cons (a b : ascii) (p s : string) :
  startswith (String a p) (String b s) = Ascii.eqb a b && startswith p s.
Proof. reflexivity. Qed.

Lemma fenced_has_no_result_marker (statement : string) :
  ~ Contains "SQLResult:" statement ->
  ~ Contains result_marker (fenced statement).
Proof.
  intros Hno. apply not_Contains.
  assert (Hrm : infixb result_marker statement = false).
  { apply not_Contains_infixb. intros H. apply Hno.
    exact (Contains_suffix nl "SQLResult:" statement H). }
  unfold fenced.
  change result_marker with (String (ascii_of_nat 10) "SQLResult:").
  rewrite infixb_skip_prefix by reflexivity.
  change (nl ++ statement ++ nl ++ "```")
    with (String (ascii_of_nat 10) (statement ++ String (ascii_of_nat 10) "```")).
  rewrite infixb_cons. apply orb_false_iff. split.
  - rewrite startswith_cons, Ascii.eqb_refl. cbn [andb].
    destruct (startswith "SQLResult:" (statement ++ String (ascii_of_nat 10) "```"))
      eqn:E; [| reflexivity].
    destruct statement as [|c r]; [discriminate |].
    elim Hno. apply startswith_Contains.
    exact (straddle_impossible _ _ _ _ _ (String_nonempty c r)
             (eq_refl : has_char (ascii_of_nat 10) "QLResult:" = false) E).
  - destruct (infixb (String (ascii_of_nat 10) "SQLResult:")
                (statement ++ String (ascii_of_nat 10) "```")) eqn:E;
      [| reflexivity].
    destruct (infixb_before_seam _ _ _ _ _
                (eq_refl : has_char (ascii_of_nat 10) "SQLResult:" = false) E)
      as [H | H]; [| discriminate].
    change (String (ascii_of_nat 10) "SQLResult:") with result_marker in H.
    congruence.
Qed.

(** X8. An answer in the format of the prompt gives back its statement.
    For a statement that is trimmed, not empty, free of backticks and of
    the keyword [SQLResult:], the extraction returns exactly the statement
    from the fenced statement alone, from the statement between the two
    markers, and from the fenced statement between the two markers,
    whatever precedes the query marker (as long as it does not hold the
    marker itself), whatever white space follows it and whatever follows
    the result marker. *)
Theorem answer_format_round_trip :
  forall pre blanks statement post : string,
    ~ Contains "SQLQuery:" pre ->
    blank blanks = true ->
    no_backtick statement = true ->
    strip statement = statement ->
    statement <> "" ->
    ~ Contains "SQLResult:" statement ->
    extract_sql (fenced statement) = statement
    /\ extract_sql (marked pre blanks statement post) = statement
    /\ extract_sql (marked pre blanks (fenced statement) post) = statement.
Proof.
  intros pre blanks statement post Hpre Hws Hb Hs Hne Hkw.
  destruct (trimmed_statement _ Hs Hne) as [c [r [Hcr [Hc _]]]].
  pose proof (fenced_has_no_result_marker _ Hkw) as Hfenced.
  split; [| split].
  - unfold extract_sql. rewrite (re_search_without_result_marker _ Hfenced).
    now apply clean_fenced.
  - unfold extract_sql.
    assert (Hre : re_search (marked pre blanks statement post) = Some statement).
    { rewrite Hcr. apply re_search_marked;
        [exact Hpre | exact Hws | exact Hc |].
      rewrite <- Hcr. intros H. apply Hkw.
      exact (Contains_suffix nl "SQLResult:" statement H). }
    rewrite Hre. apply clean_plain; [exact Hs |].
    now apply no_backtick_no_fence.
  - unfold extract_sql.
    assert (Hre : re_search (marked pre blanks (fenced statement) post)
                  = Some (fenced statement)).
    { change (fenced statement)
        with (String "`" ("``sql" ++ nl ++ statement ++ nl ++ "```")).
      apply re_search_marked;
        [exact Hpre | exact Hws | reflexivity | exact Hfenced]. }
    rewrite Hre. now apply clean_fenced.
Qed.

Lemma answer_format_round_trip_witness :
  extract_sql (fenced "SELECT name FROM members")
  = "SELECT name FROM members"
  /\ extract_sql (marked ("Question: who?" ++ nl) " "
                    "SELECT name FROM members" " [('Ann',)]")
     = "SELECT name FROM members"
  /\ extract_sql (marked ("Question: who?" ++ nl) " "
                    (fenced "SELECT name FROM members") " [('Ann',)]")
     = "SELECT name FROM members".
Proof.
  apply (answer_format_round_trip ("Question: who?" ++ nl) " "
           "SELECT name FROM members" " [('Ann',)]").
  - apply not_Contains. reflexivity.
  - reflexivity.
  - reflexivity.
  - reflexivity.
  - discriminate.
  - apply not_Contains. reflexivity.
Defined.

(** ** The retriever documents: rows, tables and missing labels *)

Lemma index_of_None_iff (label : string) (labels : list string) :
  index_of label labels = None <-> ~ In label labels.
Proof.
  induction labels as [|l labels IH]; simpl.
  - split; [intros _ [] | reflexivity].
  - destruct (String.eqb_spec l label) as [-> | Hne].
    + split; [discriminate | intros H; elim H; auto].
    + destruct (index_of label labels); simpl.
      * split; [discriminate |]. intros H. exfalso. apply H. right.
        apply Decidable.not_not.
        { destruct (in_dec string_dec label labels); [left | right]; assumption. }
        intros Hn. apply IH in Hn. discriminate.
      * split; [| reflexivity]. intros _ [H | H]; [congruence |].
        now apply (proj1 IH).
Qed.

Lemma row_get_None_iff (df : DataFrame) (row : list cell) (label : string) :
  row_get df row label = None <-> ~ In label (columns df).
Proof.
  unfold row_get. rewrite <- index_of_None_iff.
  destruct (index_of label (columns df)); simpl; split; congruence.
Qed.

Lemma row_document_None_iff (df : DataFrame) (row : list cell) :
  row_document df row = None
  <-> exists label,
        In label ["table_name"; "column_name"; "data_type"; "definition"]
        /\ ~ In label (columns df).
Proof.
  unfold row_document.
  destruct (row_get df row "table_name") as [t|] eqn:Et;
    [destruct (row_get df row "column_name") as [c|] eqn:Ec;
     [destruct (row_get df row "data_type") as [ty|] eqn:Ety;
      [destruct (row_get df row "definition") as [d|] eqn:Ed |] |] |].
  - split; [discriminate |]. intros [label [Hin Hno]].
    apply row_get_None_iff with (row := row) in Hno.
    simpl in Hin. destruct Hin as [<- | [<- | [<- | [<- | []]]]]; congruence.
  - split; [intros _ | reflexivity]. exists "definition".
    split; [simpl; auto | now apply (row_get_None_iff df row)].
  - split; [intros _ | reflexivity]. exists "data_type".
    split; [simpl; auto | now apply (row_get_None_iff df row)].
  - split; [intros _ | reflexivity]. exists "column_name".
    split; [simpl; auto | now apply (row_get_None_iff df row)].
  - split; [intros _ | reflexivity]. exists "table_name".
    split; [simpl; auto | now apply (row_get_None_iff df row)].
Qed.

Lemma row_documents_None_iff (df : DataFrame) (rs : list (list cell)) :
  row_documents df rs = None
  <-> rs <> []
      /\ exists label,
           In label ["table_name"; "column_name"; "data_type"; "definition"]
           /\ ~ In label (columns df).
Proof.
  induction rs as [|row rs IH]; cbn [row_documents].
  - split; [discriminate | intros [H _]; now elim H].
  - destruct (row_document df row) as [d|] eqn:E.
    + destruct (row_documents df rs) as [ds|]; simpl.
      * split; [discriminate |]. intros [_ Hex].
        apply row_document_None_iff with (row := row) in Hex. congruence.
      * split; [intros _ | reflexivity].
        split; [discriminate | exact (proj2 (proj1 IH eq_refl))].
    + split; [intros _ | reflexivity].
      split; [discriminate | now apply (row_document_None_iff df row)].
Qed.

(** X9. [init_retriever] fails with a [KeyError] exactly when the frame
    has no [table_name] column, or has at least one row and lacks one of
    the columns [column_name], [data_type] and [definition]; a frame
    without rows is never asked for those three. *)
Theorem init_retriever_key_errors :
  forall df : DataFrame,
    init_retriever df = None
    <-> ~ In "table_name" (columns df)
        \/ (rows df <> []
            /\ exists label,
                 In label ["column_name"; "data_type"; "definition"]
                 /\ ~ In label (columns df)).
Proof.
  intros df. unfold init_retriever, groupby.
  destruct (index_of "table_name" (columns df)) as [k|] eqn:Ek.
  - assert (Hin : In "table_name" (columns df)).
    { destruct (in_dec string_dec "table_name" (columns df)) as [H | H];
        [exact H |]. apply index_of_None_iff in H. congruence. }
    destruct (row_documents df (rows df)) as [ds|] eqn:Er.
    + split; [discriminate |]. intros [H | [Hne [label [Hl Hno]]]];
        [now elim H |].
      assert (row_documents df (rows df) = None); [| congruence].
      apply row_documents_None_iff. split; [exact Hne |].
      exists label. split; [simpl in *; tauto | exact Hno].
    + split; [intros _ | reflexivity]. right.
      apply row_documents_None_iff in Er.
      destruct Er as [Hne [label [Hl Hno]]]. split; [exact Hne |].
      exists label. split; [| exact Hno].
      simpl in Hl. destruct Hl as [<- | Hl]; [now elim Hno | simpl; tauto].
  - split; [intros _ | reflexivity]. left. now apply index_of_None_iff.
Qed.

Lemma row_documents_each (df : DataFrame) (rs : list (list cell))
    (ds : list Document) :
  row_documents df rs = Some ds ->
  List.length ds = List.length rs
  /\ forall i row,
       nth_error rs i = Some row ->
       exists t c ty d,
         row_get df row "table_name" = Some t
         /\ row_get df row "column_name" = Some c
         /\ row_get df row "data_type" = Some ty
         /\ row_get df row "definition" = Some d
         /\ nth_error ds i
            = Some {| page_content := row_content t c ty d;
                      metadata := combine (columns df) row |}.
Proof.
  revert ds; induction rs as [|row rs IH]; intros ds H; cbn [row_documents] in H.
  - injection H as <-. split; [reflexivity |]. intros [|i] r Hr; discriminate.
  - destruct (row_document df row) as [d0|] eqn:Ed; [| discriminate].
    destruct (row_documents df rs) as [ds0|]; [| discriminate].
    injection H as <-. destruct (IH ds0 eq_refl) as [Hlen Hnth].
    split; [simpl; now rewrite Hlen |].
    intros [|i] r Hr; simpl in Hr.
    + injection Hr as <-. unfold row_document in Ed.
      destruct (row_get df row "table_name") as [t|]; [| discriminate].
      destruct (row_get df row "column_name") as [c|]; [| discriminate].
      destruct (row_get df row "data_type") as [ty|]; [| discriminate].
      destruct (row_get df row "definition") as [d|]; [| discriminate].
      injection Ed as <-. exists t, c, ty, d. repeat split.
    + exact (Hnth i r Hr).
Qed.

(** X10. The documents of [init_retriever] are the table documents
    followed by one document per row of the frame, in row order: their
    number is the number of tables plus the number of rows, and the
    document of row [i] has the page content
    [<table_name>.<column_name>: [<data_type>] <definition>] of that row
    and the row itself, as a dict, for metadata. *)
Theorem row_documents_follow_tables :
  forall (df : DataFrame) (r : retriever),
    NoDup (columns df) ->
    init_retriever df = Some r ->
    exists k,
      index_of "table_name" (columns df) = Some k
      /\ List.length (documents r)
         = List.length (group_keys (column_values k df)) + List.length (rows df)
      /\ forall i row,
           nth_error (rows df) i = Some row ->
           exists t c ty d,
             row_get df row "table_name" = Some t
             /\ row_get df row "column_name" = Some c
             /\ row_get df row "data_type" = Some ty
             /\ row_get df row "definition" = Some d
             /\ nth_error (documents r)
                  (List.length (group_keys (column_values k df)) + i)
                = Some {| page_content :=
                            format_cell t ++ "." ++ format_cell c ++ ": ["
                            ++ format_cell ty ++ "] " ++ format_cell d;
                          metadata := combine (columns df) row |}.
Proof.
  intros df r _ Hinit. unfold init_retriever in Hinit.
  destruct (groupby "table_name" df) as [groups|] eqn:Hg; [| discriminate].
  destruct (row_documents df (rows df)) as [ds|] eqn:Hr; [| discriminate].
  injection Hinit as <-. cbn [documents].
  unfold groupby in Hg.
  destruct (index_of "table_name" (columns df)) as [k|]; [| discriminate].
  injection Hg as <-. exists k. split; [reflexivity |].
  destruct (row_documents_each _ _ _ Hr) as [Hlen Hnth].
  rewrite length_app, !length_map, Hlen. split; [reflexivity |].
  intros i row Hrow. destruct (Hnth i row Hrow) as [t [c [ty [d H]]]].
  exists t, c, ty, d. destruct H as [H1 [H2 [H3 [H4 H5]]]].
  repeat (split; [assumption |]).
  rewrite nth_error_app2 by (rewrite !length_map; lia).
  rewrite !length_map.
  replace (List.length (group_keys (column_values k df)) + i
           - List.length (group_keys (column_values k df))) with i by lia.
  exact H5.
Qed.

Lemma row_documents_follow_tables_witness :
  exists k,
    index_of "table_name" catalog_columns = Some k
    /\ List.length
         (documents
            {| documents :=
                 [table_document_of catalog_columns "items";
                  {| page_content := "items.price: [Float] Original price of the item";
                     metadata := [("table_name", Some "items");
                                  ("column_name", Some "price");
                                  ("definition", Some "Original price of the item");
                                  ("data_type", Some "Float")] |}];
               search_type := "mmr"; k := 3 |})
       = List.length
           (group_keys
              (column_values k
                 {| columns := catalog_columns;
                    rows := [[Some "items"; Some "price";
                              Some "Original price of the item"; Some "Float"]] |}))
         + List.length [[Some "items"; Some "price";
                         Some "Original price of the item"; Some "Float"]]
    /\ forall i row,
         nth_error [[Some "items"; Some "price";
                     Some "Original price of the item"; Some "Float"]] i
         = Some row ->
         exists t c ty d,
           row_get {| columns := catalog_columns;
                      rows := [[Some "items"; Some "price";
                                Some "Original price of the item"; Some "Float"]] |}
             row "table_name" = Some t
           /\ row_get {| columns := catalog_columns;
                         rows := [[Some "items"; Some "price";
                                   Some "Original price of the item"; Some "Float"]] |}
                row "column_name" = Some c
           /\ row_get {| columns := catalog_columns;
                         rows := [[Some "items"; Some "price";
                                   Some "Original price of the item"; Some "Float"]] |}
                row "data_type" = Some ty
           /\ row_get {| columns := catalog_columns;
                         rows := [[Some "items"; Some "price";
                                   Some "Original price of the item"; Some "Float"]] |}
                row "definition" = Some d
           /\ nth_error
                (documents
                   {| documents :=
                        [table_document_of catalog_columns "items";
                         {| page_content :=
                              "items.price: [Float] Original price of the item";
                            metadata := [("table_name", Some "items");
                                         ("column_name", Some "price");
                                         ("definition", Some "Original price of the item");
                                         ("data_type", Some "Float")] |}];
                      search_type := "mmr"; k := 3 |})
                (List.length
                   (group_keys
                      (column_values k
                         {| columns := catalog_columns;
                            rows := [[Some "items"; Some "price";
                                      Some "Original price of the item";
                                      Some "Float"]] |})) + i)
              = Some {| page_content :=
                          format_cell t ++ "." ++ format_cell c ++ ": ["
                          ++ format_cell ty ++ "] " ++ format_cell d;
                        metadata := combine catalog_columns row |}.
Proof.
  apply (row_documents_follow_tables
           {| columns := catalog_columns;
              rows := [[Some "items"; Some "price";
                        Some "Original price of the item"; Some "Float"]] |}).
  - repeat constructor; simpl; intuition discriminate.
  - reflexivity.
Defined.

(** *** The order of the table documents *)

Lemma ltb_iff (a b : string) : String.ltb a b = true <-> String.compare a b = Lt.
Proof. unfold String.ltb. destruct (String.compare a b); split; congruence. Qed.

Lemma ltb_trans (a b c : string) :
  String.ltb a b = true -> String.ltb b c = true -> String.ltb a c = true.
Proof.
  rewrite !ltb_iff. intros H1 H2.
  apply OrderedTypeEx.String_as_OT.cmp_lt in H1.
  apply OrderedTypeEx.String_as_OT.cmp_lt in H2.
  apply OrderedTypeEx.String_as_OT.cmp_lt.
  exact (OrderedTypeEx.String_as_OT.lt_trans _ _ _ H1 H2).
Qed.

Lemma ltb_irrefl (a : string) : String.ltb a a = false.
Proof.
  unfold String.ltb.
  assert (H : String.compare a a = Eq)
    by exact (proj2 (OrderedTypeEx.String_as_OT.cmp_eq a a) eq_refl).
  now rewrite H.
Qed.

Lemma leb_neq_ltb (x y : string) :
  String.eqb x y = false -> String.leb x y = true -> String.ltb x y = true.
Proof.
  intros Hne Hle. unfold String.leb in Hle. unfold String.ltb.
  destruct (String.compare x y) eqn:E; try reflexivity; try discriminate.
  apply String.compare_eq_iff in E. subst.
  rewrite String.eqb_refl in Hne. discriminate.
Qed.

Lemma not_leb_ltb (x y : string) :
  String.leb x y = false -> String.ltb y x = true.
Proof.
  unfold String.leb, String.ltb. rewrite (String.compare_antisym y x).
  destruct (String.compare x y); simpl; congruence.
Qed.

Lemma insert_sorted_ascending (x : string) (l : list string) :
  ascending l -> ascending (insert_sorted x l).
Proof.
  unfold ascending. induction l as [|y l IH]; intros Hs; cbn [insert_sorted].
  - repeat constructor.
  - inversion Hs as [|? ? Hl Hy]; subst.
    destruct (String.eqb x y) eqn:Exy; [exact Hs |].
    destruct (String.leb x y) eqn:Ele.
    + pose proof (leb_neq_ltb _ _ Exy Ele) as Hlt.
      constructor; [exact Hs |]. constructor; [exact Hlt |].
      rewrite Forall_forall in *. intros z Hz.
      exact (ltb_trans _ _ _ Hlt (Hy z Hz)).
    + constructor; [exact (IH Hl) |].
      rewrite Forall_forall in *. intros z Hz.
      apply In_insert_sorted in Hz. destruct Hz as [-> | Hz].
      * now apply not_leb_ltb.
      * exact (Hy z Hz).
Qed.

Lemma group_keys_ascending (values : list cell) : ascending (group_keys values).
Proof.
  induction values as [|[v|] values IH]; cbn [group_keys].
  - constructor.
  - now apply insert_sorted_ascending.
  - exact IH.
Qed.

Lemma ascending_NoDup (l : list string) : ascending l -> NoDup l.
Proof.
  unfold ascending. induction 1 as [|x l Hl IH Hx]; constructor; [| exact IH].
  intros Hin. rewrite Forall_forall in Hx. specialize (Hx x Hin).
  rewrite ltb_irrefl in Hx. discriminate.
Qed.

(** X11. The table documents of [init_retriever] come first, one for each
    distinct table name that occurs in the [table_name] column (missing
    values give none), in strictly ascending order of the table name; the
    metadata of each is the table name alone. *)
Theorem table_documents_are_sorted_and_distinct :
  forall (df : DataFrame) (r : retriever),
    NoDup (columns df) ->
    init_retriever df = Some r ->
    exists k tables,
      index_of "table_name" (columns df) = Some k
      /\ firstn (List.length tables) (documents r)
         = map (table_document_of (columns df)) tables
      /\ map metadata (firstn (List.length tables) (documents r))
         = map (fun t => [("table_name", Some t)]) tables
      /\ ascending tables
      /\ NoDup tables
      /\ (forall t, In t tables <-> In (Some t) (column_values k df)).
Proof.
  intros df r _ Hinit. unfold init_retriever in Hinit.
  destruct (groupby "table_name" df) as [groups|] eqn:Hg; [| discriminate].
  destruct (row_documents df (rows df)) as [ds|] eqn:Hr; [| discriminate].
  injection Hinit as <-. cbn [documents].
  destruct (groupby_documents _ _ _ Hg) as [k [Hk Hmap]].
  exists k, (group_keys (column_values k df)).
  split; [exact Hk |].
  assert (Hfirst :
    firstn (List.length (group_keys (column_values k df)))
      (map table_document groups ++ ds)
    = map (table_document_of (columns df)) (group_keys (column_values k df))).
  { rewrite Hmap.
    replace (List.length (group_keys (column_values k df)))
      with (List.length (map (table_document_of (columns df))
                           (group_keys (column_values k df)))
            + 0) by (rewrite length_map; lia).
    rewrite firstn_app_2. simpl. now rewrite app_nil_r. }
  split; [exact Hfirst |]. split; [rewrite Hfirst; now rewrite map_map |].
  split; [apply group_keys_ascending |].
  split; [apply ascending_NoDup, group_keys_ascending |].
  intros t. apply In_group_keys.
Qed.

Lemma table_documents_are_sorted_and_distinct_witness :
  exists k tables,
    index_of "table_name" (columns two_table_frame) = Some k
    /\ firstn (List.length tables)
         (map (table_document_of catalog_columns) ["campaigns"; "items"]
          ++ [{| page_content := "items.price: [Float] Original price of the item";
                 metadata := combine catalog_columns
                               [Some "items"; Some "price";
                                Some "Original price of the item"; Some "Float"] |};
              {| page_content := "campaigns.channel: [String] Promotion channel";
                 metadata := combine catalog_columns
                               [Some "campaigns"; Some "channel";
                                Some "Promotion channel"; Some "String"] |};
              {| page_content := "items.brand: [String] Brand of the item";
                 metadata := combine catalog_columns
                               [Some "items"; Some "brand";
                                Some "Brand of the item"; Some "String"] |}])%list
       = map (table_document_of (columns two_table_frame)) tables
    /\ map metadata
         (firstn (List.length tables)
            (map (table_document_of catalog_columns) ["campaigns"; "items"]
             ++ [{| page_content := "items.price: [Float] Original price of the item";
                    metadata := combine catalog_columns
                                  [Some "items"; Some "price";
                                   Some "Original price of the item"; Some "Float"] |};
                 {| page_content := "campaigns.channel: [String] Promotion channel";
                    metadata := combine catalog_columns
                                  [Some "campaigns"; Some "channel";
                                   Some "Promotion channel"; Some "String"] |};
                 {| page_content := "items.brand: [String] Brand of the item";
                    metadata := combine catalog_columns
                                  [Some "items"; Some "brand";
                                   Some "Brand of the item"; Some "String"] |}])%list)
       = map (fun t => [("table_name", Some t)]) tables
    /\ ascending tables
    /\ NoDup tables
    /\ (forall t, In t tables <-> In (Some t) (column_values k two_table_frame)).
Proof.
  apply (table_documents_are_sorted_and_distinct two_table_frame
           {| documents :=
                (map (table_document_of catalog_columns) ["campaigns"; "items"]
                 ++ [{| page_content := "items.price: [Float] Original price of the item";
                        metadata := combine catalog_columns
                                      [Some "items"; Some "price";
                                       Some "Original price of the item"; Some "Float"] |};
                     {| page_content := "campaigns.channel: [String] Promotion channel";
                        metadata := combine catalog_columns
                                      [Some "campaigns"; Some "channel";
                                       Some "Promotion channel"; Some "String"] |};
                     {| page_content := "items.brand: [String] Brand of the item";
                        metadata := combine catalog_columns
                                      [Some "items"; Some "brand";
                                       Some "Brand of the item"; Some "String"] |}])%list;
              search_type := "mmr"; k := 3 |}).
  - repeat constructor; simpl; intuition discriminate.
  - reflexivity.
Defined.

(** ** From the catalog to the retriever *)

Lemma append_tables_records :
  forall column_defs table_defs acc out,
    Forall catalog_record acc ->
    append_tables column_defs table_defs acc = Some out ->
    Forall catalog_record out
    /\ List.length out
       = List.length acc + List.length column_defs
         + List.length (flat_map snd column_defs).
Proof.
  induction column_defs as [|[table fields] rest IH]; intros table_defs acc out Hacc H;
    cbn [append_tables] in H.
  - injection H as <-. split; [exact Hacc | simpl; lia].
  - destruct (lookup table table_defs) as [d|]; [| discriminate].
    assert (Hacc' : Forall catalog_record
                      (acc ++ table_record table d
                           :: map (field_record table) fields)).
    { apply Forall_app. split; [exact Hacc |]. constructor.
      - now exists table, "__table__", d, "TABLE".
      - apply Forall_forall. intros r Hr. apply in_map_iff in Hr.
        destruct Hr as [f [<- _]].
        now exists table, (field_name f), (field_definition f), (field_type f). }
    destruct (IH _ _ _ Hacc' H) as [Hout Hlen].
    split; [exact Hout |]. rewrite Hlen.
    cbn [flat_map snd List.length]. rewrite !length_app.
    cbn [List.length]. rewrite length_map. lia.
Qed.

Lemma init_retriever_None_cases (df : DataFrame) :
  init_retriever df = None ->
  exists label,
    In label ["table_name"; "column_name"; "data_type"; "definition"]
    /\ ~ In label (columns df).
Proof.
  unfold init_retriever, groupby.
  destruct (index_of "table_name" (columns df)) as [k|] eqn:Ek.
  - destruct (row_documents df (rows df)) as [ds|] eqn:Er; [discriminate |].
    intros _. exact (proj2 (proj1 (row_documents_None_iff _ _) Er)).
  - intros _. exists "table_name". split; [simpl; auto |].
    now apply index_of_None_iff.
Qed.

Lemma first_appearance_seen (seen keys : list string) :
  (forall key, In key keys -> mem key seen = true) ->
  first_appearance seen keys = [].
Proof.
  induction keys as [|key keys IH]; intros H; [reflexivity |].
  cbn [first_appearance]. rewrite (H key (or_introl eq_refl)).
  apply IH. intros key' Hin. apply H. now right.
Qed.

Lemma catalog_record_keys (rs : list record) :
  Forall catalog_record rs ->
  forall key, In key (flat_map (map fst) rs) -> In key catalog_columns.
Proof.
  induction 1 as [|r rs [a [b [c [d ->]]]] _ IH]; intros key Hin; [destruct Hin |].
  cbn [flat_map] in Hin. apply in_app_or in Hin.
  destruct Hin as [Hin | Hin]; [exact Hin | exact (IH key Hin)].
Qed.

Lemma DataFrame_of_catalog_records (r0 : record) (rs : list record) :
  Forall catalog_record (r0 :: rs) ->
  columns (DataFrame_of_records (r0 :: rs)) = catalog_columns
  /\ List.length (rows (DataFrame_of_records (r0 :: rs))) = S (List.length rs)
  /\ Forall (fun row => exists a b c d, row = [Some a; Some b; Some c; Some d])
       (rows (DataFrame_of_records (r0 :: rs))).
Proof.
  intros Hall. inversion Hall as [|? ? [a [b [c [d ->]]]] Hrs]; subst.
  unfold DataFrame_of_records. cbv zeta. cbn [columns rows].
  match goal with
  | |- ?labels = _ /\ _ => assert (Hcols : labels = catalog_columns)
  end.
  { cbn [flat_map map fst app].
    match goal with
    | |- first_appearance [] (_ :: _ :: _ :: _ :: ?rest) = _ =>
        change (first_appearance []
                  ("table_name" :: "column_name" :: "definition" :: "data_type"
                   :: rest))
          with ("table_name" :: "column_name" :: "definition" :: "data_type"
                :: first_appearance
                     ["data_type"; "definition"; "column_name"; "table_name"]
                     rest)
    end.
    rewrite first_appearance_seen; [reflexivity |].
    intros key Hin. pose proof (catalog_record_keys rs Hrs key Hin) as Hk.
    simpl in Hk. destruct Hk as [<- | [<- | [<- | [<- | []]]]]; reflexivity. }
  rewrite !Hcols.
  split; [reflexivity |]. split; [now rewrite length_map |].
  apply Forall_forall. intros row Hrow. apply in_map_iff in Hrow.
  destruct Hrow as [r [<- Hr]]. rewrite Forall_forall in Hall.
  destruct (Hall r Hr) as [a' [b' [c' [d' ->]]]].
  now exists a', b', c', d'.
Qed.

(** X12. The frame of the catalog always suits the retriever.  Whatever
    the two dictionaries of [create_schema] hold, when its loop finishes
    (every table has a definition) on a catalog of at least one table, the
    frame has exactly the columns [table_name], [column_name],
    [definition], [data_type], one row per table plus one per field, no
    missing cell, and [init_retriever] builds its documents from it
    without a [KeyError]; on an empty catalog the frame has no column and
    [init_retriever] fails with the [KeyError] of [table_name]. *)
Theorem catalog_frame_feeds_retriever :
  forall (column_defs : list (string * list field))
         (table_defs : list (string * string)) (records : list record),
    append_tables column_defs table_defs [] = Some records ->
    (column_defs = [] ->
     columns (DataFrame_of_records records) = []
     /\ init_retriever (DataFrame_of_records records) = None)
    /\ (column_defs <> [] ->
        columns (DataFrame_of_records records) = catalog_columns
        /\ List.length (rows (DataFrame_of_records records))
           = List.length column_defs + List.length (flat_map snd column_defs)
        /\ Forall (fun row => exists a b c d, row = [Some a; Some b; Some c; Some d])
             (rows (DataFrame_of_records records))
        /\ exists r,
             init_retriever (DataFrame_of_records records) = Some r
             /\ List.length (documents r)
                = List.length
                    (group_keys (column_values 0 (DataFrame_of_records records)))
                  + List.length (rows (DataFrame_of_records records))).
Proof.
  intros column_defs table_defs records H.
  destruct (append_tables_records _ _ _ _ (Forall_nil _) H) as [Hall Hlen].
  split.
  - intros ->. cbn [append_tables] in H. injection H as <-.
    split; reflexivity.
  - intros Hne. destruct records as [|r0 rs].
    + destruct column_defs; [now elim Hne | simpl in Hlen; lia].
    + destruct (DataFrame_of_catalog_records r0 rs Hall) as [Hcols [Hrows Hcells]].
      split; [exact Hcols |].
      split; [rewrite Hrows; simpl in Hlen; lia |].
      split; [exact Hcells |].
      destruct (init_retriever (DataFrame_of_records (r0 :: rs))) as [r|] eqn:Hinit.
      * exists r. split; [reflexivity |].
        unfold init_retriever, groupby in Hinit. rewrite Hcols in Hinit.
        cbn [index_of catalog_columns String.eqb option_map] in Hinit.
        change (index_of "table_name" catalog_columns) with (Some 0) in Hinit.
        destruct (row_documents (DataFrame_of_records (r0 :: rs))
                    (rows (DataFrame_of_records (r0 :: rs)))) as [ds|] eqn:Hr;
          [| discriminate].
        injection Hinit as <-. cbn [documents].
        rewrite length_app, !length_map.
        now rewrite (proj1 (row_documents_each _ _ _ Hr)).
      * exfalso. apply init_retriever_None_cases in Hinit.
        rewrite Hcols in Hinit. destruct Hinit as [label [Hl Hno]].
        apply Hno. simpl in Hl. simpl. tauto.
Qed.

Lemma catalog_frame_feeds_retriever_witness :
  columns (DataFrame_of_records tiny_records) = catalog_columns
  /\ List.length (rows (DataFrame_of_records tiny_records))
     = List.length tiny_column_definitions
       + List.length (flat_map snd tiny_column_definitions)
  /\ Forall (fun row => exists a b c d, row = [Some a; Some b; Some c; Some d])
       (rows (DataFrame_of_records tiny_records))
  /\ exists r,
       init_retriever (DataFrame_of_records tiny_records) = Some r
       /\ List.length (documents r)
          = List.length
              (group_keys (column_values 0 (DataFrame_of_records tiny_records)))
            + List.length (rows (DataFrame_of_records tiny_records)).
Proof.
  apply (proj2 (catalog_frame_feeds_retriever
                  tiny_column_definitions tiny_table_definitions tiny_records
                  eq_refl)).
  discriminate.
Defined.

(** ** The generators of [src/database.py] *)

Section DatabaseFacts.

Import Database DatabaseSpec.

Context {World : Type} (src : source World).

Lemma run_ret {A : Type} (a : A) (st : state World) Q E :
  Q a st -> run (ret a) st Q E.
Proof. intros H. exact H. Qed.

Lemma run_raise {A : Type} (e : exn) (st : state World)
    (Q : A -> state World -> Prop) E :
  E e st -> run (raise e) st Q E.
Proof. intros H. exact H. Qed.

Lemma run_bind {A B : Type} (c : M World A) (k : A -> M World B) st Q E :
  run c st (fun a st1 => run (k a) st1 Q E) E -> run (bind c k) st Q E.
Proof.
  unfold run, bind. destruct (c st) as [[a | e] st1]; intros H; exact H.
Qed.

Lemma run_weaken {A : Type} (c : M World A) st (Q Q' : A -> state World -> Prop)
    (E E' : exn -> state World -> Prop) :
  run c st Q E ->
  (forall a st', Q a st' -> Q' a st') ->
  (forall e st', E e st' -> E' e st') ->
  run c st Q' E'.
Proof.
  unfold run. destruct (c st) as [[a | e] st1]; intros H HQ HE; auto.
Qed.

Lemma run_draw {A : Type} (f : World -> A * World) st
    (Q : A -> state World -> Prop) E :
  (forall a w, Q a {| world := w; session := session st |}) ->
  run (draw f) st Q E.
Proof.
  intros H. unfold run, draw. destruct (f (world st)) as [a w]. apply H.
Qed.

Lemma run_call (c : session_call) (st : state World) Q E :
  Q tt {| world := world st; session := session st ++ [c] |} ->
  run (call c) st Q E.
Proof. intros H. exact H. Qed.

Lemma run_attempt {A : Type} (f : World -> (A + exn) * World) st
    (Q : A -> state World -> Prop) (E : exn -> state World -> Prop) :
  (forall a w, Q a {| world := w; session := session st |}) ->
  (forall e w, (exists w0, fst (f w0) = inr e) ->
               E e {| world := w; session := session st |}) ->
  run (attempt f) st Q E.
Proof.
  intros HQ HE. unfold run, attempt.
  destruct (f (world st)) as [[a | e] w] eqn:Hf; [apply HQ | apply HE].
  exists (world st). now rewrite Hf.
Qed.

Lemma run_writing (c : session_call)
    (write : list session_call -> World -> option exn * World) st
    (Q : unit -> state World -> Prop) (E : exn -> state World -> Prop) :
  (forall w, Q tt {| world := w; session := session st ++ [c] |}) ->
  (forall e w, (exists calls w0, fst (write calls w0) = Some e) ->
               E e {| world := w; session := session st ++ [c] |}) ->
  run (writing c write) st Q E.
Proof.
  intros HQ HE. unfold run, writing.
  destruct (write (session st) (world st)) as [[e |] w] eqn:Hw;
    [apply HE | apply HQ].
  exists (session st), (world st). now rewrite Hw.
Qed.

Lemma run_choice {A : Type} (seq : list A) st (Q : A -> state World -> Prop) E :
  (seq = [] -> E IndexError st) ->
  (forall x w, In x seq -> Q x {| world := w; session := session st |}) ->
  run (choice src seq) st Q E.
Proof.
  intros Hempty Hin. destruct seq as [| x xs].
  - apply run_raise. now apply Hempty.
  - unfold choice. apply run_bind, run_draw. intros k w. apply run_ret.
    apply Hin. apply nth_In. apply Nat.mod_upper_bound. discriminate.
Qed.

Lemma run_randint (a b : Z) st (Q : Z -> state World -> Prop) E :
  (a <= b)%Z ->
  (forall z w, (a <= z <= b)%Z -> Q z {| world := w; session := session st |}) ->
  run (randint src a b) st Q E.
Proof.
  intros Hab H. unfold randint. apply run_bind, run_draw. intros k w.
  apply run_ret. apply H.
  assert (Hlt : k mod Z.to_nat (b - a + 1) < Z.to_nat (b - a + 1)).
  { apply Nat.mod_upper_bound. lia. }
  lia.
Qed.

Lemma run_sample {A : Type} (population : list A) (k : Z) st
    (Q : list A -> state World -> Prop) E :
  ((k < 0 \/ Z.of_nat (List.length population) < k)%Z -> E ValueError st) ->
  ((0 <= k <= Z.of_nat (List.length population))%Z ->
   forall positions w,
     (sample_contract src ->
      List.length positions = Z.to_nat k
      /\ NoDup positions
      /\ Forall (fun p => p < List.length population) positions) ->
     Q (pick population positions) {| world := w; session := session st |}) ->
  run (sample src population k) st Q E.
Proof.
  intros Herr Hok. unfold sample.
  destruct ((k <? 0)%Z || (Z.of_nat (List.length population) <? k)%Z) eqn:Hk.
  - apply run_raise. apply Herr.
    apply orb_true_iff in Hk. destruct Hk as [Hk | Hk];
      [left; apply Z.ltb_lt in Hk | right; apply Z.ltb_lt in Hk]; exact Hk.
  - apply orb_false_iff in Hk. destruct Hk as [Hk1 Hk2].
    apply Z.ltb_ge in Hk1. apply Z.ltb_ge in Hk2.
    apply run_bind. unfold run, draw.
    destruct (sample_positions src (List.length population) (Z.to_nat k) (world st))
      as [positions w] eqn:Hdraw.
    apply Hok; [lia |].
    intros Hcontract.
    specialize (Hcontract (List.length population) (Z.to_nat k) (world st)).
    rewrite Hdraw in Hcontract. apply Hcontract. lia.
Qed.

Lemma run_returns {A : Type} (c : M World A) st (Q : A -> state World -> Prop) :
  run c st Q never -> exists a st', c st = (inl a, st') /\ Q a st'.
Proof.
  unfold run, never. destruct (c st) as [[a | e] st1]; intros H.
  - now exists a, st1.
  - destruct H.
Qed.

Lemma run_ensures {A : Type} (c : M World A) st (Q : A -> state World -> Prop) :
  run c st Q whatever -> forall a st', c st = (inl a, st') -> Q a st'.
Proof.
  unfold run. intros H a st' Hc. rewrite Hc in H. exact H.
Qed.

Lemma range_from_snoc (n : nat) :
  forall a, range_from a (S n) = (range_from a n ++ [(a + Z.of_nat n)%Z])%list.
Proof.
  induction n as [| n IH]; intros a.
  - cbn. now rewrite Z.add_0_r.
  - change (range_from a (S (S n))) with (a :: range_from (a + 1) (S n)).
    rewrite IH. cbn [range_from app]. do 3 f_equal. lia.
Qed.

Lemma In_range_from (n : nat) :
  forall a z, In z (range_from a n) <-> (a <= z < a + Z.of_nat n)%Z.
Proof.
  induction n as [| n IH]; intros a z; cbn [range_from In].
  - split; [intros [] | lia].
  - rewrite IH. lia.
Qed.

Lemma length_range_from (n : nat) : forall a, List.length (range_from a n) = n.
Proof.
  induction n as [| n IH]; intros a; cbn; [reflexivity | now rewrite IH].
Qed.

Lemma NoDup_range_from (n : nat) : forall a, NoDup (range_from a n).
Proof.
  induction n as [| n IH]; intros a; cbn [range_from]; constructor.
  - rewrite In_range_from. lia.
  - apply IH.
Qed.

Lemma new_member_run (i : Z) (members : list Member.t) st :
  run (new_member src i members) st
    (fun m st' =>
       Member.member_id m = i
       /\ (forall r, Member.referrer_id m = Some r ->
                     In r (map Member.member_id members) /\ r <> i)
       /\ In (Member.member_level m) member_levels
       /\ In (Member.gender m) genders
       /\ (1960 <= Member.birth_year m <= 2007)%Z
       /\ In (Member.country m) countries
       /\ session st' = session st)
    (fun e st' => email_raises src e /\ session st' = session st).
Proof.
  unfold new_member. cbv zeta. apply run_bind.
  assert (Href : forall r,
             In r (map Member.member_id
                     (filter (fun m => negb (Member.member_id m =? i)%Z) members)) ->
             In r (map Member.member_id members) /\ r <> i).
  { intros r Hr. apply in_map_iff in Hr. destruct Hr as [m [Hm Hin]].
    apply filter_In in Hin. destruct Hin as [Hin Hne]. split.
    - apply in_map_iff. now exists m.
    - apply negb_true_iff, Z.eqb_neq in Hne. congruence. }
  set (Q := fun (referrer : option Z) (st1 : state World) =>
              (forall r, referrer = Some r ->
                         In r (map Member.member_id members) /\ r <> i)
              /\ session st1 = session st).
  apply run_weaken with (Q := Q) (E := never); [| | intros e s []].
  - destruct (map Member.member_id
                (filter (fun m => negb (Member.member_id m =? i)%Z) members))
      as [| r0 rs] eqn:Hrefs.
    + apply run_ret. split; [discriminate | reflexivity].
    + apply run_bind, run_draw. intros [|] w.
      * apply run_bind, run_choice; [discriminate |]. intros r w' Hr.
        apply run_ret. split; [| reflexivity].
        intros r' Hr'. injection Hr' as <-. now apply Href.
      * apply run_ret. split; [discriminate | reflexivity].
  - intros referrer st1 [Hreferrer Hs1].
    apply run_bind, run_draw. intros name w2.
    apply run_bind, run_attempt; [| intros e w3 He; now split].
    intros mail w3.
    apply run_bind, run_draw. intros joined w4.
    apply run_bind, run_choice; [discriminate |]. intros level w5 Hlevel.
    apply run_bind, run_choice; [discriminate |]. intros sex w6 Hsex.
    apply run_bind, run_randint; [lia |]. intros year w7 Hyear.
    apply run_bind, run_choice; [discriminate |]. intros land w8 Hland.
    apply run_bind, run_draw. intros active w9.
    apply run_ret. cbn.
    split; [reflexivity |]. split; [exact Hreferrer |]. now repeat split.
Qed.

Lemma members_loop_run (len : nat) :
  forall (k : nat) (members : list Member.t) st,
    map Member.member_id members = range_from 1 k ->
    Forall member_ok members ->
    run (members_loop src (range_from (1 + Z.of_nat k) len) members) st
      (fun ms st' =>
         map Member.member_id ms = range_from 1 (k + len)
         /\ Forall member_ok ms
         /\ session st' = session st)
      (fun e st' => email_raises src e /\ session st' = session st).
Proof.
  induction len as [| len IH]; intros k members st Hids Hok.
  - apply run_ret. rewrite Nat.add_0_r. now repeat split.
  - cbn [range_from members_loop]. apply run_bind.
    eapply run_weaken; [apply new_member_run | | intros e s H; exact H].
    intros m st1 (Hid & Href & Hlevel & Hsex & Hyear & Hland & Hs1). cbv beta.
    replace (1 + Z.of_nat k + 1)%Z with (1 + Z.of_nat (S k))%Z by lia.
    eapply run_weaken; [apply (IH (S k)) | | ].
    + rewrite map_app, Hids, range_from_snoc. cbn. now rewrite Hid.
    + apply Forall_app. split; [exact Hok |]. constructor; [| constructor].
      split; [| now repeat split].
      intros r Hr. destruct (Href r Hr) as [Hin _]. rewrite Hids in Hin.
      apply In_range_from in Hin. lia.
    + intros ms st' (Hms & Hall & Hs'). cbv beta.
      replace (k + S len) with (S k + len) by lia.
      split; [exact Hms |]. split; [exact Hall |]. congruence.
    + intros e s [He Hs]. split; [exact He | congruence].
Qed.

Lemma generate_members_run (num_members : Z) st :
  run (generate_members src num_members) st
    (fun ms st' =>
       map Member.member_id ms = range_from 1 (Z.to_nat num_members)
       /\ Forall member_ok ms
       /\ session st'
          = (session st
             ++ [AddAll (map RMember (range_from 1 (Z.to_nat num_members)))])%list)
    (fun e st' => email_raises src e /\ session st' = session st).
Proof.
  unfold generate_members. apply run_bind.
  eapply run_weaken;
    [apply (members_loop_run (Z.to_nat num_members) 0 [] st);
       [reflexivity | constructor] | | intros e s H; exact H].
  intros ms st1 (Hids & Hok & Hs1). cbv beta.
  apply run_bind, run_call, run_ret. cbn [session Nat.add] in *.
  split; [exact Hids |]. split; [exact Hok |].
  rewrite Hs1, <- Hids, map_map. reflexivity.
Qed.

(** X13. [generate_members] raises nothing but what
    [fake.unique.email()] raises, and then before any session call; with
    an email provider that does not raise it always returns.  The
    members it returns are numbered 1, 2, ... in order; a member's
    referrer, when there is one, is an earlier member (so the first
    member has none and nobody refers themselves); level, gender,
    country and birth year are in their ranges; the one session call is
    [add_all] of these members. *)
Theorem generated_members_are_consistent (num_members : Z) (st : state World) :
  match generate_members src num_members st with
  | (inl ms, st') =>
      map Member.member_id ms = range_from 1 (Z.to_nat num_members)
      /\ Forall member_ok ms
      /\ session st'
         = (session st
            ++ [AddAll (map RMember (range_from 1 (Z.to_nat num_members)))])%list
  | (inr e, st') => email_raises src e /\ session st' = session st
  end
  /\ ((forall e, ~ email_raises src e) ->
      exists ms st', generate_members src num_members st = (inl ms, st')).
Proof.
  pose proof (generate_members_run num_members st) as H. unfold run in H.
  split; [exact H |].
  intros Hnever.
  destruct (generate_members src num_members st) as [[ms | e] st'].
  - now exists ms, st'.
  - destruct (Hnever e (proj1 H)).
Qed.

Lemma category_entry (category : string) :
  In category (map fst category_structure) ->
  exists subcategories brands,
    Schema.lookup category category_structure = Some (subcategories, brands)
    /\ In (category, (subcategories, brands)) category_structure
    /\ subcategories <> []
    /\ brands <> [].
Proof.
  intros Hin. cbn [map fst category_structure] in Hin.
  repeat (destruct Hin as [<- | Hin];
          [eexists; eexists; split; [reflexivity |];
             split; [cbn [In category_structure]; auto 10 |];
             split; discriminate |]).
  destruct Hin.
Qed.

Lemma new_item_run (i : Z) st :
  run (new_item src i) st
    (fun x st' => Item.item_id x = i /\ item_ok x /\ session st' = session st)
    never.
Proof.
  unfold new_item.
  apply run_bind, run_choice; [discriminate |]. intros category w1 Hcategory.
  destruct (category_entry category Hcategory)
    as (subcategories & brands & Hlookup & Hentry & Hsubs & Hbrands).
  rewrite Hlookup.
  apply run_bind, run_ret.
  apply run_bind, run_choice; [intros H; now apply Hsubs in H |].
  intros subcategory w2 Hsub.
  apply run_bind, run_choice; [intros H; now apply Hbrands in H |].
  intros brand w3 Hbrand.
  apply run_bind, run_draw. intros word1 w4.
  apply run_bind, run_draw. intros word2 w5.
  apply run_bind, run_draw. intros price w6.
  apply run_bind, run_randint; [lia |]. intros stock w7 Hstock.
  apply run_bind, run_draw. intros rating w8.
  apply run_bind, run_choice; [discriminate |]. intros active w9 _.
  apply run_bind, run_draw. intros created w10.
  apply run_ret. cbn.
  split; [reflexivity |]. split; [| reflexivity].
  split; [| exact Hstock]. now exists subcategories, brands.
Qed.

Lemma items_loop_run (len : nat) :
  forall (k : nat) (items : list Item.t) st,
    map Item.item_id items = range_from 1 k ->
    Forall item_ok items ->
    run (items_loop src (range_from (1 + Z.of_nat k) len) items) st
      (fun xs st' =>
         map Item.item_id xs = range_from 1 (k + len)
         /\ Forall item_ok xs
         /\ session st' = session st)
      never.
Proof.
  induction len as [| len IH]; intros k items st Hids Hok.
  - apply run_ret. rewrite Nat.add_0_r. now repeat split.
  - cbn [range_from items_loop]. apply run_bind.
    eapply run_weaken; [apply new_item_run | | auto].
    intros x st1 (Hid & Hx & Hs1). cbv beta.
    replace (1 + Z.of_nat k + 1)%Z with (1 + Z.of_nat (S k))%Z by lia.
    eapply run_weaken; [apply (IH (S k)) | | auto].
    + rewrite map_app, Hids, range_from_snoc. cbn. now rewrite Hid.
    + apply Forall_app. split; [exact Hok |]. now constructor.
    + intros xs st' (Hxs & Hall & Hs'). cbv beta.
      replace (k + S len) with (S k + len) by lia.
      split; [exact Hxs |]. split; [exact Hall |]. congruence.
Qed.

Lemma generate_items_run (num_items : Z) st :
  run (generate_items src num_items) st
    (fun xs st' =>
       map Item.item_id xs = range_from 1 (Z.to_nat num_items)
       /\ Forall item_ok xs
       /\ session st'
          = (session st
             ++ [AddAll (map RItem (range_from 1 (Z.to_nat num_items)))])%list)
    never.
Proof.
  unfold generate_items. apply run_bind.
  eapply run_weaken;
    [apply (items_loop_run (Z.to_nat num_items) 0 [] st);
       [reflexivity | constructor] | | auto].
  intros xs st1 (Hids & Hok & Hs1). cbv beta.
  apply run_bind, run_call, run_ret. cbn [session Nat.add] in *.
  split; [exact Hids |]. split; [exact Hok |].
  rewrite Hs1, <- Hids, map_map. reflexivity.
Qed.

(** X14. [generate_items] never raises: the category drawn is a key of
    [category_structure], and no list it chooses from is empty.  The
    items it returns are numbered 1, 2, ... in order; the subcategory and
    the brand of an item are listed under the item's category; the stock
    is between 0 and 500; the one session call is [add_all] of these
    items. *)
Theorem generated_items_match_their_category (num_items : Z) (st : state World) :
  exists xs st',
    generate_items src num_items st = (inl xs, st')
    /\ map Item.item_id xs = range_from 1 (Z.to_nat num_items)
    /\ Forall item_ok xs
    /\ session st'
       = (session st
          ++ [AddAll (map RItem (range_from 1 (Z.to_nat num_items)))])%list.
Proof.
  apply run_returns. apply generate_items_run.
Qed.

Lemma new_campaign_run (i : Z) st :
  run (new_campaign src i) st
    (fun c st' => Campaign.campaign_id c = i /\ campaign_ok c
                  /\ session st' = session st)
    never.
Proof.
  unfold new_campaign.
  apply run_bind, run_draw. intros start w1.
  apply run_bind, run_randint; [lia |]. intros days w2 Hdays.
  apply run_bind, run_draw. intros word w3.
  apply run_bind, run_draw. intros discount w4.
  apply run_bind, run_choice; [discriminate |]. intros channel w5 Hchannel.
  apply run_bind, run_draw. intros sentence w6.
  apply run_ret. cbn.
  split; [reflexivity |]. split; [| reflexivity].
  split; [| exact Hchannel]. now exists days.
Qed.

Lemma campaigns_loop_run (len : nat) :
  forall (k : nat) (campaigns : list Campaign.t) st,
    map Campaign.campaign_id campaigns = range_from 1 k ->
    Forall campaign_ok campaigns ->
    run (campaigns_loop src (range_from (1 + Z.of_nat k) len) campaigns) st
      (fun cs st' =>
         map Campaign.campaign_id cs = range_from 1 (k + len)
         /\ Forall campaign_ok cs
         /\ session st' = session st)
      never.
Proof.
  induction len as [| len IH]; intros k campaigns st Hids Hok.
  - apply run_ret. rewrite Nat.add_0_r. now repeat split.
  - cbn [range_from campaigns_loop]. apply run_bind.
    eapply run_weaken; [apply new_campaign_run | | auto].
    intros c st1 (Hid & Hc & Hs1). cbv beta.
    replace (1 + Z.of_nat k + 1)%Z with (1 + Z.of_nat (S k))%Z by lia.
    eapply run_weaken; [apply (IH (S k)) | | auto].
    + rewrite map_app, Hids, range_from_snoc. cbn. now rewrite Hid.
    + apply Forall_app. split; [exact Hok |]. now constructor.
    + intros cs st' (Hcs & Hall & Hs'). cbv beta.
      replace (k + S len) with (S k + len) by lia.
      split; [exact Hcs |]. split; [exact Hall |]. congruence.
Qed.

Lemma generate_campaigns_run (num_campaigns : Z) st :
  run (generate_campaigns src num_campaigns) st
    (fun cs st' =>
       map Campaign.campaign_id cs = range_from 1 (Z.to_nat num_campaigns)
       /\ Forall campaign_ok cs
       /\ session st'
          = (session st
             ++ [AddAll (map RCampaign (range_from 1 (Z.to_nat num_campaigns)))])%list)
    never.
Proof.
  unfold generate_campaigns. apply run_bind.
  eapply run_weaken;
    [apply (campaigns_loop_run (Z.to_nat num_campaigns) 0 [] st);
       [reflexivity | constructor] | | auto].
  intros cs st1 (Hids & Hok & Hs1). cbv beta.
  apply run_bind, run_call, run_ret. cbn [session Nat.add] in *.
  split; [exact Hids |]. split; [exact Hok |].
  rewrite Hs1, <- Hids, map_map. reflexivity.
Qed.

(** X15. [generate_campaigns] never raises.  The campaigns it returns
    are numbered 1, 2, ... in order; each ends a whole number of days
    after it starts, at least 7 and at most 30; its channel is one of the
    four of the source; the one session call is [add_all] of these
    campaigns. *)
Theorem generated_campaigns_last_a_week_to_a_month (num_campaigns : Z)
    (st : state World) :
  exists cs st',
    generate_campaigns src num_campaigns st = (inl cs, st')
    /\ map Campaign.campaign_id cs = range_from 1 (Z.to_nat num_campaigns)
    /\ Forall campaign_ok cs
    /\ session st'
       = (session st
          ++ [AddAll (map RCampaign (range_from 1 (Z.to_nat num_campaigns)))])%list.
Proof.
  apply run_returns. apply generate_campaigns_run.
Qed.

Lemma In_pick {A : Type} (population : list A) (positions : list nat) (x : A) :
  In x (pick population positions) ->
  exists p, In p positions /\ nth_error population p = Some x.
Proof.
  unfold pick. intros H. apply in_flat_map in H. destruct H as [p [Hp Hx]].
  exists p. split; [exact Hp |].
  destruct (nth_error population p) as [y |].
  - destruct Hx as [<- | []]. reflexivity.
  - destruct Hx.
Qed.

Lemma length_pick {A : Type} (population : list A) (positions : list nat) :
  Forall (fun p => p < List.length population) positions ->
  List.length (pick population positions) = List.length positions.
Proof.
  unfold pick. induction 1 as [| p ps Hp _ IH]; [reflexivity |].
  cbn [flat_map]. rewrite length_app, IH.
  destruct (nth_error population p) eqn:Hn; [reflexivity |].
  apply nth_error_None in Hn. lia.
Qed.

Lemma NoDup_pick {A B : Type} (f : A -> B) (population : list A)
    (positions : list nat) :
  NoDup positions ->
  Forall (fun p => p < List.length population) positions ->
  NoDup (map f population) ->
  NoDup (map f (pick population positions)).
Proof.
  intros Hnd Hall Hf. induction positions as [| p ps IH]; [constructor |].
  inversion Hnd as [| ? ? Hp Hps]; subst.
  inversion Hall as [| ? ? Hlt Hall']; subst.
  destruct (nth_error population p) as [x |] eqn:Hx;
    [| apply nth_error_None in Hx; lia].
  change (pick population (p :: ps))
    with ((match nth_error population p with
           | Some x => [x]
           | None => []
           end ++ pick population ps)%list).
  rewrite Hx. cbn [app map]. constructor; [| now apply IH].
  intros Hin. apply in_map_iff in Hin. destruct Hin as [y [Hy Hin]].
  apply In_pick in Hin. destruct Hin as [q [Hq Hnq]].
  assert (Hpq : p = q).
  { apply (proj1 (NoDup_nth_error (map f population)) Hf).
    - rewrite length_map. exact Hlt.
    - rewrite !nth_error_map, Hx, Hnq. cbn. now rewrite Hy. }
  subst q. contradiction.
Qed.

Lemma lines_loop_run (tid : Z) (selected : list Item.t) :
  forall total acc st E,
    run (lines_loop src tid selected total acc) st
      (fun r st' =>
         exists new,
           snd r = (acc ++ new)%list
           /\ map TransactionItem.item_id new = map Item.item_id selected
           /\ Forall (line_ok selected tid) new
           /\ session st' = session st)
      E.
Proof.
  induction selected as [| item rest IH]; intros total acc st E.
  - apply run_ret. exists []. cbn. rewrite app_nil_r.
    split; [reflexivity |]. split; [reflexivity |]. split; [constructor | reflexivity].
  - cbn [lines_loop]. apply run_bind, run_randint; [lia |]. intros q w Hq.
    cbv zeta. eapply run_weaken; [apply (IH _ _ _ E) | | auto].
    intros r st' (new & Hsnd & Hids & Hall & Hs). cbv beta.
    eexists (_ :: new). split; [rewrite Hsnd, <- app_assoc; reflexivity |].
    split; [cbn; now rewrite Hids |]. split; [| exact Hs].
    constructor.
    + split; [reflexivity |]. split; [exact Hq |]. exists item.
      split; [now left |]. split; reflexivity.
    + eapply Forall_impl; [| exact Hall].
      intros x (H1 & H2 & y & Hy & H3). split; [exact H1 |]. split; [exact H2 |].
      exists y. split; [now right | exact H3].
Qed.

Lemma new_transaction_run (i : Z) (members : list Member.t)
    (items : list Item.t) (campaigns : list Campaign.t)
    (acc : list TransactionItem.t) st (E : exn -> state World -> Prop) :
  (members = [] -> forall s, E IndexError s) ->
  (campaigns = [] -> forall s, E IndexError s) ->
  (List.length items < 3 -> forall s, E ValueError s) ->
  (forall e s, flush_raises src e -> E e s) ->
  run (new_transaction src i members items campaigns acc) st
    (fun r st' =>
       Transaction.transaction_id (fst r) = i
       /\ transaction_ok members campaigns (fst r)
       /\ (exists new,
             snd r = (acc ++ new)%list
             /\ Forall (line_ok items i) new
             /\ (sample_contract src ->
                 1 <= List.length new <= 3
                 /\ (NoDup (map Item.item_id items) ->
                     NoDup (map TransactionItem.item_id new))))
       /\ session st' = (session st ++ add_and_flush i)%list)
    E.
Proof.
  intros Hm Hc Hi Hf. unfold new_transaction.
  apply run_bind, run_choice; [intros H; now apply Hm |].
  intros member w1 Hmember.
  apply run_bind, run_draw. intros hit w2.
  apply run_bind.
  apply run_weaken
    with (Q := fun campaign st1 =>
                 (forall c, campaign = Some c -> In c campaigns)
                 /\ session st1 = session st)
         (E := E); [| | auto].
  - destruct hit.
    + apply run_bind, run_choice; [intros H; now apply Hc |]. intros c w3 Hin.
      apply run_ret. split; [| reflexivity].
      intros c' Hc'. injection Hc' as <-. exact Hin.
    + apply run_ret. split; [discriminate | reflexivity].
  - intros campaign st1 [Hcampaign Hs1]. cbv zeta.
    apply run_bind, run_choice; [discriminate |]. intros method w4 Hmethod.
    apply run_bind, run_draw. intros time w5.
    apply run_bind, run_call.
    apply run_bind, run_writing; [intros wf | intros e wf He; now apply Hf].
    apply run_bind, run_randint; [lia |]. intros k w6 Hk.
    apply run_bind, run_sample.
    + intros Hbad. apply Hi. lia.
    + intros Hrange positions w7 Hcontract.
      apply run_bind.
      eapply run_weaken; [apply (lines_loop_run _ _ _ _ _ E) | | auto].
      intros r st' (new & Hsnd & Hids & Hall & Hs). apply run_ret.
      cbn [fst snd Transaction.transaction_id session] in *.
      split; [reflexivity |]. split; [| split].
      * split; [| split].
        -- exists member. now split.
        -- cbn. destruct campaign as [c |].
           ++ right. exists c. split; [now apply Hcampaign | now split].
           ++ left. now split.
        -- exact Hmethod.
      * exists new. split; [exact Hsnd |]. split.
        -- eapply Forall_impl; [| exact Hall].
           intros x (H1 & H2 & y & Hy & H3). split; [exact H1 |].
           split; [exact H2 |]. exists y. split; [| exact H3].
           apply In_pick in Hy. destruct Hy as [p [_ Hp]].
           now apply nth_error_In in Hp.
        -- intros Hsc. destruct (Hcontract Hsc) as (Hlen & Hnd & Hlt). split.
           ++ rewrite <- (length_map TransactionItem.item_id new), Hids,
                length_map, (length_pick _ _ Hlt), Hlen. lia.
           ++ intros Hitems. rewrite Hids. now apply NoDup_pick.
      * rewrite Hs, Hs1, <- app_assoc. reflexivity.
Qed.

Lemma lines_of_own (i : Z) (l : list TransactionItem.t) :
  Forall (fun x => TransactionItem.transaction_id x = i) l -> lines_of i l = l.
Proof.
  unfold lines_of. induction 1 as [| x l Hx _ IH]; [reflexivity |].
  cbn [filter]. rewrite Hx, Z.eqb_refl, IH. reflexivity.
Qed.

Lemma lines_of_other (i : Z) (l : list TransactionItem.t) :
  Forall (fun x => TransactionItem.transaction_id x <> i) l -> lines_of i l = [].
Proof.
  unfold lines_of. induction 1 as [| x l Hx _ IH]; [reflexivity |].
  cbn [filter]. apply Z.eqb_neq in Hx. rewrite Hx. exact IH.
Qed.

Lemma transactions_loop_run (members : list Member.t) (items : list Item.t)
    (campaigns : list Campaign.t) (E : exn -> state World -> Prop)
    (indices : list Z) :
  (members = [] -> forall s, E IndexError s) ->
  (campaigns = [] -> forall s, E IndexError s) ->
  (List.length items < 3 -> forall s, E ValueError s) ->
  (forall e s, flush_raises src e -> E e s) ->
  forall ts tis st,
    run (transactions_loop src indices members items campaigns ts tis) st
      (fun r st' =>
         exists new_ts new_tis,
           fst r = (ts ++ new_ts)%list
           /\ snd r = (tis ++ new_tis)%list
           /\ map Transaction.transaction_id new_ts = indices
           /\ Forall (transaction_ok members campaigns) new_ts
           /\ Forall (fun x =>
                        In (TransactionItem.transaction_id x) indices
                        /\ line_ok items (TransactionItem.transaction_id x) x)
                new_tis
           /\ (sample_contract src -> NoDup indices ->
               (forall i, In i indices ->
                          1 <= List.length (lines_of i new_tis) <= 3)
               /\ (NoDup (map Item.item_id items) ->
                   NoDup (map line_key new_tis)))
           /\ session st'
              = (session st ++ flat_map add_and_flush indices)%list)
      E.
Proof.
  intros Hm Hc Hi Hf.
  induction indices as [| i rest IH]; intros ts tis st.
  - apply run_ret. exists [], []. cbn. rewrite !app_nil_r.
    split; [reflexivity |]. split; [reflexivity |]. split; [reflexivity |].
    split; [constructor |]. split; [constructor |]. split; [| reflexivity].
    intros _ _. split; [intros i [] | intros _; constructor].
  - cbn [transactions_loop]. apply run_bind.
    eapply run_weaken;
      [apply (new_transaction_run i members items campaigns tis st E Hm Hc Hi Hf)
      | | auto].
    intros [t tis1] st1 (Hid & Hok & (new1 & Hsnd & Hall1 & Hct1) & Hs1).
    cbn [fst snd] in *.
    eapply run_weaken; [apply IH | | auto].
    intros [ts' tis'] st'
      (new_ts & new_tis & Hfst & Hsnd' & Hids & Hoks & Hall & Hct & Hs').
    cbn [fst snd] in *.
    assert (Hown : Forall (fun x => TransactionItem.transaction_id x = i) new1).
    { eapply Forall_impl; [| exact Hall1]. now intros x [Hx _]. }
    exists (t :: new_ts), (new1 ++ new_tis)%list.
    split; [rewrite Hfst, <- app_assoc; reflexivity |].
    split; [rewrite Hsnd', Hsnd, <- app_assoc; reflexivity |].
    split; [cbn; now rewrite Hid, Hids |].
    split; [now constructor |].
    split; [| split].
    + apply Forall_app. split.
      * eapply Forall_impl; [| exact Hall1].
        intros x Hx. assert (Htid := proj1 Hx). rewrite Htid.
        split; [now left | exact Hx].
      * eapply Forall_impl; [| exact Hall].
        intros x [Hin Hx]. split; [now right | exact Hx].
    + intros Hsc Hnd. inversion Hnd as [| a l Hfresh Hrest]; subst a l.
      destruct (Hct1 Hsc) as [Hlen1 Hnd1].
      destruct (Hct Hsc Hrest) as [Hcount Hkeys].
      assert (Hother : Forall (fun x => TransactionItem.transaction_id x <> i)
                         new_tis).
      { eapply Forall_impl; [| exact Hall].
        intros x [Hin _] Heq. apply Hfresh. now rewrite <- Heq. }
      split.
      * assert (Happ : forall j, lines_of j (new1 ++ new_tis)
                                 = (lines_of j new1 ++ lines_of j new_tis)%list).
        { intros j. unfold lines_of. apply filter_app. }
        intros j [<- | Hj]; rewrite Happ.
        -- rewrite (lines_of_own _ _ Hown), (lines_of_other _ _ Hother),
             app_nil_r. exact Hlen1.
        -- rewrite (lines_of_other j new1).
           ++ cbn [app]. now apply Hcount.
           ++ eapply Forall_impl; [| exact Hown].
              intros x Hx Heq. apply Hfresh. congruence.
      * intros Hitems. rewrite map_app. apply NoDup_app.
        -- apply NoDup_map_inv with (f := snd). rewrite map_map.
           exact (Hnd1 Hitems).
        -- now apply Hkeys.
        -- intros key Hin1 Hin2.
           apply in_map_iff in Hin1. destruct Hin1 as [x [Hx Hin1]].
           apply in_map_iff in Hin2. destruct Hin2 as [y [Hy Hin2]].
           rewrite Forall_forall in Hown, Hother.
           apply (Hother y Hin2). rewrite <- (Hown x Hin1).
           unfold line_key in Hx, Hy. congruence.
    + rewrite Hs', Hs1, <- app_assoc. reflexivity.
Qed.

Lemma generate_transactions_run (members : list Member.t) (items : list Item.t)
    (campaigns : list Campaign.t) (num_transactions : Z)
    (E : exn -> state World -> Prop) st :
  (members = [] -> forall s, E IndexError s) ->
  (campaigns = [] -> forall s, E IndexError s) ->
  (List.length items < 3 -> forall s, E ValueError s) ->
  (forall e s, flush_raises src e -> E e s) ->
  run (generate_transactions src members items campaigns num_transactions) st
    (fun r st' =>
       map Transaction.transaction_id (fst r)
       = range_from 1 (Z.to_nat num_transactions)
       /\ Forall (transaction_ok members campaigns) (fst r)
       /\ Forall (fun x =>
                    In (TransactionItem.transaction_id x)
                      (map Transaction.transaction_id (fst r))
                    /\ line_ok items (TransactionItem.transaction_id x) x)
            (snd r)
       /\ (sample_contract src ->
           (forall t, In t (fst r) ->
                      1 <= List.length
                             (lines_of (Transaction.transaction_id t) (snd r)) <= 3)
           /\ (NoDup (map Item.item_id items) -> NoDup (map line_key (snd r))))
       /\ session st'
          = (session st
             ++ flat_map add_and_flush (range_from 1 (Z.to_nat num_transactions))
             ++ [AddAll (map item_ref (snd r))])%list)
    E.
Proof.
  intros Hm Hc Hi Hf. unfold generate_transactions. apply run_bind.
  eapply run_weaken;
    [apply (transactions_loop_run members items campaigns E
              (range_from 1 (Z.to_nat num_transactions)) Hm Hc Hi Hf [] [] st)
    | | auto].
  intros [ts tis] st1
    (new_ts & new_tis & Hfst & Hsnd & Hids & Hoks & Hall & Hct & Hs1).
  cbn [fst snd app] in *. subst new_ts new_tis.
  apply run_bind, run_call, run_ret. cbn [fst snd session].
  split; [exact Hids |]. split; [exact Hoks |]. split; [| split].
  - now rewrite Hids.
  - intros Hsc.
    destruct (Hct Hsc (NoDup_range_from _ _)) as [Hcount Hkeys].
    split; [| exact Hkeys].
    intros t Ht. apply Hcount. rewrite <- Hids. now apply in_map.
  - rewrite Hs1, <- app_assoc. reflexivity.
Qed.

(** X16. Whatever the random sources give, what [generate_transactions]
    returns refers to what it was given: the transactions are numbered
    1, 2, ... in order; each names a member of [members]; it names no
    campaign and has discount 0.0, or names a campaign of [campaigns]
    and has that campaign's discount; each transaction item belongs to
    a returned transaction, names an item of [items] and copies that
    item's price, with a quantity from 1 to 5.  The session saw every
    transaction added and flushed in turn, and then one [add_all] of the
    transaction items. *)
Theorem generated_transactions_refer_to_their_inputs
    (members : list Member.t) (items : list Item.t)
    (campaigns : list Campaign.t) (num_transactions : Z)
    (st st' : state World) (ts : list Transaction.t)
    (tis : list TransactionItem.t) :
  generate_transactions src members items campaigns num_transactions st
  = (inl (ts, tis), st') ->
  map Transaction.transaction_id ts = range_from 1 (Z.to_nat num_transactions)
  /\ Forall (transaction_ok members campaigns) ts
  /\ Forall (fun x =>
               In (TransactionItem.transaction_id x)
                 (map Transaction.transaction_id ts)
               /\ line_ok items (TransactionItem.transaction_id x) x)
       tis
  /\ session st'
     = (session st
        ++ flat_map add_and_flush (range_from 1 (Z.to_nat num_transactions))
        ++ [AddAll (map item_ref tis)])%list.
Proof.
  intros Hrun.
  assert (H := run_ensures _ st _
                 (generate_transactions_run members items campaigns
                    num_transactions whatever st
                    (fun _ _ => I) (fun _ _ => I) (fun _ _ => I)
                    (fun _ _ _ => I))
                 (ts, tis) st' Hrun).
  cbn [fst snd] in H. destruct H as (H1 & H2 & H3 & _ & H5).
  now repeat split.
Qed.

(** X17. With a [random.sample] that gives distinct positions, at least
    one member, at least one campaign and at least three items with
    distinct ids, [generate_transactions] raises nothing but what
    [session.flush()] raises; with a flush that does not raise it always
    returns.  Every transaction it returns has one to three transaction
    items, and no two transaction items share the pair (transaction id,
    item id), the primary key of their table. *)
Theorem transactions_have_one_to_three_distinct_items
    (members : list Member.t) (items : list Item.t)
    (campaigns : list Campaign.t) (num_transactions : Z) (st : state World) :
  sample_contract src ->
  members <> [] ->
  campaigns <> [] ->
  3 <= List.length items ->
  NoDup (map Item.item_id items) ->
  match generate_transactions src members items campaigns num_transactions st
  with
  | (inl (ts, tis), _) =>
      List.length ts = Z.to_nat num_transactions
      /\ (forall t, In t ts ->
                    1 <= List.length (lines_of (Transaction.transaction_id t) tis)
                    <= 3)
      /\ NoDup (map line_key tis)
  | (inr e, _) => flush_raises src e
  end
  /\ ((forall e, ~ flush_raises src e) ->
      exists ts tis st',
        generate_transactions src members items campaigns num_transactions st
        = (inl (ts, tis), st')).
Proof.
  intros Hsc Hm Hc Hi Hitems.
  pose proof (generate_transactions_run members items campaigns
                num_transactions (fun e _ => flush_raises src e) st
                (fun H => False_ind _ (Hm H))
                (fun H => False_ind _ (Hc H))
                (fun H => False_ind _
                            (Nat.lt_irrefl _ (Nat.lt_le_trans _ _ _ H Hi)))
                (fun e _ H => H)) as H.
  unfold run in H.
  destruct (generate_transactions src members items campaigns
              num_transactions st) as [[[ts tis] | e] st'].
  - cbn [fst snd] in H. destruct H as (Hids & _ & _ & Hct & _).
    destruct (Hct Hsc) as [Hcount Hkeys].
    split; [| intros _; now exists ts, tis, st'].
    split; [| split].
    + rewrite <- (length_map Transaction.transaction_id), Hids.
      apply length_range_from.
    + exact Hcount.
    + now apply Hkeys.
  - split; [exact H |]. intros Hnever. destruct (Hnever e H).
Qed.

End DatabaseFacts.

Section DatabaseErrors.

Import Database DatabaseSpec.

Context {World : Type} (src : source World).

Lemma run_raises {A : Type} (c : M World A) st
    (E : exn -> state World -> Prop) :
  run c st (fun _ _ => False) E -> exists e st', c st = (inr e, st') /\ E e st'.
Proof.
  unfold run. destruct (c st) as [[a | e] st1]; intros H.
  - destruct H.
  - now exists e, st1.
Qed.

Lemma new_transaction_without_items (i : Z) (members : list Member.t)
    (campaigns : list Campaign.t) (acc : list TransactionItem.t) st :
  run (new_transaction src i members [] campaigns acc) st
    (fun _ _ => False) whatever.
Proof.
  unfold new_transaction.
  apply run_bind, run_choice; [intros _; exact I |]. intros member w1 _.
  apply run_bind, run_draw. intros hit w2.
  apply run_bind.
  apply run_weaken with (Q := fun _ _ => True) (E := whatever); [| | auto].
  - destruct hit.
    + apply run_bind, run_choice; [intros _; exact I |]. intros c w3 _.
      now apply run_ret.
    + now apply run_ret.
  - intros campaign st1 _. cbv zeta.
    apply run_bind, run_choice; [discriminate |]. intros method w4 _.
    apply run_bind, run_draw. intros time w5.
    apply run_bind, run_call.
    apply run_bind, run_writing; [intros wf | intros e wf _; exact I].
    apply run_bind, run_randint; [lia |]. intros k w6 Hk.
    apply run_bind, run_sample.
    + intros _. exact I.
    + intros Hrange. cbn [List.length] in Hrange. lia.
Qed.

(** X18. [generate_transactions] asked for at least one transaction
    raises when it is given no members or no items.  With no members it
    raises the [IndexError] of [random.choice] before anything else
    happens: the random sources and the session are untouched. *)
Theorem transactions_need_members_and_items
    (members : list Member.t) (items : list Item.t)
    (campaigns : list Campaign.t) (num_transactions : Z) (st : state World) :
  (1 <= num_transactions)%Z ->
  members = [] \/ items = [] ->
  exists e st',
    generate_transactions src members items campaigns num_transactions st
    = (inr e, st')
    /\ (members = [] -> e = IndexError /\ st' = st).
Proof.
  intros Hn Hor.
  destruct (Z.to_nat num_transactions) as [| len] eqn:Hlen; [lia |].
  destruct members as [| m ms].
  - exists IndexError, st. split; [| now split].
    unfold generate_transactions. rewrite Hlen. reflexivity.
  - destruct Hor as [Hm | Hi]; [discriminate |]. subst items.
    destruct (run_raises
                (generate_transactions src (m :: ms) [] campaigns num_transactions)
                st whatever) as (e & st' & Hrun & _).
    + unfold generate_transactions. rewrite Hlen.
      cbn [range_from transactions_loop].
      apply run_bind, run_bind.
      eapply run_weaken; [apply new_transaction_without_items | | auto].
      intros r st1 [].
    + exists e, st'. split; [exact Hrun | discriminate].
Qed.

(** X19. An empty list of campaigns is not skipped: when the draw
    [random.random() < 0.3] of the first transaction succeeds,
    [generate_transactions] raises the [IndexError] of [random.choice],
    and the session has not been called. *)
Theorem empty_campaigns_raise_on_a_hit
    (members : list Member.t) (items : list Item.t)
    (num_transactions : Z) (st : state World) :
  members <> [] ->
  (1 <= num_transactions)%Z ->
  first_campaign_draw src members (world st) = true ->
  exists st',
    generate_transactions src members items [] num_transactions st
    = (inr IndexError, st')
    /\ session st' = session st.
Proof.
  intros Hm Hn Hhit.
  destruct (Z.to_nat num_transactions) as [| len] eqn:Hlen; [lia |].
  destruct members as [| m ms]; [contradiction |].
  unfold generate_transactions, first_campaign_draw in *. rewrite Hlen.
  cbn [range_from transactions_loop].
  unfold new_transaction, choice, bind, draw, ret, raise.
  cbn [world session].
  destruct (randbelow src (List.length (m :: ms)) (world st)) as [k w1].
  cbn [snd world session] in *.
  destruct (random_below src "0.3" w1) as [hit w2].
  cbn [fst] in Hhit. subst hit.
  eexists. split; reflexivity.
Qed.

(** X20. With a [random.sample] that gives distinct positions, the data
    generation of [create_sql_engine] raises nothing but what
    [fake.unique.email()], [session.flush()] or [session.commit()]
    raises: the generators feed each other what they need.  When those
    three do not raise it always returns.  It makes 100 members, 30
    items, 5 campaigns and 150 transactions, numbered from 1; the data is
    consistent (every foreign key names a generated row, no two
    transaction items share a key); its last two session calls are
    [add_all] of everything generated and [commit]. *)
Theorem create_sql_engine_populates_every_table (st : state World) :
  sample_contract src ->
  match create_sql_engine src st with
  | (inl d, st') =>
      map Member.member_id (members d) = range_from 1 100
      /\ map Item.item_id (items d) = range_from 1 30
      /\ map Campaign.campaign_id (campaigns d) = range_from 1 5
      /\ map Transaction.transaction_id (transactions d) = range_from 1 150
      /\ dataset_consistent d
      /\ exists calls,
           session st'
           = (session st ++ calls ++ [AddAll (all_refs d); Commit])%list
  | (inr e, _) =>
      email_raises src e \/ flush_raises src e \/ commit_raises src e
  end
  /\ ((forall e, ~ email_raises src e) ->
      (forall e, ~ flush_raises src e) ->
      (forall e, ~ commit_raises src e) ->
      exists d st', create_sql_engine src st = (inl d, st')).
Proof.
  intros Hsc.
  set (E := fun (e : exn) (_ : state World) =>
              email_raises src e \/ flush_raises src e \/ commit_raises src e).
  assert (H : run (create_sql_engine src) st
                (fun d st' =>
                   map Member.member_id (members d) = range_from 1 100
                   /\ map Item.item_id (items d) = range_from 1 30
                   /\ map Campaign.campaign_id (campaigns d) = range_from 1 5
                   /\ map Transaction.transaction_id (transactions d)
                      = range_from 1 150
                   /\ dataset_consistent d
                   /\ exists calls,
                        session st'
                        = (session st ++ calls
                           ++ [AddAll (all_refs d); Commit])%list)
                E).
  { unfold create_sql_engine.
    apply run_bind.
    eapply run_weaken;
      [apply generate_members_run | | intros e s [He _]; now left].
    intros ms st1 (Hms & Hmok & Hs1). cbv beta.
    apply run_bind.
    eapply run_weaken; [apply generate_items_run | | intros e s []].
    intros xs st2 (Hxs & Hxok & Hs2). cbv beta.
    apply run_bind.
    eapply run_weaken; [apply generate_campaigns_run | | intros e s []].
    intros cs st3 (Hcs & Hcok & Hs3). cbv beta.
    change (Z.to_nat 100) with 100 in *.
    change (Z.to_nat 30) with 30 in *.
    change (Z.to_nat 5) with 5 in *.
    assert (Hm : ms <> []).
    { intros ->. discriminate Hms. }
    assert (Hc : cs <> []).
    { intros ->. discriminate Hcs. }
    assert (Hx : List.length xs = 30).
    { rewrite <- (length_map Item.item_id), Hxs. apply length_range_from. }
    apply run_bind.
    eapply run_weaken;
      [apply (generate_transactions_run src ms xs cs 150 E st3)
      | | intros e s He; exact He].
    - intros H. now apply Hm in H.
    - intros H. now apply Hc in H.
    - intros H. rewrite Hx in H. lia.
    - intros e s He. right. now left.
    - intros [ts tis] st4 (Hts & Htok & Hlines & Hct & Hs4). cbv zeta beta.
      cbn [fst snd] in *. change (Z.to_nat 150) with 150 in *.
      apply run_bind, run_call.
      apply run_bind, run_writing;
        [intros wc | intros e wc He; right; now right].
      apply run_ret.
      cbn [members items campaigns transactions transaction_items session].
      split; [exact Hms |]. split; [exact Hxs |]. split; [exact Hcs |].
      split; [exact Hts |]. split.
      + unfold dataset_consistent.
        cbn [members items campaigns transactions transaction_items].
        split; [exact Hmok |]. split; [exact Hxok |]. split; [exact Hcok |].
        split; [exact Htok |]. split; [exact Hlines |].
        apply (proj2 (Hct Hsc)). rewrite Hxs. apply NoDup_range_from.
      + exists ([AddAll (map RMember (range_from 1 100));
                 AddAll (map RItem (range_from 1 30));
                 AddAll (map RCampaign (range_from 1 5))]
                ++ flat_map add_and_flush (range_from 1 150)
                ++ [AddAll (map item_ref tis)])%list.
        rewrite Hs4, Hs3, Hs2, Hs1, <- !app_assoc. reflexivity. }
  unfold run in H. split; [exact H |].
  intros He Hf Hc.
  destruct (create_sql_engine src st) as [[d | e] st'].
  - now exists d, st'.
  - destruct H as [H | [H | H]];
      [destruct (He e H) | destruct (Hf e H) | destruct (Hc e H)].
Qed.

End DatabaseErrors.

Section DatabaseRuns.

Import Database DatabaseSpec.

Lemma counting_sample_contract : sample_contract counting.
Proof.
  intros n k w Hk. cbn [counting sample_positions fst].
  split; [apply length_seq |]. split; [apply seq_NoDup |].
  apply Forall_forall. intros p Hp. apply in_seq in Hp. lia.
Qed.

Lemma counting_never_raises : forall e, ~ flush_raises counting e.
Proof. intros e (calls & w & H). discriminate H. Qed.

Lemma counting_commit_never_raises : forall e, ~ commit_raises counting e.
Proof. intros e (calls & w & H). discriminate H. Qed.

Lemma counting_email_never_raises : forall e, ~ email_raises counting e.
Proof. intros e (w & H). discriminate H. Qed.

Lemma generated_transactions_refer_to_their_inputs_witness :
  exists ts tis st',
    generate_transactions counting [one_member] three_items [one_campaign] 2%Z
      (start 0)
    = (inl (ts, tis), st')
    /\ map Transaction.transaction_id ts = range_from 1 (Z.to_nat 2%Z)
    /\ Forall (transaction_ok [one_member] [one_campaign]) ts
    /\ Forall (fun x =>
                 In (TransactionItem.transaction_id x)
                   (map Transaction.transaction_id ts)
                 /\ line_ok three_items (TransactionItem.transaction_id x) x)
         tis
    /\ session st'
       = (session (start 0)
          ++ flat_map add_and_flush (range_from 1 (Z.to_nat 2%Z))
          ++ [AddAll (map item_ref tis)])%list.
Proof.
  destruct (generate_transactions counting [one_member] three_items
              [one_campaign] 2%Z (start 0))
    as [[[ts tis] | e] st'] eqn:Hrun.
  - exists ts, tis, st'. split; [reflexivity |].
    exact (generated_transactions_refer_to_their_inputs counting
             [one_member] three_items [one_campaign] 2%Z (start 0) st' ts tis Hrun).
  - vm_compute in Hrun. discriminate Hrun.
Defined.

Lemma transactions_have_one_to_three_distinct_items_witness :
  (match generate_transactions counting [one_member] three_items [one_campaign]
          2%Z (start 0)
  with
  | (inl (ts, tis), _) =>
      List.length ts = Z.to_nat 2%Z
      /\ (forall t, In t ts ->
                    1 <= List.length (lines_of (Transaction.transaction_id t) tis)
                    <= 3)
      /\ NoDup (map line_key tis)
  | (inr e, _) => flush_raises counting e
  end
  /\ ((forall e, ~ flush_raises counting e) ->
      exists ts tis st',
        generate_transactions counting [one_member] three_items [one_campaign]
          2%Z (start 0)
        = (inl (ts, tis), st')))
  /\ exists ts tis st',
       generate_transactions counting [one_member] three_items [one_campaign]
         2%Z (start 0)
       = (inl (ts, tis), st').
Proof.
  pose proof (transactions_have_one_to_three_distinct_items counting
                [one_member] three_items [one_campaign] 2%Z (start 0)
                counting_sample_contract) as H.
  specialize (H ltac:(discriminate)).
  specialize (H ltac:(discriminate)).
  specialize (H ltac:(simpl; lia)).
  specialize (H (NoDup_range_from 3 1)).
  destruct H as [H1 H2].
  split; [split; [exact H1 | exact H2] |].
  exact (H2 counting_never_raises).
Defined.

Lemma transactions_need_members_and_items_witness :
  exists e st',
    generate_transactions counting [] [] [one_campaign] 1%Z (start 0)
    = (inr e, st')
    /\ (@nil Member.t = [] -> e = IndexError /\ st' = start 0).
Proof.
  apply (transactions_need_members_and_items counting [] [] [one_campaign] 1%Z
           (start 0)).
  - lia.
  - left. reflexivity.
Defined.

Lemma empty_campaigns_raise_on_a_hit_witness :
  exists st',
    generate_transactions counting [one_member] three_items [] 1%Z (start 1)
    = (inr IndexError, st')
    /\ session st' = session (start 1).
Proof.
  apply (empty_campaigns_raise_on_a_hit counting [one_member] three_items 1%Z
           (start 1)).
  - discriminate.
  - lia.
  - reflexivity.
Defined.

Lemma create_sql_engine_populates_every_table_witness :
  (match create_sql_engine counting (start 0) with
  | (inl d, st') =>
      map Member.member_id (members d) = range_from 1 100
      /\ map Item.item_id (items d) = range_from 1 30
      /\ map Campaign.campaign_id (campaigns d) = range_from 1 5
      /\ map Transaction.transaction_id (transactions d) = range_from 1 150
      /\ dataset_consistent d
      /\ exists calls,
           session st'
           = (session (start 0) ++ calls ++ [AddAll (all_refs d); Commit])%list
  | (inr e, _) =>
      email_raises counting e \/ flush_raises counting e
      \/ commit_raises counting e
  end
  /\ ((forall e, ~ email_raises counting e) ->
      (forall e, ~ flush_raises counting e) ->
      (forall e, ~ commit_raises counting e) ->
      exists d st', create_sql_engine counting (start 0) = (inl d, st')))
  /\ exists d st', create_sql_engine counting (start 0) = (inl d, st').
Proof.
  destruct (create_sql_engine_populates_every_table counting (start 0)
              counting_sample_contract) as [H1 H2].
  split; [split; [exact H1 | exact H2] |].
  exact (H2 counting_email_never_raises counting_never_raises
            counting_commit_never_raises).
Defined.

End DatabaseRuns.

(** ** The catalog of [src/schema.py] and the tables of [src/database.py] *)

Section CatalogAndModels.

Import Schema Models.

(** X21. The catalog that [create_schema] is built from documents the
    tables that [database.py] declares, and nothing else: the same
    tables in the same order, also in [table_definitions] and in the
    [include_tables] of the agent's [SQLDatabase]; for every table the
    same columns in declaration order, each with the name of its
    declared type, marked nullable exactly where the declaration says
    [nullable=True].  Every foreign key of the declarations names a
    primary key column of a declared table. *)
Theorem catalog_documents_the_declared_tables :
  map fst column_definitions = map tablename models
  /\ map fst table_definitions = map tablename models
  /\ include_tables = map tablename models
  /\ map (fun entry => map (fun f => (field_name f, field_type f)) (snd entry))
       column_definitions
     = map (fun m => map documented (model_columns m)) models
  /\ forall m c target,
       In m models -> In c (model_columns m) ->
       foreign_key c = Some target ->
       resolves target = true.
Proof.
  split; [reflexivity |]. split; [reflexivity |]. split; [reflexivity |].
  split; [reflexivity |].
  assert (Hall : forallb
                   (fun m =>
                      forallb (fun c => match foreign_key c with
                                        | Some target => resolves target
                                        | None => true
                                        end)
                        (model_columns m))
                   models = true) by (vm_compute; reflexivity).
  intros m c target Hm Hc Hfk.
  rewrite forallb_forall in Hall. specialize (Hall m Hm).
  rewrite forallb_forall in Hall. specialize (Hall c Hc).
  now rewrite Hfk in Hall.
Qed.

End CatalogAndModels.
